(** * Hanuman network runtime: a shallow embedding and its properties

    The development follows the C sources of the runtime:

    - [Http2]      : src/http2.c        (frame header codec, SETTINGS, preface)
    - [Http]       : src/http_server.c  (requests, responses and their functions)
    - [Route]      : src/http_route.c   (pattern matching of routes)
    - [Codec]      : src/http_server.c  (url_decode, build_http_response)
    - [Server]     : src/http_server.c  (the server structure, registrations)
    - [Static]     : src/http_server.c  (serve_static_file)
    - [Reactor]    : src/http_server.c  (connection table, accept, dispatch)
    - [Supervisor] : src/application.c  (application_run)

    Conventions.  A C string is a [string]: the characters before the
    terminating NUL.  A byte of a binary buffer is a [Z] in [0, 256).
    Unsigned 32-bit quantities are [Z]; shifts and masks are written with
    [Z.shiftr], [Z.shiftl], [Z.land] and [Z.lor] as in the source.
    Allocation ([malloc], [calloc], [realloc]) is taken to succeed unless a
    definition says otherwise.  The definitions come first, the theorems
    follow in the second half of the file. *)

From Stdlib Require Import ZArith Lia String Ascii.
From stdpp Require Import base tactics option list strings numbers.

(* ===================================================================== *)
(** * Part I: the model                                                   *)
(* ===================================================================== *)

(** ** Characters and strings shared by the modules *)

Definition CR : ascii := "013"%char.
Definition LF : ascii := "010"%char.
Definition CRLF : string := String CR (String LF EmptyString).

Definition byte_of_ascii (a : ascii) : Z := Z.of_nat (nat_of_ascii a).

Definition bytes_of_string (s : string) : list Z :=
  byte_of_ascii <$> list_ascii_of_string s.

(** [n] characters of [s], or all of it when it is shorter: what
    [strncpy] into a zeroed field and a truncating [snprintf] keep. *)
Fixpoint str_take (n : nat) (s : string) : string :=
  match n, s with
  | S n', String c r => String c (str_take n' r)
  | _, _ => EmptyString
  end.

(** Pointer advance [s + n] inside the string. *)
Fixpoint str_drop (n : nat) (s : string) : string :=
  match n, s with
  | S n', String c r => str_drop n' r
  | _, _ => s
  end.

(** [strchr(s, c)]: the offset of the first [c], [None] for NULL. *)
Fixpoint strchr (s : string) (c : ascii) : option nat :=
  match s with
  | EmptyString => None
  | String a r => if Ascii.eqb a c then Some 0 else S <$> strchr r c
  end.

(** [strstr(s, needle) != NULL] *)
Fixpoint str_contains (needle s : string) : bool :=
  String.prefix needle s ||
  match s with
  | EmptyString => false
  | String _ r => str_contains needle r
  end.

Definition str_is_empty (s : string) : bool :=
  match s with EmptyString => true | String _ _ => false end.

(** [*s == c] *)
Definition starts_with (c : ascii) (s : string) : bool :=
  match s with
  | EmptyString => false
  | String a _ => Ascii.eqb a c
  end.

(* --------------------------------------------------------------------- *)
(** ** HTTP/2 framing (src/http2.c, include/http2.h)                      *)
(* --------------------------------------------------------------------- *)

Module Http2.
Local Open Scope Z_scope.

Definition HTTP2_PREFACE : string :=
  ("PRI * HTTP/2.0" +:+ CRLF +:+ CRLF +:+ "SM" +:+ CRLF +:+ CRLF)%string.
Definition HTTP2_PREFACE_LEN : nat := 24.

Inductive HTTP2_FRAME_TYPE :=
| HTTP2_FRAME_DATA | HTTP2_FRAME_HEADERS | HTTP2_FRAME_PRIORITY
| HTTP2_FRAME_RST_STREAM | HTTP2_FRAME_SETTINGS | HTTP2_FRAME_PUSH_PROMISE
| HTTP2_FRAME_PING | HTTP2_FRAME_GOAWAY | HTTP2_FRAME_WINDOW_UPDATE
| HTTP2_FRAME_CONTINUATION.

(** The enumerators' values. *)
Definition frame_type_code (t : HTTP2_FRAME_TYPE) : Z :=
  match t with
  | HTTP2_FRAME_DATA => 0 | HTTP2_FRAME_HEADERS => 1
  | HTTP2_FRAME_PRIORITY => 2 | HTTP2_FRAME_RST_STREAM => 3
  | HTTP2_FRAME_SETTINGS => 4 | HTTP2_FRAME_PUSH_PROMISE => 5
  | HTTP2_FRAME_PING => 6 | HTTP2_FRAME_GOAWAY => 7
  | HTTP2_FRAME_WINDOW_UPDATE => 8 | HTTP2_FRAME_CONTINUATION => 9
  end.

Definition HTTP2_FLAG_NONE : Z := 0.
Definition HTTP2_FLAG_ACK : Z := 1.

Definition HTTP2_SETTINGS_HEADER_TABLE_SIZE : Z := 1.
Definition HTTP2_SETTINGS_ENABLE_PUSH : Z := 2.
Definition HTTP2_SETTINGS_MAX_CONCURRENT_STREAMS : Z := 3.
Definition HTTP2_SETTINGS_INITIAL_WINDOW_SIZE : Z := 4.
Definition HTTP2_SETTINGS_MAX_FRAME_SIZE : Z := 5.
Definition HTTP2_SETTINGS_MAX_HEADER_LIST_SIZE : Z := 6.

Record HTTP2_FRAME_HEADER := {
  fh_length : Z;      (* uint32_t length, 24 bits used *)
  fh_type : Z;        (* uint8_t type *)
  fh_flags : Z;       (* uint8_t flags *)
  fh_stream_id : Z    (* uint32_t stream_id, 31 bits used *)
}.

(** [static const uint32_t default_settings[7]] *)
Definition default_settings : list Z :=
  [0; 4096; 1; 100; 65535; 16384; 8192].

(** The peer's end of a connected stream socket, as far as the HTTP/2
    code touches it: [sock_in] holds the bytes waiting in the receive
    queue, [sock_out] the bytes handed to [send] so far, and [sock_plan]
    fixes what the next calls of [send] return (a negative entry is a
    failed call, [k >= 0] a call that takes at most [k] bytes; once the
    plan is used up every call takes all its bytes). *)
Record socket := {
  sock_in : list Z;
  sock_out : list Z;
  sock_plan : list Z
}.

(** [send(fd, buf, n, 0)]: the value returned and the socket afterwards. *)
Definition send (s : socket) (buf : list Z) : Z * socket :=
  match sock_plan s with
  | [] =>
      (Z.of_nat (length buf),
       {| sock_in := sock_in s; sock_out := sock_out s ++ buf; sock_plan := [] |})
  | k :: plan =>
      if k <? 0 then
        (-1, {| sock_in := sock_in s; sock_out := sock_out s; sock_plan := plan |})
      else
        let taken := take (Z.to_nat k) buf in
        (Z.of_nat (length taken),
         {| sock_in := sock_in s; sock_out := sock_out s ++ taken;
            sock_plan := plan |})
  end.

Record HTTP2_CONNECTION := {
  socket_ : socket;
  is_http2 : bool;
  preface_received : bool;
  local_settings : list Z;
  remote_settings : list Z;
  stream_count : nat;
  next_stream_id : Z;
  last_stream_id : Z
}.

Definition with_socket (c : HTTP2_CONNECTION) (s : socket) : HTTP2_CONNECTION :=
  {| socket_ := s; is_http2 := is_http2 c;
     preface_received := preface_received c;
     local_settings := local_settings c;
     remote_settings := remote_settings c;
     stream_count := stream_count c;
     next_stream_id := next_stream_id c;
     last_stream_id := last_stream_id c |}.

Definition http2_connection_create (s : socket) : HTTP2_CONNECTION :=
  {| socket_ := s; is_http2 := false; preface_received := false;
     local_settings := default_settings;
     remote_settings := default_settings;
     stream_count := 0;
     next_stream_id := 2;
     last_stream_id := 0 |}.

(** [http2_parse_frame_header]: [data] points at nine bytes.  [None]
    stands for a buffer shorter than the nine bytes the function reads. *)
Definition http2_parse_frame_header (data : list Z) : option HTTP2_FRAME_HEADER :=
  match data with
  | d0 :: d1 :: d2 :: d3 :: d4 :: d5 :: d6 :: d7 :: d8 :: _ =>
      Some {| fh_length :=
                Z.lor (Z.lor (Z.shiftl d0 16) (Z.shiftl d1 8)) d2;
              fh_type := d3;
              fh_flags := d4;
              fh_stream_id :=
                Z.lor (Z.lor (Z.lor (Z.shiftl (Z.land d5 127) 24)
                                    (Z.shiftl d6 16))
                             (Z.shiftl d7 8)) d8 |}
  | _ => None
  end.

(** The nine bytes [http2_send_frame] stores in [uint8_t header[9]]. *)
Definition frame_header_bytes (type flags stream_id length : Z) : list Z :=
  [ Z.land (Z.shiftr length 16) 255;
    Z.land (Z.shiftr length 8) 255;
    Z.land length 255;
    type;
    flags;
    Z.land (Z.shiftr stream_id 24) 127;
    Z.land (Z.shiftr stream_id 16) 255;
    Z.land (Z.shiftr stream_id 8) 255;
    Z.land stream_id 255 ].

(** [http2_send_frame]; [payload] is [None] for a NULL pointer. *)
Definition http2_send_frame (conn : HTTP2_CONNECTION) (type : HTTP2_FRAME_TYPE)
    (flags stream_id : Z) (payload : option (list Z)) (length : Z)
  : Z * HTTP2_CONNECTION :=
  let header := frame_header_bytes (frame_type_code type) flags stream_id length in
  let '(n, s1) := send (socket_ conn) header in
  if negb (n =? 9) then (-1, with_socket conn s1)
  else
    match payload with
    | Some p =>
        if 0 <? length then
          let '(m, s2) := send s1 (take (Z.to_nat length) p) in
          if negb (m =? length) then (-1, with_socket conn s2)
          else (0, with_socket conn s2)
        else (0, with_socket conn s1)
    | None => (0, with_socket conn s1)
    end.

(** What a call of [http2_send_frame] appends when every [send] takes
    all its bytes. *)
Definition frame_bytes (ty : HTTP2_FRAME_TYPE) (flags sid : Z)
    (payload : option (list Z)) (len : Z) : list Z :=
  frame_header_bytes (frame_type_code ty) flags sid len ++
  match payload with
  | Some p => if 0 <? len then take (Z.to_nat len) p else []
  | None => []
  end.

(** One six-byte entry of the SETTINGS payload as [http2_send_settings]
    fills it: a zero byte, the identifier, the value big-endian. *)
Definition settings_entry (id value : Z) : list Z :=
  [ 0; id;
    Z.land (Z.shiftr value 24) 255;
    Z.land (Z.shiftr value 16) 255;
    Z.land (Z.shiftr value 8) 255;
    Z.land value 255 ].

Definition http2_send_settings (conn : HTTP2_CONNECTION) (ack : bool)
  : Z * HTTP2_CONNECTION :=
  if ack then
    http2_send_frame conn HTTP2_FRAME_SETTINGS HTTP2_FLAG_ACK 0 None 0
  else
    let ls := local_settings conn in
    let payload :=
      settings_entry HTTP2_SETTINGS_HEADER_TABLE_SIZE (ls !!! 1%nat) ++
      settings_entry HTTP2_SETTINGS_ENABLE_PUSH (ls !!! 2%nat) ++
      settings_entry HTTP2_SETTINGS_MAX_CONCURRENT_STREAMS (ls !!! 3%nat) ++
      settings_entry HTTP2_SETTINGS_INITIAL_WINDOW_SIZE (ls !!! 4%nat) ++
      settings_entry HTTP2_SETTINGS_MAX_FRAME_SIZE (ls !!! 5%nat) ++
      settings_entry HTTP2_SETTINGS_MAX_HEADER_LIST_SIZE (ls !!! 6%nat) in
    http2_send_frame conn HTTP2_FRAME_SETTINGS HTTP2_FLAG_NONE 0
      (Some payload) (Z.of_nat (length payload)).

(** [http2_handle_connection]: peek at 24 bytes; when they are the
    preface, consume them, mark the connection, send the initial SETTINGS
    frame (its result is not looked at) and return 0; otherwise -1. *)
Definition http2_handle_connection (conn : HTTP2_CONNECTION)
  : Z * HTTP2_CONNECTION :=
  let s := socket_ conn in
  let peeked := take HTTP2_PREFACE_LEN (sock_in s) in
  if decide (length peeked = HTTP2_PREFACE_LEN
             ∧ peeked = bytes_of_string HTTP2_PREFACE) then
    let s' := {| sock_in := drop HTTP2_PREFACE_LEN (sock_in s);
                 sock_out := sock_out s; sock_plan := sock_plan s |} in
    let conn1 :=
      {| socket_ := s'; is_http2 := true; preface_received := true;
         local_settings := local_settings conn;
         remote_settings := remote_settings conn;
         stream_count := stream_count conn;
         next_stream_id := next_stream_id conn;
         last_stream_id := last_stream_id conn |} in
    (0, (http2_send_settings conn1 false).2)
  else (-1, conn).

(** The handshake in the words of the specification, to be compared with
    [http2_handle_connection].  A setting on the wire is a 16-bit
    identifier and a 32-bit value, both big-endian. *)
Definition spec_default_settings : list (Z * Z) :=
  [ (1, 4096); (2, 1); (3, 100); (4, 65535); (5, 16384); (6, 8192) ].

Definition spec_setting_wire (kv : Z * Z) : list Z :=
  [ Z.land (Z.shiftr kv.1 8) 255; Z.land kv.1 255;
    Z.land (Z.shiftr kv.2 24) 255; Z.land (Z.shiftr kv.2 16) 255;
    Z.land (Z.shiftr kv.2 8) 255; Z.land kv.2 255 ].

Definition spec_settings_frame : list Z :=
  let payload := concat (spec_setting_wire <$> spec_default_settings) in
  frame_header_bytes (frame_type_code HTTP2_FRAME_SETTINGS) HTTP2_FLAG_NONE 0
    (Z.of_nat (length payload)) ++ payload.

Definition spec_settings_ack_frame : list Z :=
  frame_header_bytes (frame_type_code HTTP2_FRAME_SETTINGS) HTTP2_FLAG_ACK 0 0.

(** "Sends SETTINGS with the six defaults, then reads the peer's SETTINGS
    frame and replies with SETTINGS+ACK", as a relation between the socket
    before and after the preface has been handled: the peer's frame that
    follows the preface has left the receive queue, and the bytes sent are
    the two frames. *)
Definition handshake_as_specified (before after : socket) : Prop :=
  exists (h : HTTP2_FRAME_HEADER) (peer_frame rest : list Z),
    drop HTTP2_PREFACE_LEN (sock_in before) = peer_frame ++ rest
    /\ http2_parse_frame_header peer_frame = Some h
    /\ fh_type h = frame_type_code HTTP2_FRAME_SETTINGS
    /\ Z.of_nat (length peer_frame) = 9 + fh_length h
    /\ sock_in after = rest
    /\ sock_out after
       = sock_out before ++ spec_settings_frame ++ spec_settings_ack_frame.

(** A client that has sent the preface and an empty SETTINGS frame. *)
Definition client_hello : socket :=
  {| sock_in := bytes_of_string HTTP2_PREFACE ++ [0; 0; 0; 4; 0; 0; 0; 0; 0];
     sock_out := [];
     sock_plan := [] |}.

End Http2.

(* --------------------------------------------------------------------- *)
(** ** Requests and responses (include/http_server.h, src/http_server.c)  *)
(* --------------------------------------------------------------------- *)

Module Http.

Inductive HTTP_METHOD :=
| HTTP_METHOD_GET | HTTP_METHOD_POST | HTTP_METHOD_PUT | HTTP_METHOD_DELETE
| HTTP_METHOD_PATCH | HTTP_METHOD_HEAD | HTTP_METHOD_OPTIONS
| HTTP_METHOD_UNKNOWN.

#[global] Instance HTTP_METHOD_eq_dec : EqDecision HTTP_METHOD.
Proof. solve_decision. Defined.

Inductive HTTP_STATUS :=
| HTTP_STATUS_OK | HTTP_STATUS_CREATED | HTTP_STATUS_ACCEPTED
| HTTP_STATUS_NO_CONTENT | HTTP_STATUS_BAD_REQUEST | HTTP_STATUS_UNAUTHORIZED
| HTTP_STATUS_FORBIDDEN | HTTP_STATUS_NOT_FOUND
| HTTP_STATUS_METHOD_NOT_ALLOWED | HTTP_STATUS_INTERNAL_ERROR
| HTTP_STATUS_NOT_IMPLEMENTED | HTTP_STATUS_SERVICE_UNAVAILABLE.

#[global] Instance HTTP_STATUS_eq_dec : EqDecision HTTP_STATUS.
Proof. solve_decision. Defined.

Definition status_code (st : HTTP_STATUS) : N :=
  match st with
  | HTTP_STATUS_OK => 200 | HTTP_STATUS_CREATED => 201
  | HTTP_STATUS_ACCEPTED => 202 | HTTP_STATUS_NO_CONTENT => 204
  | HTTP_STATUS_BAD_REQUEST => 400 | HTTP_STATUS_UNAUTHORIZED => 401
  | HTTP_STATUS_FORBIDDEN => 403 | HTTP_STATUS_NOT_FOUND => 404
  | HTTP_STATUS_METHOD_NOT_ALLOWED => 405 | HTTP_STATUS_INTERNAL_ERROR => 500
  | HTTP_STATUS_NOT_IMPLEMENTED => 501 | HTTP_STATUS_SERVICE_UNAVAILABLE => 503
  end%N.

Definition http_status_to_string (st : HTTP_STATUS) : string :=
  match st with
  | HTTP_STATUS_OK => "OK" | HTTP_STATUS_CREATED => "Created"
  | HTTP_STATUS_ACCEPTED => "Accepted" | HTTP_STATUS_NO_CONTENT => "No Content"
  | HTTP_STATUS_BAD_REQUEST => "Bad Request"
  | HTTP_STATUS_UNAUTHORIZED => "Unauthorized"
  | HTTP_STATUS_FORBIDDEN => "Forbidden" | HTTP_STATUS_NOT_FOUND => "Not Found"
  | HTTP_STATUS_METHOD_NOT_ALLOWED => "Method Not Allowed"
  | HTTP_STATUS_INTERNAL_ERROR => "Internal Server Error"
  | HTTP_STATUS_NOT_IMPLEMENTED => "Not Implemented"
  | HTTP_STATUS_SERVICE_UNAVAILABLE => "Service Unavailable"
  end.

(** [HTTP_HEADER] and [HTTP_PARAM]: [char name[128]; char value[512]] *)
Record HTTP_HEADER := { name : string; value : string }.

#[global] Instance HTTP_HEADER_eq_dec : EqDecision HTTP_HEADER.
Proof. solve_decision. Defined.

(** Storing a pair in such a record: two [strncpy]s of 127 and 511
    characters into a zeroed slot.  The first slots of a list (ten headers,
    ten path parameters, twenty query parameters) come from [calloc] and
    are zeroed; a later slot comes from [realloc] and is not.  There
    [strncpy] still stores, with its terminator, a name of fewer than 127
    and a value of fewer than 511 characters, and this definition is what
    the code does; a longer name or value is left without a terminator,
    which this definition does not describe.  The properties about lists
    that can grow past their first slots are stated for names and values
    below these lengths. *)
Definition store_pair (n v : string) : HTTP_HEADER :=
  {| name := str_take 127 n; value := str_take 511 v |}.

Record HTTP_REQUEST := {
  req_method : HTTP_METHOD;
  req_path : string;
  query_string : string;
  http_version : string;
  req_headers : list HTTP_HEADER;
  req_body : string;
  path_params : list HTTP_HEADER;
  query_params : list HTTP_HEADER
}.

Record HTTP_RESPONSE := {
  status : HTTP_STATUS;
  status_message : string;
  headers : list HTTP_HEADER;
  body : string              (* [body_length] bytes, NUL bytes included *)
}.

Definition body_length (r : HTTP_RESPONSE) : nat := String.length (body r).

Definition http_request_add_path_param (req : HTTP_REQUEST) (n v : string)
  : HTTP_REQUEST :=
  {| req_method := req_method req; req_path := req_path req;
     query_string := query_string req; http_version := http_version req;
     req_headers := req_headers req; req_body := req_body req;
     path_params := path_params req ++ [store_pair n v];
     query_params := query_params req |}.

Definition http_response_add_header (r : HTTP_RESPONSE) (n v : string)
  : HTTP_RESPONSE :=
  {| status := status r; status_message := status_message r;
     headers := headers r ++ [store_pair n v];
     body := body r |}.

Definition http_response_create : HTTP_RESPONSE :=
  http_response_add_header
    (http_response_add_header
       {| status := HTTP_STATUS_OK; status_message := "OK";
          headers := []; body := "" |}
       "Server" "Equinox/1.0 (HTTP/1.1, HTTP/2)")
    "Connection" "close".

Definition http_response_set_status (r : HTTP_RESPONSE) (st : HTTP_STATUS)
  : HTTP_RESPONSE :=
  {| status := st;
     status_message := str_take 127 (http_status_to_string st);
     headers := headers r; body := body r |}.

(** [http_response_set_body(response, body, length)]: [length] bytes of
    [b] are copied. *)
Definition http_response_set_body (r : HTTP_RESPONSE) (b : string)
  : HTTP_RESPONSE :=
  {| status := status r; status_message := status_message r;
     headers := headers r; body := b |}.

Definition http_response_set_json (r : HTTP_RESPONSE) (json : string)
  : HTTP_RESPONSE :=
  http_response_set_body
    (http_response_add_header r "Content-Type" "application/json") json.

Definition http_response_set_text (r : HTTP_RESPONSE) (text : string)
  : HTTP_RESPONSE :=
  http_response_set_body
    (http_response_add_header r "Content-Type" "text/plain") text.

(** What a handler can do to the response it borrows, through the
    functions of http_server.h. *)
Inductive response_call :=
| call_set_status (st : HTTP_STATUS)
| call_add_header (n v : string)
| call_set_body (b : string)
| call_set_json (json : string)
| call_set_text (text : string).

Definition do_call (r : HTTP_RESPONSE) (c : response_call) : HTTP_RESPONSE :=
  match c with
  | call_set_status st => http_response_set_status r st
  | call_add_header n v => http_response_add_header r n v
  | call_set_body b => http_response_set_body r b
  | call_set_json j => http_response_set_json r j
  | call_set_text t => http_response_set_text r t
  end.

Definition do_calls (r : HTTP_RESPONSE) (cs : list response_call)
  : HTTP_RESPONSE := foldl do_call r cs.

(** The type [http_route_handler_fn] of handlers (request, response, user_data):
    the response the handler leaves behind.  [user_data] is opaque. *)
Definition user_data := nat.
Definition http_route_handler_fn :=
  HTTP_REQUEST -> HTTP_RESPONSE -> user_data -> HTTP_RESPONSE.

End Http.

(* --------------------------------------------------------------------- *)
(** ** Routes (src/http_route.c)                                          *)
(* --------------------------------------------------------------------- *)

Module Route.
Import Http.

Record HTTP_ROUTE := {
  method : HTTP_METHOD;
  path : string;                      (* [char path[512]] *)
  handler : http_route_handler_fn;
  route_user_data : user_data
}.

Definition http_route_create (m : HTTP_METHOD) (p : string)
    (h : http_route_handler_fn) (ud : user_data) : HTTP_ROUTE :=
  {| method := m; path := str_take 511 p; handler := h; route_user_data := ud |}.

(** [end ? (size_t)(end - ptr) : strlen(ptr)] for [end = strchr(ptr, '/')] *)
Definition segment_length (ptr : string) : nat :=
  match strchr ptr "/" with
  | Some n => n
  | None => String.length ptr
  end.

(** [if ptr[0] == '/' then ptr++] *)
Definition skip_slash (ptr : string) : string :=
  match ptr with
  | String c r => if Ascii.eqb c "/" then r else ptr
  | EmptyString => ptr
  end.

(** [ptr += len], then the same skip of one '/' *)
Definition next_segment (ptr : string) (len : nat) : string :=
  skip_slash (str_drop len ptr).

(** The loop of [http_route_matches] and the test behind it.  Every
    round moves [pattern_ptr] forward, so [fuel] above the length of the
    pattern is never used up. *)
Fixpoint match_segments (fuel : nat) (pattern_ptr path_ptr : string) : bool :=
  match fuel with
  | O => false
  | S fuel' =>
      if negb (str_is_empty pattern_ptr) && negb (str_is_empty path_ptr) then
        let pattern_len := segment_length pattern_ptr in
        let path_len := segment_length path_ptr in
        if starts_with ":" pattern_ptr
           || (Nat.eqb pattern_len path_len
               && String.eqb (str_take pattern_len pattern_ptr)
                             (str_take pattern_len path_ptr))
        then match_segments fuel' (next_segment pattern_ptr pattern_len)
                                  (next_segment path_ptr path_len)
        else false
      else str_is_empty pattern_ptr && str_is_empty path_ptr
  end.

Definition http_route_matches (route : HTTP_ROUTE) (m : HTTP_METHOD)
    (p : string) : bool :=
  if negb (bool_decide (method route = m)) then false
  else if String.eqb (path route) p then true
  else if negb (bool_decide (is_Some (strchr (path route) ":"))) then false
  else match_segments (S (String.length (path route)))
         (skip_slash (path route)) (skip_slash p).

(** The loop of [http_route_extract_params]: the same walk, adding the
    pair (name without the colon, at most 127 characters; value, at most
    511 characters) for every parameter segment.  For a parameter segment
    the code overwrites [path_len] with 511 when the path segment has 512
    characters or more, and then moves [path_ptr] on by that shortened
    length: the walk goes on inside the segment. *)
Fixpoint extract_segments (fuel : nat) (pattern_ptr path_ptr : string)
    (request : HTTP_REQUEST) : HTTP_REQUEST :=
  match fuel with
  | O => request
  | S fuel' =>
      if negb (str_is_empty pattern_ptr) && negb (str_is_empty path_ptr) then
        let pattern_len := segment_length pattern_ptr in
        let path_len := segment_length path_ptr in
        let request' :=
          if starts_with ":" pattern_ptr then
            http_request_add_path_param request
              (str_take (Nat.min (pattern_len - 1) 127) (str_drop 1 pattern_ptr))
              (str_take (Nat.min path_len 511) path_ptr)
          else request in
        let path_len' :=
          if starts_with ":" pattern_ptr then Nat.min path_len 511 else path_len in
        extract_segments fuel' (next_segment pattern_ptr pattern_len)
                               (next_segment path_ptr path_len') request'
      else request
  end.

Definition http_route_extract_params (route : HTTP_ROUTE) (p : string)
    (request : HTTP_REQUEST) : HTTP_REQUEST :=
  extract_segments (S (String.length (path route)))
    (skip_slash (path route)) (skip_slash p) request.

(** The segments the walk visits: each is ended by a '/' or by the end of
    the string, and the end of the string right after a '/' starts no
    further segment.  So "users/5/" has the segments "users" and "5",
    "users/" the one segment "users", "a//b" the segments "a", "" and "b",
    and the empty string has none. *)
Fixpoint segments (s : string) : list string :=
  match s with
  | EmptyString => []
  | String c r =>
      if Ascii.eqb c "/" then EmptyString :: segments r
      else match segments r with
           | [] => [String c EmptyString]
           | seg :: segs => String c seg :: segs
           end
  end.

(** The pieces a string falls into at its '/' characters, one more than
    there are '/': the usual division of a path, not a function of the
    repository. *)
Fixpoint split_slash (s : string) : list string :=
  match s with
  | EmptyString => [EmptyString]
  | String c r =>
      if Ascii.eqb c "/" then EmptyString :: split_slash r
      else match split_slash r with
           | piece :: pieces => String c piece :: pieces
           | [] => [String c EmptyString]
           end
  end.

(** The pieces without the last one when that is empty: nothing stands
    behind the last '/', or the string is empty. *)
Fixpoint without_last_empty (pieces : list string) : list string :=
  match pieces with
  | [] => []
  | piece :: rest =>
      match rest with
      | [] => if str_is_empty piece then [] else [piece]
      | _ :: _ => piece :: without_last_empty rest
      end
  end.

(** A pattern segment against a path segment, as the code has it. *)
Definition segment_ok (pattern_seg path_seg : string) : bool :=
  starts_with ":" pattern_seg || String.eqb pattern_seg path_seg.

(** The same in the words of the specification: a parameter takes a
    non-empty segment only. *)
Definition spec_segment_ok (pattern_seg path_seg : string) : bool :=
  if starts_with ":" pattern_seg then negb (str_is_empty path_seg)
  else String.eqb pattern_seg path_seg.

Fixpoint all2 {A B} (f : A -> B -> bool) (xs : list A) (ys : list B) : bool :=
  match xs, ys with
  | [], [] => true
  | x :: xs', y :: ys' => f x y && all2 f xs' ys'
  | _, _ => false
  end.

(** Matching in the words of the specification: strip one leading '/'
    from both, compare the segments pairwise, run out together. *)
Definition spec_route_matches (route : HTTP_ROUTE) (m : HTTP_METHOD)
    (p : string) : bool :=
  bool_decide (method route = m)
  && all2 spec_segment_ok (segments (skip_slash (path route)))
                          (segments (skip_slash p)).

(** A request for [p], nothing parsed but method and path. *)
Definition bare_request (m : HTTP_METHOD) (p : string) : HTTP_REQUEST :=
  {| req_method := m; req_path := p; query_string := ""; http_version := "HTTP/1.1";
     req_headers := []; req_body := ""; path_params := []; query_params := [] |}.

(** A handler that answers with the text [t]. *)
Definition answer (t : string) : http_route_handler_fn :=
  fun _ response _ => http_response_set_text response t.

(** The route [GET /a/:id/b] with a handler that leaves the response as
    it is. *)
Definition route_a_id_b : HTTP_ROUTE :=
  http_route_create HTTP_METHOD_GET "/a/:id/b" (fun _ resp _ => resp) 0.

End Route.

(* --------------------------------------------------------------------- *)
(** ** The HTTP/1.1 codec (src/http_server.c)                             *)
(* --------------------------------------------------------------------- *)

Module Codec.
Import Http.

(** *** [url_decode] *)

(** [isspace] in the C locale. *)
Definition isspace (c : ascii) : bool :=
  let n := nat_of_ascii c in Nat.eqb n 32 || (Nat.leb 9 n && Nat.leb n 13).

(** The value of a hexadecimal digit. *)
Definition hex_digit_value (c : ascii) : option Z :=
  let n := Z.of_nat (nat_of_ascii c) in
  if ((48 <=? n) && (n <=? 57))%Z then Some (n - 48)%Z          (* '0'..'9' *)
  else if ((97 <=? n) && (n <=? 102))%Z then Some (n - 87)%Z    (* 'a'..'f' *)
  else if ((65 <=? n) && (n <=? 70))%Z then Some (n - 55)%Z     (* 'A'..'F' *)
  else None.

Definition is_hex_digit (c : ascii) : bool :=
  bool_decide (is_Some (hex_digit_value c)).

Fixpoint skip_spaces (s : string) : string :=
  match s with
  | String c r => if isspace c then skip_spaces r else s
  | EmptyString => s
  end.

Fixpoint hex_digits (acc : Z) (s : string) : Z :=
  match s with
  | String c r =>
      match hex_digit_value c with
      | Some d => hex_digits (acc * 16 + d)%Z r
      | None => acc
      end
  | EmptyString => acc
  end.

(** [strtol(s, NULL, 16)] for a string short enough not to overflow a
    [long] (the caller passes two characters): leading white space, an
    optional sign, an optional "0x" or "0X" in front of a digit, then the
    longest run of hexadecimal digits; 0 when there is no digit. *)
Definition strtol16 (s : string) : Z :=
  let s1 := skip_spaces s in
  let '(negative, s2) :=
    match s1 with
    | String c r =>
        if Ascii.eqb c "-" then (true, r)
        else if Ascii.eqb c "+" then (false, r)
        else (false, s1)
    | EmptyString => (false, s1)
    end in
  let s3 :=
    match s2 with
    | String z (String x (String h r)) =>
        if Ascii.eqb z "0" && (Ascii.eqb x "x" || Ascii.eqb x "X")
           && is_hex_digit h
        then String h r else s2
    | _ => s2
    end in
  let v := hex_digits 0 s3 in
  if negative then (- v)%Z else v.

(** The conversion [(char)v] of a [long], as the byte stored. *)
Definition char_of_long (v : Z) : ascii :=
  ascii_of_N (Z.to_N (v mod 256)).

(** The loop of [url_decode]; [room] is [dst_size - 1 - j], the result
    the bytes stored in [dst[0..j)]. *)
Fixpoint url_decode_loop (room : nat) (src : string) : string :=
  match room with
  | O => EmptyString
  | S room' =>
      match src with
      | EmptyString => EmptyString
      | String c rest =>
          match rest with
          | String h1 (String h2 rest') =>
              if Ascii.eqb c "%" then
                String (char_of_long (strtol16 (String h1 (String h2 EmptyString))))
                       (url_decode_loop room' rest')
              else if Ascii.eqb c "+" then
                String " " (url_decode_loop room' rest)
              else String c (url_decode_loop room' rest)
          | _ =>
              if Ascii.eqb c "+" then
                String " " (url_decode_loop room' rest)
              else String c (url_decode_loop room' rest)
          end
      end
  end.

(** [url_decode(dst, src, dst_size)]: the bytes in [dst] in front of the
    terminator the function writes. *)
Definition url_decode (src : string) (dst_size : nat) : string :=
  url_decode_loop (dst_size - 1) src.

(** What a reader of the C string in [dst] sees: the bytes in front of
    the first NUL. *)
Fixpoint c_string (bytes : string) : string :=
  match bytes with
  | EmptyString => EmptyString
  | String c r => if Ascii.eqb c zero then EmptyString else String c (c_string r)
  end.

(** *** [build_http_response] *)

(** The digits of [n], least significant first; [fuel] bounds their
    number. *)
Fixpoint digits_rev (fuel : nat) (n : N) : list N :=
  match fuel with
  | O => []
  | S fuel' =>
      (n mod 10)%N ::
      (if (n / 10 =? 0)%N then [] else digits_rev fuel' (n / 10)%N)
  end.

Definition digit_char (d : N) : ascii := ascii_of_N (48 + d).

(** The conversions [%d] and [%zu] of a non-negative number that fits
    64 bits (at most twenty digits). *)
Definition fmt_unsigned (n : N) : string :=
  string_of_list_ascii (digit_char <$> reverse (digits_rev 20 n)).



(** The output buffer: the bytes in [buffer[0..offset)] and the size of
    the allocation. *)
Record out_buffer := {
  written : string;
  capacity : nat
}.

Definition offset (b : out_buffer) : nat := String.length (written b).

(** [len] bytes of memory that was never written, from index [from] of
    the buffer; [heap] is what [malloc] and [realloc] handed out. *)
Fixpoint junk_bytes (heap : nat -> ascii) (from len : nat) : string :=
  match len with
  | O => EmptyString
  | S len' => String (heap from) (junk_bytes heap (S from) len')
  end.

(** [n = snprintf(buffer + offset, capacity - offset, ...); offset += n;]
    where the conversion produces [text].  When [text] and its terminator
    fit, [text] is appended.  When they do not, [snprintf] stores what
    fits and a NUL in the last byte of the allocation and still returns
    the full length, so that [offset] ends beyond the allocation: the
    bytes up to it are whatever the next [realloc] finds there.  The
    offset is below the capacity whenever the function is called on a
    well-formed response ([headers_loop_ok] below), so the
    subtraction is that of [size_t]. *)
Definition snprintf_at (heap : nat -> ascii) (b : out_buffer) (text : string)
  : out_buffer :=
  let room := capacity b - offset b in
  let n := String.length text in
  if n <? room then
    {| written := written b +:+ text; capacity := capacity b |}
  else
    {| written := written b +:+ str_take (room - 1) text
                    +:+ String zero (junk_bytes heap (capacity b) (n - room));
       capacity := capacity b |}.

Definition header_line (h : HTTP_HEADER) : string :=
  name h +:+ ": " +:+ value h +:+ CRLF.

(** One round of the loop over the headers. *)
Definition add_header_line (heap : nat -> ascii) (b : out_buffer)
    (h : HTTP_HEADER) : out_buffer :=
  let b1 := snprintf_at heap b (header_line h) in
  if capacity b1 - 512 <=? offset b1 then
    {| written := written b1; capacity := 2 * capacity b1 |}
  else b1.

Definition status_line (r : HTTP_RESPONSE) : string :=
  "HTTP/1.1 " +:+ fmt_unsigned (status_code (status r)) +:+ " "
  +:+ (if 0 <? String.length (status_message r) then status_message r
       else http_status_to_string (status r))
  +:+ CRLF.

Definition content_length_line (r : HTTP_RESPONSE) : string :=
  "Content-Length: " +:+ fmt_unsigned (N.of_nat (body_length r)) +:+ CRLF.

(** [response->body && response->body_length > 0]; the body pointer of
    a response made by [http_response_create] is never NULL. *)
Definition has_body (r : HTTP_RESPONSE) : bool := 0 <? body_length r.

(** [build_http_response]: the [*response_len] bytes of the buffer
    returned.  The body is copied after the buffer has been grown to hold
    it. *)
Definition build_http_response (heap : nat -> ascii) (r : HTTP_RESPONSE)
  : string :=
  let b0 := snprintf_at heap {| written := ""; capacity := 1024 |} (status_line r) in
  let b1 := foldl (add_header_line heap) b0 (headers r) in
  let b2 := if has_body r then snprintf_at heap b1 (content_length_line r) else b1 in
  let b3 := snprintf_at heap b2 CRLF in
  written b3 +:+ (if has_body r then body r else "").

(** The fields of a response are arrays of 128 and 512 characters, and
    a length is a [size_t]. *)
Definition wf_header (h : HTTP_HEADER) : Prop :=
  String.length (name h) <= 127 /\ String.length (value h) <= 511.

Definition wf_response (r : HTTP_RESPONSE) : Prop :=
  String.length (status_message r) <= 127
  /\ Forall wf_header (headers r)
  /\ (N.of_nat (body_length r) < 2 ^ 64)%N.





(** The headers the calls of a handler add, in order. *)
Definition header_added (c : response_call) : list HTTP_HEADER :=
  match c with
  | call_add_header n v => [store_pair n v]
  | call_set_json _ => [store_pair "Content-Type" "application/json"]
  | call_set_text _ => [store_pair "Content-Type" "text/plain"]
  | call_set_status _ | call_set_body _ => []
  end.

Definition default_headers : list HTTP_HEADER :=
  [ store_pair "Server" "Equinox/1.0 (HTTP/1.1, HTTP/2)";
    store_pair "Connection" "close" ].

(** The name and the value a call passes are stored whole and with
    their terminators in any slot: fewer than 127 and fewer than 511
    characters. *)
Definition call_fits (c : response_call) : Prop :=
  match c with
  | call_add_header n v => String.length n < 127 /\ String.length v < 511
  | call_set_status _ | call_set_body _ | call_set_json _ | call_set_text _ => True
  end.

(** The headers the calls of a handler hand over, in order, as they
    were passed. *)
Definition header_passed (c : response_call) : list HTTP_HEADER :=
  match c with
  | call_add_header n v => [{| name := n; value := v |}]
  | call_set_json _ => [{| name := "Content-Type"; value := "application/json" |}]
  | call_set_text _ => [{| name := "Content-Type"; value := "text/plain" |}]
  | call_set_status _ | call_set_body _ => []
  end.

(** The values a list of headers carries under a name. *)
Definition values_of (n : string) (hs : list HTTP_HEADER) : list string :=
  value <$> filter (fun h => name h = n) hs.

(** "The default unless the handler has set the header, and then the
    handler's value instead": the response carries one value under the
    name, the last one the handler gave if any, the default otherwise. *)
Definition header_as_specified (n default : string)
    (calls : list response_call) (r : HTTP_RESPONSE) : Prop :=
  values_of n (headers r)
  = [ from_option id default
        (list.last (values_of n (concat (header_added <$> calls)))) ].






(** The body a call hands over has a length that fits [size_t]. *)
Definition call_body_fits (c : response_call) : Prop :=
  match c with
  | call_set_body b | call_set_json b | call_set_text b =>
      (N.of_nat (String.length b) < 2 ^ 64)%N
  | call_set_status _ | call_add_header _ _ => True
  end.

(** Memory that reads as zero bytes wherever nothing was written. *)
Definition zero_heap : nat -> ascii := fun _ => zero.




End Codec.

(* --------------------------------------------------------------------- *)
(** ** The server structure (include/http_server.h, src/http_server.c)    *)
(* --------------------------------------------------------------------- *)

Module Server.
Import Http Route.

(** [CONNECTION_STATE]; [buffer_used] is the length of [buffer]. *)
Record CONNECTION_STATE := {
  socket : Z;
  buffer : string;
  is_http2 : bool;
  last_activity : Z
}.

(** [struct _http_server_]; [connection_count] is the length of
    [connection_states], the records in use at the front of the array. *)
Record HTTP_SERVER := {
  running : bool;
  server_socket : Z;
  epoll_fd : Z;
  routes : list HTTP_ROUTE;
  connection_states : list CONNECTION_STATE;
  max_connections : nat;
  static_url_path : string;       (* [char static_url_path[256]] *)
  static_directory : string;      (* [char static_directory[512]] *)
  default_file : string;          (* [char default_file[64]] *)
  static_enabled : bool
}.

Definition connection_count (server : HTTP_SERVER) : nat :=
  length (connection_states server).

Definition http_server_create : HTTP_SERVER :=
  {| running := false; server_socket := -1; epoll_fd := -1;
     routes := []; connection_states := []; max_connections := 1000;
     static_url_path := ""; static_directory := "";
     default_file := "index.html"; static_enabled := false |}.

Definition with_connections (server : HTTP_SERVER)
    (conns : list CONNECTION_STATE) : HTTP_SERVER :=
  {| running := running server; server_socket := server_socket server;
     epoll_fd := epoll_fd server; routes := routes server;
     connection_states := conns; max_connections := max_connections server;
     static_url_path := static_url_path server;
     static_directory := static_directory server;
     default_file := default_file server;
     static_enabled := static_enabled server |}.

Definition http_server_add_route (server : HTTP_SERVER) (m : HTTP_METHOD)
    (p : string) (h : http_route_handler_fn) (ud : user_data) : HTTP_SERVER :=
  {| running := running server; server_socket := server_socket server;
     epoll_fd := epoll_fd server;
     routes := routes server ++ [http_route_create m p h ud];
     connection_states := connection_states server;
     max_connections := max_connections server;
     static_url_path := static_url_path server;
     static_directory := static_directory server;
     default_file := default_file server;
     static_enabled := static_enabled server |}.

(** [http_server_add_static_path], for a directory that [access] finds
    readable. *)
Definition http_server_add_static_path (server : HTTP_SERVER)
    (url_path directory_path : string) : HTTP_SERVER :=
  {| running := running server; server_socket := server_socket server;
     epoll_fd := epoll_fd server; routes := routes server;
     connection_states := connection_states server;
     max_connections := max_connections server;
     static_url_path := str_take 255 url_path;
     static_directory := str_take 511 directory_path;
     default_file := default_file server;
     static_enabled := true |}.

End Server.

(* --------------------------------------------------------------------- *)
(** ** The static file server (src/http_server.c)                         *)
(* --------------------------------------------------------------------- *)

Module Static.
Import Http Server.

(** What the file system answers for a path: no file, or a file with
    the size [ftell] reports at its end and the bytes [fread] delivers. *)
Record file := {
  file_size : Z;
  file_bytes : string
}.

Definition filesystem := string -> option file.

Definition to_lower (c : ascii) : ascii :=
  let n := nat_of_ascii c in
  if Nat.leb 65 n && Nat.leb n 90 then ascii_of_nat (n + 32) else c.

Fixpoint str_lower (s : string) : string :=
  match s with
  | EmptyString => EmptyString
  | String c r => String (to_lower c) (str_lower r)
  end.

(** [strcasecmp(a, b) == 0] *)
Definition strcasecmp_eq (a b : string) : bool :=
  String.eqb (str_lower a) (str_lower b).

(** [strrchr(s, '.') + 1]: what follows the last dot, [None] without a
    dot. *)
Fixpoint after_last_dot (s : string) : option string :=
  match s with
  | EmptyString => None
  | String c r =>
      match after_last_dot r with
      | Some ext => Some ext
      | None => if Ascii.eqb c "." then Some r else None
      end
  end.

Definition http_get_mime_type (filename : string) : string :=
  match after_last_dot filename with
  | None => "application/octet-stream"
  | Some ext =>
      if strcasecmp_eq ext "html" || strcasecmp_eq ext "htm" then "text/html"
      else if strcasecmp_eq ext "css" then "text/css"
      else if strcasecmp_eq ext "js" then "application/javascript"
      else if strcasecmp_eq ext "json" then "application/json"
      else if strcasecmp_eq ext "xml" then "application/xml"
      else if strcasecmp_eq ext "txt" then "text/plain"
      else if strcasecmp_eq ext "png" then "image/png"
      else if strcasecmp_eq ext "jpg" || strcasecmp_eq ext "jpeg" then "image/jpeg"
      else if strcasecmp_eq ext "gif" then "image/gif"
      else if strcasecmp_eq ext "svg" then "image/svg+xml"
      else if strcasecmp_eq ext "ico" then "image/x-icon"
      else if strcasecmp_eq ext "woff" then "font/woff"
      else if strcasecmp_eq ext "woff2" then "font/woff2"
      else if strcasecmp_eq ext "ttf" then "font/ttf"
      else "application/octet-stream"
  end.

(** [s[strlen(s) - 1] == '/'] for a non-empty [s] *)
Fixpoint ends_with_slash (s : string) : bool :=
  match s with
  | EmptyString => false
  | String c EmptyString => Ascii.eqb c "/"
  | String _ r => ends_with_slash r
  end.

(** The path in [char file_path[1024]], when the request gets as far
    as resolving one: static serving is enabled and the URL path starts
    with the registered prefix. *)
Definition resolved_path (server : HTTP_SERVER) (url_path : string)
  : option string :=
  if negb (static_enabled server) then None
  else if negb (String.prefix (static_url_path server) url_path) then None
  else
    let relative_path :=
      Route.skip_slash
        (str_drop (String.length (static_url_path server)) url_path) in
    Some
      (str_take 1023
         (if str_is_empty relative_path || ends_with_slash relative_path then
            static_directory server +:+ "/" +:+ relative_path
            +:+ default_file server
          else static_directory server +:+ "/" +:+ relative_path)).

(** [serve_static_file]: the value returned, the response, and the
    paths passed to [fopen], in order. *)
Definition serve_static_file (fs : filesystem) (server : HTTP_SERVER)
    (url_path : string) (response : HTTP_RESPONSE)
  : Z * HTTP_RESPONSE * list string :=
  match resolved_path server url_path with
  | None => (-1, response, [])
  | Some file_path =>
      if str_contains ".." file_path then
        (0, http_response_set_text
              (http_response_set_status response HTTP_STATUS_FORBIDDEN)
              "403 Forbidden", [])
      else
        match fs file_path with
        | None =>
            (0, http_response_set_text
                  (http_response_set_status response HTTP_STATUS_NOT_FOUND)
                  "404 Not Found", [file_path])
        | Some f =>
            if (file_size f <? 0) || (10 * 1024 * 1024 <? file_size f) then
              (0, http_response_set_text
                    (http_response_set_status response HTTP_STATUS_INTERNAL_ERROR)
                    "File too large", [file_path])
            else if negb (Z.of_nat (String.length
                                      (str_take (Z.to_nat (file_size f))
                                                (file_bytes f)))
                          =? file_size f) then
              (0, http_response_set_status response HTTP_STATUS_INTERNAL_ERROR,
               [file_path])
            else
              (0, http_response_set_body
                    (http_response_add_header
                       (http_response_set_status response HTTP_STATUS_OK)
                       "Content-Type" (http_get_mime_type file_path))
                    (str_take (Z.to_nat (file_size f)) (file_bytes f)),
               [file_path])
        end
  end%Z.

(** "Contains the substring [needle]". *)
Definition has_substring (needle s : string) : Prop :=
  exists front back, s = front +:+ needle +:+ back.

(** The server of scenario S5: "/" mapped to "./public". *)
Definition public_server : HTTP_SERVER :=
  http_server_add_static_path http_server_create "/" "./public".

Definition no_files : filesystem := fun _ => None.

End Static.

(* --------------------------------------------------------------------- *)
(** ** The reactor (src/http_server.c)                                    *)
(* --------------------------------------------------------------------- *)

Module Reactor.
Import Http Route Server.

Definition MAX_REQUEST_SIZE : nat := Z.to_nat 65536.

(** What the reactor does to the outside world. *)
Inductive action :=
| act_close (fd : Z)                        (* [close(fd)] *)
| act_send (fd : Z) (bytes : string)        (* [send] of a response *)
| act_send_frames (fd : Z) (bytes : list Z) (* bytes sent by the HTTP/2 path *)
| act_handler (route_index : nat)           (* a route handler is called *)
| act_fopen (file_path : string).           (* [fopen(file_path, "rb")] *)

(** [find_connection]: the first record with the socket. *)
Fixpoint find_connection_from (conns : list CONNECTION_STATE) (i : nat)
    (socket_fd : Z) : option (nat * CONNECTION_STATE) :=
  match conns with
  | [] => None
  | c :: rest =>
      if (socket c =? socket_fd)%Z then Some (i, c)
      else find_connection_from rest (S i) socket_fd
  end.

Definition find_connection (server : HTTP_SERVER) (socket_fd : Z)
  : option (nat * CONNECTION_STATE) :=
  find_connection_from (connection_states server) 0 socket_fd.

(** [add_connection]: [None] for the NULL returned when the table is
    full; otherwise the record is stored in slot [connection_count]. *)
Definition add_connection (server : HTTP_SERVER) (socket_fd now : Z)
  : option HTTP_SERVER :=
  if max_connections server <=? connection_count server then None
  else
    Some (with_connections server
            (connection_states server ++
             [{| socket := socket_fd; buffer := ""; is_http2 := false;
                 last_activity := now |}])).

(** [remove_connection]: close the socket of the first record that has
    it, move the last record into its slot, drop the last slot. *)
Definition remove_connection (server : HTTP_SERVER) (socket_fd : Z)
  : HTTP_SERVER * list action :=
  match find_connection server socket_fd with
  | None => (server, [])
  | Some (i, _) =>
      let conns := connection_states server in
      let count := connection_count server in
      let moved :=
        if i <? count - 1 then
          match conns !! (count - 1) with
          | Some last_conn => <[i := last_conn]> conns
          | None => conns
          end
        else conns in
      (with_connections server (take (count - 1) moved), [act_close socket_fd])
  end.

(** [http_server_stop] *)
Definition http_server_stop (server : HTTP_SERVER) : HTTP_SERVER * list action :=
  if negb (running server) then (server, [])
  else
    ({| running := false; server_socket := -1; epoll_fd := -1;
        routes := routes server; connection_states := [];
        max_connections := max_connections server;
        static_url_path := static_url_path server;
        static_directory := static_directory server;
        default_file := default_file server;
        static_enabled := static_enabled server |},
     (act_close <$> (socket <$> connection_states server))
     ++ (if (0 <=? epoll_fd server)%Z then [act_close (epoll_fd server)] else [])
     ++ (if (0 <=? server_socket server)%Z then [act_close (server_socket server)] else [])).

(** How [http_server_start] can end. *)
Inductive start_outcome :=
| start_no_socket                      (* [socket] failed *)
| start_failed (fd : Z)                (* a later step failed, before epoll_ctl *)
| start_no_epoll_ctl (fd epfd : Z)     (* [epoll_ctl] failed *)
| start_ok (fd epfd : Z).

Definition set_sockets (server : HTTP_SERVER) (is_running : bool)
    (fd epfd : Z) : HTTP_SERVER :=
  {| running := is_running; server_socket := fd; epoll_fd := epfd;
     routes := routes server; connection_states := connection_states server;
     max_connections := max_connections server;
     static_url_path := static_url_path server;
     static_directory := static_directory server;
     default_file := default_file server;
     static_enabled := static_enabled server |}.

(** [http_server_start]: the value returned (0 is FRAMEWORK_SUCCESS) and
    the server. *)
Definition http_server_start (server : HTTP_SERVER) (o : start_outcome)
  : Z * HTTP_SERVER * list action :=
  if running server then (-6, server, [])%Z
  else
    match o with
    | start_no_socket =>
        (-2, set_sockets server false (-1) (epoll_fd server), [])%Z
    | start_failed fd =>
        (-2, set_sockets server false fd (epoll_fd server), [act_close fd])%Z
    | start_no_epoll_ctl fd epfd =>
        (-2, set_sockets server false fd epfd, [act_close epfd; act_close fd])%Z
    | start_ok fd epfd => (0, set_sockets server true fd epfd, [])%Z
    end.

Section Serving.

(** The surroundings of a request: the file system, the memory the
    response buffer is allocated in, and [parse_http_request], which maps
    the bytes of the buffer to a request or fails. *)
Variable fs : Static.filesystem.
Variable heap : nat -> ascii.
Variable parse_http_request : string -> option HTTP_REQUEST.

(** The loop over [server->routes] in [process_http_request]: the first
    route, from index [i] on, that [http_route_matches] accepts. *)
Fixpoint find_route (rs : list HTTP_ROUTE) (i : nat) (m : HTTP_METHOD)
    (p : string) : option (nat * HTTP_ROUTE) :=
  match rs with
  | [] => None
  | r :: rest =>
      if http_route_matches r m p then Some (i, r)
      else find_route rest (S i) m p
  end.

(** The middle of [process_http_request]: the handler of the matched
    route, or the static file server, or 404. *)
Definition dispatch (server : HTTP_SERVER) (request : HTTP_REQUEST)
    (response : HTTP_RESPONSE) : HTTP_RESPONSE * list action :=
  match find_route (routes server) 0 (req_method request) (req_path request) with
  | Some (i, matched_route) =>
      let request' :=
        http_route_extract_params matched_route (req_path request) request in
      (handler matched_route request' response (route_user_data matched_route),
       [act_handler i])
  | None =>
      let '(ret, response', opened) :=
        Static.serve_static_file fs server (req_path request) response in
      (if (ret <? 0)%Z then
         http_response_set_text
           (http_response_set_status response HTTP_STATUS_NOT_FOUND)
           "404 Not Found"
       else response',
       act_fopen <$> opened)
  end.

(** [process_http_request] for the record [conn] of the table. *)
Definition process_http_request (server : HTTP_SERVER) (conn : CONNECTION_STATE)
  : HTTP_SERVER * list action :=
  if String.length (buffer conn) <? 4 then (server, [])
  else if negb (str_contains (CRLF +:+ CRLF) (Codec.c_string (buffer conn))) then
    if MAX_REQUEST_SIZE - 1 <=? String.length (buffer conn)
    then remove_connection server (socket conn)
    else (server, [])
  else
    match parse_http_request (buffer conn) with
    | None => remove_connection server (socket conn)
    | Some request =>
        let '(response, acts) := dispatch server request http_response_create in
        let '(server', closing) := remove_connection server (socket conn) in
        (server',
         acts ++ [act_send (socket conn) (Codec.build_http_response heap response)]
              ++ closing)
    end.

(** What [recv] on a client socket returns. *)
Inductive recv_result :=
| recv_error (would_block : bool)      (* -1, with or without EAGAIN *)
| recv_bytes (bytes : string).         (* the bytes read; none at end of stream *)

Definition set_connection (server : HTTP_SERVER) (i : nat)
    (conn : CONNECTION_STATE) : HTTP_SERVER :=
  with_connections server (<[i := conn]> (connection_states server)).

(** [handle_client_data]; [queued] is what is still in the receive
    queue of the socket after the [recv]. *)
Definition handle_client_data (server : HTTP_SERVER) (client_socket : Z)
    (r : recv_result) (queued : list Z) (now : Z)
  : HTTP_SERVER * list action :=
  match find_connection server client_socket with
  | None => (server, [])
  | Some (i, conn) =>
      match r with
      | recv_error true => (server, [])
      | recv_error false => remove_connection server client_socket
      | recv_bytes bytes =>
          let got :=
            str_take (MAX_REQUEST_SIZE - String.length (buffer conn) - 1) bytes in
          if String.length got =? 0 then remove_connection server client_socket
          else
            let conn1 :=
              {| socket := socket conn; buffer := buffer conn +:+ got;
                 is_http2 := is_http2 conn; last_activity := now |} in
            if (Http2.HTTP2_PREFACE_LEN <=? String.length (buffer conn1))
               && negb (is_http2 conn1)
               && String.eqb (str_take Http2.HTTP2_PREFACE_LEN (buffer conn1))
                             Http2.HTTP2_PREFACE
            then
              let conn2 :=
                {| socket := socket conn1; buffer := buffer conn1;
                   is_http2 := true; last_activity := now |} in
              let h2 :=
                Http2.http2_handle_connection
                  (Http2.http2_connection_create
                     {| Http2.sock_in := queued; Http2.sock_out := [];
                        Http2.sock_plan := [] |}) in
              let '(server', closing) :=
                remove_connection (set_connection server i conn2) client_socket in
              (server',
               [act_send_frames client_socket
                  (Http2.sock_out (Http2.socket_ h2.2))] ++ closing)
            else if negb (is_http2 conn1) then
              process_http_request (set_connection server i conn1) conn1
            else (set_connection server i conn1, [])
      end
  end.

(** One connection [accept] returns, with the results of making the
    socket non-blocking and of registering it with epoll. *)
Record accepted := {
  client_socket : Z;
  nonblocking_ok : bool;
  epoll_ok : bool
}.

(** One round of the loop of [accept_new_connection]. *)
Definition accept_one (now : Z) (server : HTTP_SERVER) (a : accepted)
  : HTTP_SERVER * list action :=
  if negb (nonblocking_ok a) then (server, [act_close (client_socket a)])
  else
    match add_connection server (client_socket a) now with
    | None => (server, [act_close (client_socket a)])
    | Some server' =>
        if negb (epoll_ok a) then remove_connection server' (client_socket a)
        else (server', [])
    end.

(** [accept_new_connection]: the connections [accept] returns before
    it reports that there is none left. *)
Fixpoint accept_new_connection (server : HTTP_SERVER) (pending : list accepted)
    (now : Z) : HTTP_SERVER * list action :=
  match pending with
  | [] => (server, [])
  | a :: rest =>
      let '(server1, acts1) := accept_one now server a in
      let '(server2, acts2) := accept_new_connection server1 rest now in
      (server2, acts1 ++ acts2)
  end.

(** One event reported by [epoll_wait]. *)
Inductive ready_event :=
| ready_listen (pending : list accepted)
| ready_hangup (fd : Z)
| ready_readable (fd : Z) (r : recv_result) (queued : list Z)
| ready_other (fd : Z).

Definition handle_event (now : Z) (server : HTTP_SERVER) (e : ready_event)
  : HTTP_SERVER * list action :=
  match e with
  | ready_listen pending => accept_new_connection server pending now
  | ready_hangup fd => remove_connection server fd
  | ready_readable fd r queued => handle_client_data server fd r queued now
  | ready_other _ => (server, [])
  end.

Fixpoint handle_events (now : Z) (server : HTTP_SERVER) (es : list ready_event)
  : HTTP_SERVER * list action :=
  match es with
  | [] => (server, [])
  | e :: rest =>
      let '(server1, acts1) := handle_event now server e in
      let '(server2, acts2) := handle_events now server1 rest in
      (server2, acts1 ++ acts2)
  end.

(** The sweep of idle connections at the end of a round; every step
    removes a record or moves to the next, so [connection_count] steps are
    enough. *)
Fixpoint idle_sweep (fuel i : nat) (now : Z) (server : HTTP_SERVER)
  : HTTP_SERVER * list action :=
  match fuel with
  | O => (server, [])
  | S fuel' =>
      match connection_states server !! i with
      | None => (server, [])
      | Some conn =>
          if (60 <? now - last_activity conn)%Z then
            let '(server1, acts1) := remove_connection server (socket conn) in
            let '(server2, acts2) := idle_sweep fuel' i now server1 in
            (server2, acts1 ++ acts2)
          else idle_sweep fuel' (S i) now server
      end
  end.

(** One round of the loop of [http_server_run]. *)
Definition run_iteration (server : HTTP_SERVER) (es : list ready_event)
    (now : Z) : HTTP_SERVER * list action :=
  if negb (running server) then (server, [])
  else
    let '(server1, acts1) := handle_events now server es in
    let '(server2, acts2) := idle_sweep (connection_count server1) 0 now server1 in
    (server2, acts1 ++ acts2).

(** What can happen to a server: registrations, start, rounds of the
    event loop, stop.  A stop requested by the signal handler can fall
    between two events of a round, so the parts of a round are steps of
    their own as well. *)
Inductive reactor_op :=
| op_add_route (m : HTTP_METHOD) (p : string) (h : http_route_handler_fn)
    (ud : user_data)
| op_add_static (url_path directory_path : string)
| op_start (o : start_outcome)
| op_iteration (es : list ready_event) (now : Z)
| op_event (e : ready_event) (now : Z)
| op_sweep (now : Z)
| op_stop.

Definition reactor_step (server : HTTP_SERVER) (op : reactor_op) : HTTP_SERVER :=
  match op with
  | op_add_route m p h ud => http_server_add_route server m p h ud
  | op_add_static u d => http_server_add_static_path server u d
  | op_start o => (http_server_start server o).1.2
  | op_iteration es now => (run_iteration server es now).1
  | op_event e now => (handle_event now server e).1
  | op_sweep now => (idle_sweep (connection_count server) 0 now server).1
  | op_stop => (http_server_stop server).1
  end.

(** The states of the server a run can pass through. *)
Definition reachable (server : HTTP_SERVER) : Prop :=
  exists ops, server = foldl reactor_step http_server_create ops.

End Serving.

(** [s'] has the limit of [s] and no more connections than [s]. *)
Definition no_growth (s s' : HTTP_SERVER) : Prop :=
  max_connections s' = max_connections s
  /\ connection_count s' <= connection_count s.

(** The bound and the limit the server was created with. *)
Definition within_bound (s : HTTP_SERVER) : Prop :=
  connection_count s <= max_connections s /\ max_connections s = 1000.

(** Two routes that both take [GET /users/me]. *)
Definition two_routes : HTTP_SERVER :=
  http_server_add_route
    (http_server_add_route http_server_create
       HTTP_METHOD_GET "/users/:id" (Route.answer "by id") 0)
    HTTP_METHOD_GET "/users/me" (Route.answer "me") 0.

(** A started server with [n] connections, the sockets 10, 11, ... *)
Definition busy_server (n : nat) : HTTP_SERVER :=
  foldl (reactor_step Static.no_files Codec.zero_heap (fun _ => None))
    http_server_create
    [ op_start (start_ok 3 4);
      op_event
        (ready_listen
           ((fun k => {| client_socket := 10 + Z.of_nat k;
                         nonblocking_ok := true; epoll_ok := true |})
            <$> seq 0 n)) 0 ].

(** The empty SETTINGS frame a client sends after the preface. *)
Definition client_settings : list Z := [0; 0; 0; 4; 0; 0; 0; 0; 0]%Z.

End Reactor.

(* --------------------------------------------------------------------- *)
(** ** The supervisor (src/application.c, src/kafka_client.c)             *)
(* --------------------------------------------------------------------- *)

Module Supervisor.
Local Open Scope Z_scope.

Definition FRAMEWORK_SUCCESS : Z := 0.
Definition FRAMEWORK_ERROR_INVALID : Z := -2.
Definition FRAMEWORK_ERROR_STATE : Z := -6.

(** The calls [application_run] and the signal handler make on the two
    subsystems, by the name of the function called. *)
Inductive call :=
| http_server_start
| kafka_client_start
| http_server_run
| sleep_loop                  (* [while (app->running) sleep(1);] *)
| signal_http_server_stop     (* [http_server_stop] in [application_signal_handler] *)
| kafka_client_stop
| http_server_stop.

#[global] Instance call_eq_dec : EqDecision call.
Proof. solve_decision. Defined.

(** The application as [application_run] sees it: for each subsystem,
    whether one is bound and, if so, whether it is already running. *)
Record APPLICATION := {
  http_server : option bool;
  kafka_client : option bool
}.

(** How the loop [application_run] waits in comes to its end, if it
    does: SIGINT or SIGTERM runs the signal handler, which clears the
    running flags (and stops a bound server); [epoll_wait] can fail, which
    makes [http_server_run] return; or neither happens. *)
Inductive loop_end := by_signal | by_epoll_failure | never.

(** What the surroundings decide during a run: whether the sockets of
    the server can be set up, whether the consumer threads can be created,
    and how the loop ends. *)
Record surroundings := {
  sockets_ok : bool;
  threads_ok : bool;
  ending : loop_end
}.

(** The value [http_server_start] returns for a server with the given
    running flag. *)
Definition http_server_start_result (is_running : bool) (env : surroundings) : Z :=
  if is_running then FRAMEWORK_ERROR_STATE
  else if sockets_ok env then FRAMEWORK_SUCCESS else FRAMEWORK_ERROR_INVALID.

(** The value [kafka_client_start] returns. *)
Definition kafka_client_start_result (is_running : bool) (env : surroundings) : Z :=
  if is_running then FRAMEWORK_ERROR_STATE
  else if threads_ok env then FRAMEWORK_SUCCESS else FRAMEWORK_ERROR_INVALID.

(** [if (app->x) { if (start(app->x) != FRAMEWORK_SUCCESS) ... }] *)
Definition start_fails (subsystem : option bool)
    (result : bool -> surroundings -> Z) (env : surroundings) : bool :=
  match subsystem with
  | Some is_running => negb (result is_running env =? FRAMEWORK_SUCCESS)
  | None => false
  end.

(** [if (app->x) { calls }] *)
Definition when_bound (subsystem : option bool) (calls : list call) : list call :=
  match subsystem with
  | Some _ => calls
  | None => []
  end.

(** [application_run]: the value returned ([None] when the function
    does not return) and the calls made, in order. *)
Definition application_run (app : APPLICATION) (env : surroundings)
  : option Z * list call :=
  let http := http_server app in
  let kafka := kafka_client app in
  match http, kafka with
  | None, None => (Some FRAMEWORK_ERROR_INVALID, [])
  | _, _ =>
      (* Start HTTP server if configured *)
      if start_fails http http_server_start_result env then
        (Some FRAMEWORK_ERROR_STATE, when_bound http [http_server_start])
      (* Start Kafka client if configured *)
      else if start_fails kafka kafka_client_start_result env then
        (Some FRAMEWORK_ERROR_STATE,
         when_bound http [http_server_start]
         ++ when_bound kafka [kafka_client_start]
         ++ when_bound http [http_server_stop])
      else
        let started :=
          when_bound http [http_server_start]
          ++ when_bound kafka [kafka_client_start] in
        (* Cleanup *)
        let cleanup :=
          when_bound kafka [kafka_client_stop]
          ++ when_bound http [http_server_stop] in
        match http with
        | Some _ =>
            (* HTTP only, or both: the event loop of the server *)
            match ending env with
            | by_signal =>
                (Some FRAMEWORK_SUCCESS,
                 started ++ [http_server_run; signal_http_server_stop] ++ cleanup)
            | by_epoll_failure =>
                (Some FRAMEWORK_SUCCESS, started ++ [http_server_run] ++ cleanup)
            | never => (None, started ++ [http_server_run])
            end
        | None =>
            (* Kafka only: sleep until the signal handler clears the flag *)
            match ending env with
            | by_signal =>
                (Some FRAMEWORK_SUCCESS, started ++ [sleep_loop] ++ cleanup)
            | _ => (None, started ++ [sleep_loop])
            end
        end
  end.

(** The position of the first call of [c]. *)
Fixpoint first_call (c : call) (calls : list call) : option nat :=
  match calls with
  | [] => None
  | c' :: rest => if decide (c' = c) then Some 0%nat else S <$> first_call c rest
  end.

(** [a] is called, and before any call of [b]. *)
Definition called_before (a b : call) (calls : list call) : Prop :=
  match first_call a calls, first_call b calls with
  | Some i, Some j => (i < j)%nat
  | Some _, None => True
  | None, _ => False
  end.

(** Either way a server is stopped: by the signal handler or by the
    cleanup of [application_run]. *)
Definition http_stopped_before_kafka (calls : list call) : Prop :=
  called_before signal_http_server_stop kafka_client_stop calls
  \/ called_before http_server_stop kafka_client_stop calls.

(** "Start order is Kafka-then-HTTP; stop order is HTTP-then-Kafka." *)
Definition order_as_specified (calls : list call) : Prop :=
  called_before kafka_client_start http_server_start calls
  /\ http_stopped_before_kafka calls.

(** A server and a Kafka client, both bound and neither running yet. *)
Definition both_bound : APPLICATION :=
  {| http_server := Some false; kafka_client := Some false |}.

Definition all_well (e : loop_end) : surroundings :=
  {| sockets_ok := true; threads_ok := true; ending := e |}.

End Supervisor.

(* --------------------------------------------------------------------- *)
(** ** Literal header coding (src/http2.c)                                *)
(* --------------------------------------------------------------------- *)

Module Hpack.
Local Open Scope Z_scope.

Definition ascii_of_byte (b : Z) : ascii := ascii_of_nat (Z.to_nat b).

(** [strndup((char* )bytes, n)] for the [n] bytes given: the characters
    in front of the first NUL among them. *)
Fixpoint strndup (bytes : list Z) : string :=
  match bytes with
  | [] => EmptyString
  | b :: rest =>
      if b =? 0 then EmptyString else String (ascii_of_byte b) (strndup rest)
  end.

(** [(uint8_t)strlen(s)] *)
Definition length_byte (s : string) : Z := Z.of_nat (String.length s) mod 256.

(** [http2_encode_headers]: for every pair the byte 0x00, the length of
    the name in one byte, the name, the length of the value in one byte,
    the value.  The result is [output[0..*output_len)]. *)
Fixpoint http2_encode_headers (headers : list (string * string)) : list Z :=
  match headers with
  | [] => []
  | (n, v) :: rest =>
      [0; length_byte n] ++ bytes_of_string n
      ++ [length_byte v] ++ bytes_of_string v
      ++ http2_encode_headers rest
  end.

(** The loop of [http2_decode_headers] on [input + offset]: every round
    takes at least the representation byte, so as many rounds as there
    are bytes are enough. *)
Fixpoint decode_loop (fuel : nat) (input : list Z) : list (string * string) :=
  match fuel with
  | O => []
  | S fuel' =>
      match input with
      | [] => []                          (* [offset < input_len] fails *)
      | _ :: [] => []                     (* nothing behind the first byte *)
      | _ :: name_len :: after_len =>
          if (length after_len <? Z.to_nat name_len)%nat then []
          else
            let name := strndup (take (Z.to_nat name_len) after_len) in
            match drop (Z.to_nat name_len) after_len with
            | [] => []                    (* nothing behind the name *)
            | value_len :: after_vlen =>
                if (length after_vlen <? Z.to_nat value_len)%nat then []
                else
                  (name, strndup (take (Z.to_nat value_len) after_vlen))
                  :: decode_loop fuel' (drop (Z.to_nat value_len) after_vlen)
            end
      end
  end.

(** [http2_decode_headers]: the [*count] pairs stored; the function
    always returns 0. *)
Definition http2_decode_headers (input : list Z) : list (string * string) :=
  decode_loop (length input) input.

(** The bytes one pair is encoded in. *)
Definition header_block (n v : string) : list Z :=
  [0; length_byte n] ++ bytes_of_string n ++ [length_byte v] ++ bytes_of_string v.

(** A C string: no NUL among its characters. *)
Definition is_c_string (s : string) : Prop := strchr s zero = None.

(** Name and value have lengths that fit the one byte written for them. *)
Definition short_header (h : string * string) : Prop :=
  (String.length h.1 < 256)%nat /\ (String.length h.2 < 256)%nat
  /\ is_c_string h.1 /\ is_c_string h.2.

End Hpack.

(* --------------------------------------------------------------------- *)
(** ** HTTP/2 control frames (src/http2.c)                                *)
(* --------------------------------------------------------------------- *)

Module Http2_control.
Import Http2.
Local Open Scope Z_scope.

Inductive HTTP2_ERROR_CODE :=
| HTTP2_NO_ERROR | HTTP2_PROTOCOL_ERROR | HTTP2_INTERNAL_ERROR
| HTTP2_FLOW_CONTROL_ERROR | HTTP2_SETTINGS_TIMEOUT | HTTP2_STREAM_CLOSED_ERROR
| HTTP2_FRAME_SIZE_ERROR | HTTP2_REFUSED_STREAM | HTTP2_CANCEL
| HTTP2_COMPRESSION_ERROR | HTTP2_CONNECT_ERROR | HTTP2_ENHANCE_YOUR_CALM
| HTTP2_INADEQUATE_SECURITY | HTTP2_HTTP_1_1_REQUIRED.

Definition error_code (e : HTTP2_ERROR_CODE) : Z :=
  match e with
  | HTTP2_NO_ERROR => 0 | HTTP2_PROTOCOL_ERROR => 1 | HTTP2_INTERNAL_ERROR => 2
  | HTTP2_FLOW_CONTROL_ERROR => 3 | HTTP2_SETTINGS_TIMEOUT => 4
  | HTTP2_STREAM_CLOSED_ERROR => 5 | HTTP2_FRAME_SIZE_ERROR => 6
  | HTTP2_REFUSED_STREAM => 7 | HTTP2_CANCEL => 8
  | HTTP2_COMPRESSION_ERROR => 9 | HTTP2_CONNECT_ERROR => 10
  | HTTP2_ENHANCE_YOUR_CALM => 11 | HTTP2_INADEQUATE_SECURITY => 12
  | HTTP2_HTTP_1_1_REQUIRED => 13
  end.

(** [http2_send_goaway]: [uint8_t payload[8]], last stream identifier
    with the top bit masked off, then the error code. *)
Definition http2_send_goaway (conn : HTTP2_CONNECTION) (error : HTTP2_ERROR_CODE)
  : Z * HTTP2_CONNECTION :=
  let payload :=
    [ Z.land (Z.shiftr (last_stream_id conn) 24) 127;
      Z.land (Z.shiftr (last_stream_id conn) 16) 255;
      Z.land (Z.shiftr (last_stream_id conn) 8) 255;
      Z.land (last_stream_id conn) 255;
      Z.land (Z.shiftr (error_code error) 24) 255;
      Z.land (Z.shiftr (error_code error) 16) 255;
      Z.land (Z.shiftr (error_code error) 8) 255;
      Z.land (error_code error) 255 ] in
  http2_send_frame conn HTTP2_FRAME_GOAWAY HTTP2_FLAG_NONE 0 (Some payload) 8.

(** [http2_send_window_update]: [uint8_t payload[4]], the increment with
    the top bit masked off. *)
Definition http2_send_window_update (conn : HTTP2_CONNECTION)
    (stream_id increment : Z) : Z * HTTP2_CONNECTION :=
  let payload :=
    [ Z.land (Z.shiftr increment 24) 127;
      Z.land (Z.shiftr increment 16) 255;
      Z.land (Z.shiftr increment 8) 255;
      Z.land increment 255 ] in
  http2_send_frame conn HTTP2_FRAME_WINDOW_UPDATE HTTP2_FLAG_NONE stream_id
    (Some payload) 4.

(** The number four bytes denote, most significant byte first. *)
Definition be32_value (bytes : list Z) : Z :=
  match bytes with
  | [b0; b1; b2; b3] => b0 * 2 ^ 24 + b1 * 2 ^ 16 + b2 * 2 ^ 8 + b3
  | _ => -1
  end.

(** The socket of a connection under test: nothing queued, nothing sent,
    sends behaving as [plan] says. *)
Definition fresh_connection (plan : list Z) : HTTP2_CONNECTION :=
  http2_connection_create {| sock_in := []; sock_out := []; sock_plan := plan |}.

End Http2_control.

(* --------------------------------------------------------------------- *)
(** ** Requests: lookup, query strings, parsing (src/http_server.c)       *)
(* --------------------------------------------------------------------- *)

Module Request.
Import Http.

Definition http_method_to_string (m : HTTP_METHOD) : string :=
  match m with
  | HTTP_METHOD_GET => "GET" | HTTP_METHOD_POST => "POST"
  | HTTP_METHOD_PUT => "PUT" | HTTP_METHOD_DELETE => "DELETE"
  | HTTP_METHOD_PATCH => "PATCH" | HTTP_METHOD_HEAD => "HEAD"
  | HTTP_METHOD_OPTIONS => "OPTIONS" | HTTP_METHOD_UNKNOWN => "UNKNOWN"
  end.

Definition http_method_from_string (s : string) : HTTP_METHOD :=
  if String.eqb s "GET" then HTTP_METHOD_GET
  else if String.eqb s "POST" then HTTP_METHOD_POST
  else if String.eqb s "PUT" then HTTP_METHOD_PUT
  else if String.eqb s "DELETE" then HTTP_METHOD_DELETE
  else if String.eqb s "PATCH" then HTTP_METHOD_PATCH
  else if String.eqb s "HEAD" then HTTP_METHOD_HEAD
  else if String.eqb s "OPTIONS" then HTTP_METHOD_OPTIONS
  else HTTP_METHOD_UNKNOWN.

(** [http_request_create] *)
Definition http_request_create : HTTP_REQUEST :=
  {| req_method := HTTP_METHOD_UNKNOWN; req_path := ""; query_string := "";
     http_version := ""; req_headers := []; req_body := "";
     path_params := []; query_params := [] |}.

Definition http_request_add_header (req : HTTP_REQUEST) (n v : string)
  : HTTP_REQUEST :=
  {| req_method := req_method req; req_path := req_path req;
     query_string := query_string req; http_version := http_version req;
     req_headers := req_headers req ++ [store_pair n v];
     req_body := req_body req;
     path_params := path_params req; query_params := query_params req |}.

Definition http_request_add_query_param (req : HTTP_REQUEST) (n v : string)
  : HTTP_REQUEST :=
  {| req_method := req_method req; req_path := req_path req;
     query_string := query_string req; http_version := http_version req;
     req_headers := req_headers req; req_body := req_body req;
     path_params := path_params req;
     query_params := query_params req ++ [store_pair n v] |}.

(** The loops of the three lookup functions: the value of the first
    entry whose name compares equal, [None] for NULL. *)
Fixpoint first_value (same : string -> string -> bool)
    (entries : list HTTP_HEADER) (n : string) : option string :=
  match entries with
  | [] => None
  | e :: rest => if same (name e) n then Some (value e) else first_value same rest n
  end.

(** [http_request_get_header]: names compare with [strcasecmp]. *)
Definition http_request_get_header (req : HTTP_REQUEST) (n : string)
  : option string :=
  first_value Static.strcasecmp_eq (req_headers req) n.

(** [http_request_get_path_param], [http_request_get_query_param]:
    names compare with [strcmp]. *)
Definition http_request_get_path_param (req : HTTP_REQUEST) (n : string)
  : option string :=
  first_value String.eqb (path_params req) n.

Definition http_request_get_query_param (req : HTTP_REQUEST) (n : string)
  : option string :=
  first_value String.eqb (query_params req) n.

(** The string starts with a character that is no delimiter. *)
Definition starts_token (is_delim : ascii -> bool) (s : string) : bool :=
  match s with
  | String c _ => negb (is_delim c)
  | EmptyString => false
  end.

(** The tokens [strtok] and [strtok_r] return one after the other: the
    maximal runs of characters that are no delimiters. *)
Fixpoint strtok_all (is_delim : ascii -> bool) (s : string) : list string :=
  match s with
  | EmptyString => []
  | String c r =>
      if is_delim c then strtok_all is_delim r
      else if starts_token is_delim r then
             match strtok_all is_delim r with
             | t :: ts => String c t :: ts
             | [] => [String c EmptyString]
             end
           else String c EmptyString :: strtok_all is_delim r
  end.

(** The characters of [s] in front of offset [n], and those behind it:
    what is left and right of a character overwritten with NUL. *)
Definition left_of (n : nat) (s : string) : string := str_take n s.
Definition right_of (n : nat) (s : string) : string := str_drop (S n) s.

(** The loop of [parse_query_string] over the pairs [strtok_r] returns:
    a pair without '=' is skipped; key and value are decoded into buffers
    of 128 and 512 bytes and handed on as C strings. *)
Fixpoint add_pairs (request : HTTP_REQUEST) (pairs : list string) : HTTP_REQUEST :=
  match pairs with
  | [] => request
  | token :: rest =>
      match strchr token "=" with
      | Some i =>
          add_pairs
            (http_request_add_query_param request
               (Codec.c_string (Codec.url_decode (left_of i token) 128))
               (Codec.c_string (Codec.url_decode (right_of i token) 512)))
            rest
      | None => add_pairs request rest
      end
  end.

(** [parse_query_string]; [char query_copy[2048]]. *)
Definition parse_query_string (request : HTTP_REQUEST) : HTTP_REQUEST :=
  if String.length (query_string request) =? 0 then request
  else
    add_pairs request
      (strtok_all (fun c => Ascii.eqb c "&") (str_take 2047 (query_string request))).

(** One conversion [%Ns] of [sscanf]: white space is skipped, then at
    most [width] characters are taken, up to the next white space; the
    conversion fails when the input ends first.  The result is the word
    and the rest of the input. *)
Fixpoint scan_word (width : nat) (s : string) : string * string :=
  match width, s with
  | S width', String c r =>
      if Codec.isspace c then (EmptyString, s)
      else let '(w, rest) := scan_word width' r in (String c w, rest)
  | _, _ => (EmptyString, s)
  end.

Definition scan_s (width : nat) (s : string) : option (string * string) :=
  match Codec.skip_spaces s with
  | EmptyString => None
  | s1 => Some (scan_word width s1)
  end.

(** [sscanf(line, "%15s %511s %15s", ...) == 3] and the three words. *)
Definition scan_request_line (line : string) : option (string * string * string) :=
  match scan_s 15 line with
  | None => None
  | Some (method_str, rest1) =>
      match scan_s 511 rest1 with
      | None => None
      | Some (path, rest2) =>
          match scan_s 15 rest2 with
          | None => None
          | Some (version, _) => Some (method_str, path, version)
          end
      end
  end.

(** [while ( *value == ' ') value++;] *)
Fixpoint skip_blanks (s : string) : string :=
  match s with
  | String c r => if Ascii.eqb c " " then skip_blanks r else s
  | EmptyString => s
  end.

(** The loop over the header lines: every line [strtok] returns after
    the request line; a line with a colon is added as a header.  [strtok]
    returns no empty line, so the test for one never ends the loop. *)
Fixpoint add_header_lines (request : HTTP_REQUEST) (lines : list string)
  : HTTP_REQUEST :=
  match lines with
  | [] => request
  | line :: rest =>
      if String.length line =? 0 then request
      else
        match strchr line ":" with
        | Some i =>
            add_header_lines
              (http_request_add_header request (left_of i line)
                 (skip_blanks (right_of i line)))
              rest
        | None => add_header_lines request rest
        end
  end.

(** [strstr(s, needle)]: the offset of the first occurrence. *)
Fixpoint strstr (s needle : string) : option nat :=
  if String.prefix needle s then Some 0
  else match s with
       | EmptyString => None
       | String _ r => S <$> strstr r needle
       end.

Definition is_line_end (c : ascii) : bool := Ascii.eqb c CR || Ascii.eqb c LF.

(** [parse_http_request(buffer, buffer_len, request)] on a request just
    created; [buffer] holds the [buffer_len] bytes.  [None] is the error
    FRAMEWORK_ERROR_INVALID. *)
Definition parse_http_request (buffer : string) : option HTTP_REQUEST :=
  let buf_copy := Codec.c_string buffer in          (* [strndup] *)
  match strtok_all is_line_end buf_copy with
  | [] => None
  | line :: lines =>
      match scan_request_line line with
      | None => None
      | Some (method_str, path, version) =>
          let target := str_take 511 path in
          let '(request_path, query) :=
            match strchr target "?" with
            | Some i => (left_of i target, Some (str_take 511 (right_of i target)))
            | None => (target, None)
            end in
          let request1 :=
            {| req_method := http_method_from_string method_str;
               req_path := request_path;
               query_string := from_option id EmptyString query;
               http_version := str_take 15 version;
               req_headers := []; req_body := EmptyString;
               path_params := []; query_params := [] |} in
          let request2 :=
            match query with
            | Some _ => parse_query_string request1
            | None => request1
            end in
          let request3 := add_header_lines request2 lines in
          let body :=
            match strstr (Codec.c_string buffer) (CRLF +:+ CRLF) with
            | Some i => str_drop (i + 4) buffer
            | None => EmptyString
            end in
          Some {| req_method := req_method request3; req_path := req_path request3;
                  query_string := query_string request3;
                  http_version := http_version request3;
                  req_headers := req_headers request3;
                  req_body := body;
                  path_params := path_params request3;
                  query_params := query_params request3 |}
      end
  end.

End Request.

(* --------------------------------------------------------------------- *)
(** ** Wire formats the parsers are compared with                         *)
(* --------------------------------------------------------------------- *)

(** None of this is code of the repository: these are the texts a
    client writes, used to state what the parsers read from them. *)
Module Format.
Import Http.

(** The parameters a pattern binds in a path, segment by segment: the
    name is the pattern segment without its colon, the value the path
    segment. *)
Fixpoint params_of (pattern_segs path_segs : list string) : list HTTP_HEADER :=
  match pattern_segs, path_segs with
  | p :: ps, s :: ss =>
      (if starts_with ":" p then [{| name := str_drop 1 p; value := s |}] else [])
      ++ params_of ps ss
  | _, _ => []
  end.

(** A pair as it is stored in a zeroed slot. *)
Definition stored (e : HTTP_HEADER) : HTTP_HEADER := store_pair (name e) (value e).

(** Every parameter segment, colon and name, has at most 127 characters,
    so that the name is stored whole and with its terminator. *)
Definition short_names (pattern_segs : list string) : Prop :=
  Forall (fun seg => starts_with ":" seg = true -> String.length seg <= 127)
         pattern_segs.

(** Every character of the string passes the test. *)
Fixpoint str_forall (P : ascii -> bool) (s : string) : bool :=
  match s with
  | EmptyString => true
  | String c r => P c && str_forall P r
  end.

(** Characters that stand for themselves in a URL: letters, digits and
    [-], [.], [_], [~]. *)
Definition unreserved (c : ascii) : bool :=
  let n := nat_of_ascii c in
  (Nat.leb 48 n && Nat.leb n 57) || (Nat.leb 65 n && Nat.leb n 90)
  || (Nat.leb 97 n && Nat.leb n 122)
  || Nat.eqb n 45 || Nat.eqb n 46 || Nat.eqb n 95 || Nat.eqb n 126.

Definition hex_char (d : nat) : ascii :=
  if Nat.ltb d 10 then ascii_of_nat (48 + d) else ascii_of_nat (55 + d).

(** Percent-encoding of one character and of a string. *)
Definition encode_char (c : ascii) : string :=
  if unreserved c then String c EmptyString
  else String "%" (String (hex_char (nat_of_ascii c / 16))
                     (String (hex_char (nat_of_ascii c mod 16)) EmptyString)).

Fixpoint percent_encode (s : string) : string :=
  match s with
  | EmptyString => EmptyString
  | String c r => encode_char c +:+ percent_encode r
  end.

(** [k1=v1&k2=v2...], keys and values percent-encoded. *)
Fixpoint format_query (pairs : list (string * string)) : string :=
  match pairs with
  | [] => EmptyString
  | [(k, v)] => percent_encode k +:+ "=" +:+ percent_encode v
  | (k, v) :: rest =>
      percent_encode k +:+ "=" +:+ percent_encode v +:+ "&" +:+ format_query rest
  end.

(** The header lines [name: value CRLF] of a request. *)
Fixpoint format_headers (hs : list (string * string)) : string :=
  match hs with
  | [] => EmptyString
  | (n, v) :: rest => n +:+ ": " +:+ v +:+ CRLF +:+ format_headers rest
  end.

(** A pair as the entry that holds it. *)
Definition entry (kv : string * string) : HTTP_HEADER :=
  {| name := kv.1; value := kv.2 |}.

(** Key and value are C strings that fit the fields of a parameter with
    their terminators. *)
Definition short_pair (kv : string * string) : Prop :=
  String.length kv.1 < 127 /\ String.length kv.2 < 511
  /\ Hpack.is_c_string kv.1 /\ Hpack.is_c_string kv.2.

(** A word of the request line: not empty, without white space and
    without NUL. *)
Definition word_char (c : ascii) : bool :=
  negb (Codec.isspace c) && negb (Ascii.eqb c zero).

Definition word (s : string) : Prop :=
  s <> EmptyString /\ str_forall word_char s = true.

(** A character of a header value: neither CR nor LF nor NUL. *)
Definition line_char (c : ascii) : bool :=
  negb (Request.is_line_end c) && negb (Ascii.eqb c zero).

(** A header a client can write on one line: the name has no colon, the
    value does not begin with a blank, and both fit their fields. *)
Definition header_ok (h : string * string) : Prop :=
  str_forall (fun c => line_char c && negb (Ascii.eqb c ":")) h.1 = true
  /\ str_forall line_char h.2 = true
  /\ starts_with " " h.2 = false
  /\ String.length h.1 < 127 /\ String.length h.2 < 511.

(** The characters of an encoded string: none that the parsers of the
    query string and of the request act on. *)
Definition encoded_char (c : ascii) : bool :=
  negb (Ascii.eqb c "&") && negb (Ascii.eqb c "=") && negb (Ascii.eqb c "?")
  && word_char c.

(** The delimiter of [strtok_r] in [parse_query_string]. *)
Definition amp (c : ascii) : bool := Ascii.eqb c "&".

(** One pair of the query string as it is written. *)
Definition written (kv : string * string) : string :=
  percent_encode kv.1 +:+ "=" +:+ percent_encode kv.2.

(** One header line as it is written, without its line end. *)
Definition hline (h : string * string) : string := h.1 +:+ ": " +:+ h.2.

(** The request target: the path, and the query behind a question mark
    when there are pairs. *)
Definition target_of (p : string) (pairs : list (string * string)) : string :=
  match pairs with
  | [] => p
  | _ => p +:+ "?" +:+ format_query pairs
  end.

(** The headers the header loop of [parse_http_request] makes of the
    lines of a body. *)
Definition body_headers (body_bytes : string) : list HTTP_HEADER :=
  req_headers
    (Request.add_header_lines Request.http_request_create
       (Request.strtok_all Request.is_line_end (Codec.c_string body_bytes))).

(** A line of the body that holds a colon is taken for a header by the
    header loop: the text in front of the colon is the name, the text
    behind it, without its leading blanks, the value.  Both are short
    enough to be stored whole and with their terminators in any slot of
    the header list: fewer than 127 and fewer than 511 characters. *)
Definition body_line_ok (line : string) : Prop :=
  match strchr line ":" with
  | Some i =>
      String.length (Request.left_of i line) < 127
      /\ String.length (Request.skip_blanks (Request.right_of i line)) < 511
  | None => True
  end.

(** Every line of the body, as [strtok] cuts it at CR and LF up to the
    first NUL, is such a line. *)
Definition body_ok (body_bytes : string) : Prop :=
  Forall body_line_ok
    (Request.strtok_all Request.is_line_end (Codec.c_string body_bytes)).

(** A request as a client writes it: request line, header lines, blank
    line, body. *)
Definition format_request (method_str target version : string)
    (hs : list (string * string)) (body_bytes : string) : string :=
  method_str +:+ " " +:+ target +:+ " " +:+ version +:+ CRLF
  +:+ format_headers hs +:+ CRLF +:+ body_bytes.

End Format.

(* --------------------------------------------------------------------- *)
(** ** The connection table, seen as a list                               *)
(* --------------------------------------------------------------------- *)

Module Table.
Import Server Reactor.

(** The table after the record in slot [i] was overwritten with the last
    and the last slot dropped. *)
Definition swapped_out (conns : list CONNECTION_STATE) (i : nat)
  : list CONNECTION_STATE :=
  take (length conns - 1)
    (if i <? length conns - 1 then
       match conns !! (length conns - 1) with
       | Some last_conn => <[i := last_conn]> conns
       | None => conns
       end
     else conns).

(** [handle_client_data] from the point where [recv] has returned the
    bytes [got] for the record [conn] in slot [i]; [process] stands for
    [process_http_request]. *)
Definition after_recv (process : HTTP_SERVER -> CONNECTION_STATE ->
                                 HTTP_SERVER * list action)
    (server : HTTP_SERVER) (client_socket : Z) (i : nat) (conn : CONNECTION_STATE)
    (got : string) (queued : list Z) (now : Z) : HTTP_SERVER * list action :=
  if String.length got =? 0 then remove_connection server client_socket
  else
    let conn1 :=
      {| socket := socket conn; buffer := buffer conn +:+ got;
         is_http2 := is_http2 conn; last_activity := now |} in
    if (Http2.HTTP2_PREFACE_LEN <=? String.length (buffer conn1))
       && negb (is_http2 conn1)
       && String.eqb (str_take Http2.HTTP2_PREFACE_LEN (buffer conn1))
                     Http2.HTTP2_PREFACE
    then
      let conn2 :=
        {| socket := socket conn1; buffer := buffer conn1;
           is_http2 := true; last_activity := now |} in
      let h2 :=
        Http2.http2_handle_connection
          (Http2.http2_connection_create
             {| Http2.sock_in := queued; Http2.sock_out := [];
                Http2.sock_plan := [] |}) in
      let '(server', closing) :=
        remove_connection (set_connection server i conn2) client_socket in
      (server',
       [act_send_frames client_socket
          (Http2.sock_out (Http2.socket_ h2.2))] ++ closing)
    else if negb (is_http2 conn1) then
      process (set_connection server i conn1) conn1
    else (set_connection server i conn1, []).

(** The record has been idle for more than 60 seconds at [now]. *)
Definition idle (now : Z) (c : CONNECTION_STATE) : bool :=
  (60 <? now - last_activity c)%Z.

(** No two records of the table hold the same socket. *)
Definition distinct_sockets (server : HTTP_SERVER) : Prop :=
  NoDup (socket <$> connection_states server).

(** Every buffer leaves room for its terminator. *)
Definition buffers_fit (server : HTTP_SERVER) : Prop :=
  Forall (fun c => String.length (buffer c) < MAX_REQUEST_SIZE)
         (connection_states server).

End Table.

(* --------------------------------------------------------------------- *)
(** ** Modules, services and the life cycle of an application
       (src/module.c, src/service_controller.c, src/application.c)        *)
(* --------------------------------------------------------------------- *)

Module Lifecycle.
Local Open Scope Z_scope.

Definition FRAMEWORK_SUCCESS : Z := 0.
Definition FRAMEWORK_ERROR_EXISTS : Z := -5.
Definition FRAMEWORK_ERROR_STATE : Z := -6.
Definition FRAMEWORK_ERROR_DEPENDENCY : Z := -7.

Inductive MODULE_STATE :=
| MODULE_STATE_UNINITIALIZED
| MODULE_STATE_INITIALIZED
| MODULE_STATE_STARTED
| MODULE_STATE_STOPPED
| MODULE_STATE_ERROR.

#[global] Instance MODULE_STATE_eq_dec : EqDecision MODULE_STATE.
Proof. solve_decision. Defined.

Inductive SERVICE_STATE :=
| SERVICE_STATE_UNINITIALIZED
| SERVICE_STATE_INITIALIZED
| SERVICE_STATE_RUNNING
| SERVICE_STATE_STOPPED
| SERVICE_STATE_ERROR.

#[global] Instance SERVICE_STATE_eq_dec : EqDecision SERVICE_STATE.
Proof. solve_decision. Defined.

(** A callback is a function pointer or NULL; a callback that is set is
    taken by the value it returns. *)
Definition callback := option Z.

(** [MODULE]: [char name[256]], the state, the four callbacks and the
    names of the modules it depends on. *)
Record MODULE := {
  mod_name : string;
  mod_state : MODULE_STATE;
  mod_init : callback;
  mod_start : callback;
  mod_stop : callback;
  mod_cleanup : callback;
  dependencies : list string
}.

(** [SERVICE_CONTROLLER], as far as its life cycle goes. *)
Record SERVICE_CONTROLLER := {
  svc_name : string;
  svc_state : SERVICE_STATE;
  svc_init : callback;
  svc_start : callback;
  svc_stop : callback;
  svc_cleanup : callback
}.

(** The calls made on the user's functions, in order. *)
Inductive phase := ph_init | ph_start | ph_stop | ph_cleanup.

Inductive event :=
| ev_init_function (function_name : string)
| ev_cleanup_function (function_name : string)
| ev_module (p : phase) (module_name : string)
| ev_service (p : phase) (service_name : string).

#[global] Instance phase_eq_dec : EqDecision phase.
Proof. solve_decision. Defined.

#[global] Instance event_eq_dec : EqDecision event.
Proof. solve_decision. Defined.

Definition module_create (n : string) : MODULE :=
  {| mod_name := str_take 255 n; mod_state := MODULE_STATE_UNINITIALIZED;
     mod_init := None; mod_start := None; mod_stop := None; mod_cleanup := None;
     dependencies := [] |}.

Definition with_state (md : MODULE) (st : MODULE_STATE) : MODULE :=
  {| mod_name := mod_name md; mod_state := st;
     mod_init := mod_init md; mod_start := mod_start md;
     mod_stop := mod_stop md; mod_cleanup := mod_cleanup md;
     dependencies := dependencies md |}.

Definition module_set_init_callback (md : MODULE) (cb : callback) : MODULE :=
  {| mod_name := mod_name md; mod_state := mod_state md;
     mod_init := cb; mod_start := mod_start md;
     mod_stop := mod_stop md; mod_cleanup := mod_cleanup md;
     dependencies := dependencies md |}.

Definition module_set_start_callback (md : MODULE) (cb : callback) : MODULE :=
  {| mod_name := mod_name md; mod_state := mod_state md;
     mod_init := mod_init md; mod_start := cb;
     mod_stop := mod_stop md; mod_cleanup := mod_cleanup md;
     dependencies := dependencies md |}.

Definition module_set_stop_callback (md : MODULE) (cb : callback) : MODULE :=
  {| mod_name := mod_name md; mod_state := mod_state md;
     mod_init := mod_init md; mod_start := mod_start md;
     mod_stop := cb; mod_cleanup := mod_cleanup md;
     dependencies := dependencies md |}.

Definition module_add_dependency (md : MODULE) (dep_name : string) : MODULE :=
  {| mod_name := mod_name md; mod_state := mod_state md;
     mod_init := mod_init md; mod_start := mod_start md;
     mod_stop := mod_stop md; mod_cleanup := mod_cleanup md;
     dependencies := dependencies md ++ [dep_name] |}.

(** The part the four life cycle functions share: the callback, if one
    is set, is called; a result other than FRAMEWORK_SUCCESS is handed
    back. *)
Definition call (cb : callback) (e : event) : Z * list event :=
  match cb with
  | Some result => (result, [e])
  | None => (FRAMEWORK_SUCCESS, [])
  end.

(** [module_initialize]: the value returned, the module, the calls. *)
Definition module_initialize (md : MODULE) : Z * MODULE * list event :=
  if negb (bool_decide (mod_state md = MODULE_STATE_UNINITIALIZED)) then
    (FRAMEWORK_ERROR_STATE, md, [])
  else
    let '(result, calls) := call (mod_init md) (ev_module ph_init (mod_name md)) in
    if negb (result =? FRAMEWORK_SUCCESS) then
      (result, with_state md MODULE_STATE_ERROR, calls)
    else (FRAMEWORK_SUCCESS, with_state md MODULE_STATE_INITIALIZED, calls).

Definition module_start (md : MODULE) : Z * MODULE * list event :=
  if negb (bool_decide (mod_state md = MODULE_STATE_INITIALIZED))
     && negb (bool_decide (mod_state md = MODULE_STATE_STOPPED)) then
    (FRAMEWORK_ERROR_STATE, md, [])
  else
    let '(result, calls) := call (mod_start md) (ev_module ph_start (mod_name md)) in
    if negb (result =? FRAMEWORK_SUCCESS) then
      (result, with_state md MODULE_STATE_ERROR, calls)
    else (FRAMEWORK_SUCCESS, with_state md MODULE_STATE_STARTED, calls).

Definition module_stop (md : MODULE) : Z * MODULE * list event :=
  if negb (bool_decide (mod_state md = MODULE_STATE_STARTED)) then
    (FRAMEWORK_ERROR_STATE, md, [])
  else
    let '(result, calls) := call (mod_stop md) (ev_module ph_stop (mod_name md)) in
    if negb (result =? FRAMEWORK_SUCCESS) then
      (result, with_state md MODULE_STATE_ERROR, calls)
    else (FRAMEWORK_SUCCESS, with_state md MODULE_STATE_STOPPED, calls).

Definition module_cleanup (md : MODULE) : Z * MODULE * list event :=
  let '(result, calls) := call (mod_cleanup md) (ev_module ph_cleanup (mod_name md)) in
  if negb (result =? FRAMEWORK_SUCCESS) then (result, md, calls)
  else (FRAMEWORK_SUCCESS, with_state md MODULE_STATE_UNINITIALIZED, calls).

(** The same for a service. *)
Definition with_svc_state (svc : SERVICE_CONTROLLER) (st : SERVICE_STATE)
  : SERVICE_CONTROLLER :=
  {| svc_name := svc_name svc; svc_state := st;
     svc_init := svc_init svc; svc_start := svc_start svc;
     svc_stop := svc_stop svc; svc_cleanup := svc_cleanup svc |}.

Definition service_controller_create (n : string) : SERVICE_CONTROLLER :=
  {| svc_name := str_take 255 n; svc_state := SERVICE_STATE_UNINITIALIZED;
     svc_init := None; svc_start := None; svc_stop := None; svc_cleanup := None |}.

Definition service_controller_initialize (svc : SERVICE_CONTROLLER)
  : Z * SERVICE_CONTROLLER * list event :=
  if negb (bool_decide (svc_state svc = SERVICE_STATE_UNINITIALIZED)) then
    (FRAMEWORK_ERROR_STATE, svc, [])
  else
    let '(result, calls) := call (svc_init svc) (ev_service ph_init (svc_name svc)) in
    if negb (result =? FRAMEWORK_SUCCESS) then
      (result, with_svc_state svc SERVICE_STATE_ERROR, calls)
    else (FRAMEWORK_SUCCESS, with_svc_state svc SERVICE_STATE_INITIALIZED, calls).

Definition service_controller_start (svc : SERVICE_CONTROLLER)
  : Z * SERVICE_CONTROLLER * list event :=
  if negb (bool_decide (svc_state svc = SERVICE_STATE_INITIALIZED))
     && negb (bool_decide (svc_state svc = SERVICE_STATE_STOPPED)) then
    (FRAMEWORK_ERROR_STATE, svc, [])
  else
    let '(result, calls) := call (svc_start svc) (ev_service ph_start (svc_name svc)) in
    if negb (result =? FRAMEWORK_SUCCESS) then
      (result, with_svc_state svc SERVICE_STATE_ERROR, calls)
    else (FRAMEWORK_SUCCESS, with_svc_state svc SERVICE_STATE_RUNNING, calls).

Definition service_controller_stop (svc : SERVICE_CONTROLLER)
  : Z * SERVICE_CONTROLLER * list event :=
  if negb (bool_decide (svc_state svc = SERVICE_STATE_RUNNING)) then
    (FRAMEWORK_ERROR_STATE, svc, [])
  else
    let '(result, calls) := call (svc_stop svc) (ev_service ph_stop (svc_name svc)) in
    if negb (result =? FRAMEWORK_SUCCESS) then
      (result, with_svc_state svc SERVICE_STATE_ERROR, calls)
    else (FRAMEWORK_SUCCESS, with_svc_state svc SERVICE_STATE_STOPPED, calls).

(** [APPLICATION], as far as its life cycle goes.  The two function
    lists hold the names of the registered functions, the head first. *)
Record APPLICATION := {
  init_list : list string;
  cleanup_list : list string;
  modules : list MODULE;
  services : list SERVICE_CONTROLLER;
  initialized : bool;
  running : bool
}.

Definition application_create : APPLICATION :=
  {| init_list := []; cleanup_list := []; modules := []; services := [];
     initialized := false; running := false |}.

Definition with_modules (app : APPLICATION) (ms : list MODULE) : APPLICATION :=
  {| init_list := init_list app; cleanup_list := cleanup_list app;
     modules := ms; services := services app;
     initialized := initialized app; running := running app |}.

Definition with_services (app : APPLICATION) (ss : list SERVICE_CONTROLLER)
  : APPLICATION :=
  {| init_list := init_list app; cleanup_list := cleanup_list app;
     modules := modules app; services := ss;
     initialized := initialized app; running := running app |}.

Definition with_flags (app : APPLICATION) (is_initialized is_running : bool)
  : APPLICATION :=
  {| init_list := init_list app; cleanup_list := cleanup_list app;
     modules := modules app; services := services app;
     initialized := is_initialized; running := is_running |}.

(** [application_register_init_function], for a function that is not
    NULL: the node becomes the head of the list. *)
Definition application_register_init_function (app : APPLICATION)
    (function_name : string) : APPLICATION :=
  {| init_list := str_take 255 function_name :: init_list app;
     cleanup_list := cleanup_list app;
     modules := modules app; services := services app;
     initialized := initialized app; running := running app |}.

Definition application_register_cleanup_function (app : APPLICATION)
    (function_name : string) : APPLICATION :=
  {| init_list := init_list app;
     cleanup_list := str_take 255 function_name :: cleanup_list app;
     modules := modules app; services := services app;
     initialized := initialized app; running := running app |}.

(** [application_get_module]: the first module with the name. *)
Fixpoint get_module (ms : list MODULE) (n : string) : option MODULE :=
  match ms with
  | [] => None
  | md :: rest => if String.eqb (mod_name md) n then Some md else get_module rest n
  end.

Definition application_get_module (app : APPLICATION) (n : string) : option MODULE :=
  get_module (modules app) n.

(** [application_register_module] *)
Definition application_register_module (app : APPLICATION) (md : MODULE)
  : Z * APPLICATION :=
  if bool_decide (is_Some (application_get_module app (mod_name md))) then
    (FRAMEWORK_ERROR_EXISTS, app)
  else (FRAMEWORK_SUCCESS, with_modules app (modules app ++ [md])).

Fixpoint get_service (ss : list SERVICE_CONTROLLER) (n : string)
  : option SERVICE_CONTROLLER :=
  match ss with
  | [] => None
  | svc :: rest => if String.eqb (svc_name svc) n then Some svc else get_service rest n
  end.

Definition application_register_service (app : APPLICATION)
    (svc : SERVICE_CONTROLLER) : Z * APPLICATION :=
  if bool_decide (is_Some (get_service (services app) (svc_name svc))) then
    (FRAMEWORK_ERROR_EXISTS, app)
  else (FRAMEWORK_SUCCESS, with_services app (services app ++ [svc])).

(** The test of one dependency in [application_initialize_modules]: a
    module with the name is registered and its state is not
    UNINITIALIZED. *)
Definition dependency_ready (ms : list MODULE) (dep_name : string) : bool :=
  match get_module ms dep_name with
  | Some dep => negb (bool_decide (mod_state dep = MODULE_STATE_UNINITIALIZED))
  | None => false
  end.

(** The loop of [application_initialize_modules]: [before] holds the
    modules in front of index [i], [from_i] those from [i] on. *)
Fixpoint initialize_from (before from_i : list MODULE) : Z * list MODULE * list event :=
  match from_i with
  | [] => (FRAMEWORK_SUCCESS, before, [])
  | md :: rest =>
      if negb (forallb (dependency_ready (before ++ from_i)) (dependencies md)) then
        (FRAMEWORK_ERROR_DEPENDENCY, before ++ from_i, [])
      else
        let '(result, md', calls) := module_initialize md in
        if negb (result =? FRAMEWORK_SUCCESS) then
          (result, before ++ md' :: rest, calls)
        else
          let '(result', ms, calls') := initialize_from (before ++ [md']) rest in
          (result', ms, calls ++ calls')
  end.

Definition application_initialize_modules (app : APPLICATION)
  : Z * APPLICATION * list event :=
  let '(result, ms, calls) := initialize_from [] (modules app) in
  (result, with_modules app ms, calls).

(** The loop of [application_start_modules]: it returns at the first
    module that does not start. *)
Fixpoint start_modules (ms : list MODULE) : Z * list MODULE * list event :=
  match ms with
  | [] => (FRAMEWORK_SUCCESS, [], [])
  | md :: rest =>
      let '(result, md', calls) := module_start md in
      if negb (result =? FRAMEWORK_SUCCESS) then (result, md' :: rest, calls)
      else
        let '(result', rest', calls') := start_modules rest in
        (result', md' :: rest', calls ++ calls')
  end.

Definition application_start_modules (app : APPLICATION)
  : Z * APPLICATION * list event :=
  let '(result, ms, calls) := start_modules (modules app) in
  (result, with_modules app ms, calls).

(** The loop of [application_stop_modules]: from the last module to
    the first, whatever [module_stop] returns. *)
Fixpoint stop_modules (ms : list MODULE) : list MODULE * list event :=
  match ms with
  | [] => ([], [])
  | md :: rest =>
      let '(rest', calls) := stop_modules rest in
      let '(_, md', calls') := module_stop md in
      (md' :: rest', calls ++ calls')
  end.

Definition application_stop_modules (app : APPLICATION) : APPLICATION * list event :=
  let '(ms, calls) := stop_modules (modules app) in (with_modules app ms, calls).

(** The three loops over the services. *)
Fixpoint initialize_services (ss : list SERVICE_CONTROLLER)
  : Z * list SERVICE_CONTROLLER * list event :=
  match ss with
  | [] => (FRAMEWORK_SUCCESS, [], [])
  | svc :: rest =>
      let '(result, svc', calls) := service_controller_initialize svc in
      if negb (result =? FRAMEWORK_SUCCESS) then (result, svc' :: rest, calls)
      else
        let '(result', rest', calls') := initialize_services rest in
        (result', svc' :: rest', calls ++ calls')
  end.

Fixpoint start_services (ss : list SERVICE_CONTROLLER)
  : Z * list SERVICE_CONTROLLER * list event :=
  match ss with
  | [] => (FRAMEWORK_SUCCESS, [], [])
  | svc :: rest =>
      let '(result, svc', calls) := service_controller_start svc in
      if negb (result =? FRAMEWORK_SUCCESS) then (result, svc' :: rest, calls)
      else
        let '(result', rest', calls') := start_services rest in
        (result', svc' :: rest', calls ++ calls')
  end.

Fixpoint stop_services (ss : list SERVICE_CONTROLLER)
  : list SERVICE_CONTROLLER * list event :=
  match ss with
  | [] => ([], [])
  | svc :: rest =>
      let '(rest', calls) := stop_services rest in
      let '(_, svc', calls') := service_controller_stop svc in
      (svc' :: rest', calls ++ calls')
  end.

(** [application_initialize] *)
Definition application_initialize (app : APPLICATION)
  : Z * APPLICATION * list event :=
  if initialized app then (FRAMEWORK_ERROR_STATE, app, [])
  else
    let init_calls := ev_init_function <$> init_list app in
    let '(result, ms, calls) := initialize_from [] (modules app) in
    if negb (result =? FRAMEWORK_SUCCESS) then
      (result, with_modules app ms, init_calls ++ calls)
    else
      let '(result', ss, calls') := initialize_services (services app) in
      if negb (result' =? FRAMEWORK_SUCCESS) then
        (result', with_services (with_modules app ms) ss, init_calls ++ calls ++ calls')
      else
        (FRAMEWORK_SUCCESS,
         with_flags (with_services (with_modules app ms) ss) true (running app),
         init_calls ++ calls ++ calls').

(** [application_start] *)
Definition application_start (app : APPLICATION) : Z * APPLICATION * list event :=
  if negb (initialized app) then (FRAMEWORK_ERROR_STATE, app, [])
  else if running app then (FRAMEWORK_ERROR_STATE, app, [])
  else
    let '(result, ms, calls) := start_modules (modules app) in
    if negb (result =? FRAMEWORK_SUCCESS) then (result, with_modules app ms, calls)
    else
      let '(result', ss, calls') := start_services (services app) in
      if negb (result' =? FRAMEWORK_SUCCESS) then
        (result', with_services (with_modules app ms) ss, calls ++ calls')
      else
        (FRAMEWORK_SUCCESS,
         with_flags (with_services (with_modules app ms) ss) (initialized app) true,
         calls ++ calls').

(** [application_stop] *)
Definition application_stop (app : APPLICATION) : Z * APPLICATION * list event :=
  if negb (running app) then (FRAMEWORK_ERROR_STATE, app, [])
  else
    let '(ss, calls) := stop_services (services app) in
    let '(ms, calls') := stop_modules (modules app) in
    (FRAMEWORK_SUCCESS,
     with_flags (with_services (with_modules app ms) ss) (initialized app) false,
     calls ++ calls').

(** [application_cleanup] *)
Definition application_cleanup (app : APPLICATION) : Z * APPLICATION * list event :=
  let '(app1, calls) :=
    if running app then
      let '(_, app', stop_calls) := application_stop app in (app', stop_calls)
    else (app, []) in
  (FRAMEWORK_SUCCESS, with_flags app1 false (running app1),
   calls ++ (ev_cleanup_function <$> cleanup_list app1)).

(** An application as registrations build it. *)
Inductive registration :=
| reg_module (md : MODULE)
| reg_service (svc : SERVICE_CONTROLLER)
| reg_init_function (function_name : string)
| reg_cleanup_function (function_name : string).

Definition register (app : APPLICATION) (r : registration) : APPLICATION :=
  match r with
  | reg_module md => (application_register_module app md).2
  | reg_service svc => (application_register_service app svc).2
  | reg_init_function n => application_register_init_function app n
  | reg_cleanup_function n => application_register_cleanup_function app n
  end.

Definition registered (rs : list registration) : APPLICATION :=
  foldl register application_create rs.

(** The position of the module with the name. *)
Fixpoint module_index (ms : list MODULE) (n : string) : option nat :=
  match ms with
  | [] => None
  | md :: rest =>
      if String.eqb (mod_name md) n then Some 0%nat else S <$> module_index rest n
  end.

(** Every dependency of every module names a module registered in
    front of it. *)
Definition dependencies_first (ms : list MODULE) : Prop :=
  forall i md dep_name,
    ms !! i = Some md -> dep_name ∈ dependencies md ->
    exists j, module_index ms dep_name = Some j /\ (j < i)%nat.

(** The same with [before] in front: what the loop of [application_initialize_modules] asks of the
    modules still to be initialised. *)
Definition ready_from (before from_i : list MODULE) : Prop :=
  forall i md dep_name,
    from_i !! i = Some md -> dep_name ∈ dependencies md ->
    exists j, module_index (before ++ from_i) dep_name = Some j
              /\ (j < length before + i)%nat.

Definition all_state (st : MODULE_STATE) (ms : list MODULE) : Prop :=
  Forall (fun md => mod_state md = st) ms.

(** The calls of a phase on the modules that have a callback for it. *)
Definition callback_of (p : phase) (md : MODULE) : callback :=
  match p with
  | ph_init => mod_init md | ph_start => mod_start md
  | ph_stop => mod_stop md | ph_cleanup => mod_cleanup md
  end.

Definition module_calls (p : phase) (ms : list MODULE) : list event :=
  ev_module p <$> (mod_name <$> filter (fun md => is_Some (callback_of p md)) ms).

(** No callback of the phase reports a failure. *)
Definition callbacks_succeed (p : phase) (ms : list MODULE) : Prop :=
  Forall (fun md => callback_of p md = None
                     \/ callback_of p md = Some FRAMEWORK_SUCCESS) ms.

(** The same for the services. *)
Definition svc_callback_of (p : phase) (svc : SERVICE_CONTROLLER) : callback :=
  match p with
  | ph_init => svc_init svc | ph_start => svc_start svc
  | ph_stop => svc_stop svc | ph_cleanup => svc_cleanup svc
  end.

Definition service_calls (p : phase) (ss : list SERVICE_CONTROLLER) : list event :=
  ev_service p <$> (svc_name <$> filter (fun svc => is_Some (svc_callback_of p svc)) ss).

Definition svc_callbacks_succeed (p : phase) (ss : list SERVICE_CONTROLLER) : Prop :=
  Forall (fun svc => svc_callback_of p svc = None
                     \/ svc_callback_of p svc = Some FRAMEWORK_SUCCESS) ss.

Definition all_svc_state (st : SERVICE_STATE) (ss : list SERVICE_CONTROLLER) : Prop :=
  Forall (fun svc => svc_state svc = st) ss.

(** The names of the init functions among the registrations, in the
    order of registration, as the nodes hold them. *)
Fixpoint init_function_names (rs : list registration) : list string :=
  match rs with
  | [] => []
  | reg_init_function n :: rest => str_take 255 n :: init_function_names rest
  | _ :: rest => init_function_names rest
  end.

(** Three modules: a database, a cache that needs it, an API that
    needs both. *)
Definition database : MODULE :=
  module_set_init_callback (module_create "database") (Some 0).

Definition cache : MODULE :=
  module_add_dependency
    (module_set_init_callback (module_create "cache") (Some 0)) "database".

Definition api : MODULE :=
  module_add_dependency
    (module_add_dependency
       (module_set_init_callback (module_create "api") (Some 0)) "database")
    "cache".

(** What can be done with an application once it is set up. *)
Inductive lifecycle_op := do_initialize | do_start | do_stop | do_cleanup.

Definition lifecycle_step (app : APPLICATION) (op : lifecycle_op) : APPLICATION :=
  match op with
  | do_initialize => (application_initialize app).1.2
  | do_start => (application_start app).1.2
  | do_stop => (application_stop app).1.2
  | do_cleanup => (application_cleanup app).1.2
  end.

(** The first module has left the state UNINITIALIZED. *)
Definition first_module_used (app : APPLICATION) : Prop :=
  exists md rest, modules app = md :: rest
                  /\ mod_state md <> MODULE_STATE_UNINITIALIZED.

(** The application is not running and its first module is STARTED or
    in ERROR. *)
Definition first_module_stuck (app : APPLICATION) : Prop :=
  running app = false
  /\ exists md rest, modules app = md :: rest
                     /\ (mod_state md = MODULE_STATE_STARTED
                         \/ mod_state md = MODULE_STATE_ERROR).

(** A cache whose start callback reports FRAMEWORK_ERROR_CALLBACK. *)
Definition broken_cache : MODULE :=
  module_set_start_callback cache (Some (-8)).

(** An application with the three modules, two init functions and a
    service, every component with a start and a stop callback. *)
Definition with_start_stop (md : MODULE) : MODULE :=
  module_set_stop_callback (module_set_start_callback md (Some 0)) (Some 0).

Definition gateway : SERVICE_CONTROLLER :=
  {| svc_name := "gateway"; svc_state := SERVICE_STATE_UNINITIALIZED;
     svc_init := Some 0; svc_start := Some 0; svc_stop := Some 0;
     svc_cleanup := None |}.

Definition example_registrations : list registration :=
  [ reg_init_function "load_config"; reg_module (with_start_stop database);
    reg_init_function "open_log"; reg_module (with_start_stop cache);
    reg_service gateway; reg_module (with_start_stop api) ].

End Lifecycle.

(* --------------------------------------------------------------------- *)
(** ** The consumer threads of the Kafka client (src/kafka_client.c)      *)
(* --------------------------------------------------------------------- *)

Module Kafka.
Local Open Scope Z_scope.

Definition FRAMEWORK_SUCCESS : Z := 0.
Definition FRAMEWORK_ERROR_INVALID : Z := -2.
Definition FRAMEWORK_ERROR_STATE : Z := -6.

(** A consumer, as far as its thread goes: the flag its thread polls,
    and whether [thread] names a thread that was created and has not been
    joined. *)
Record KAFKA_CONSUMER := {
  consumer_running : bool;
  has_thread : bool
}.

Record KAFKA_CLIENT := {
  client_running : bool;
  consumers : list KAFKA_CONSUMER
}.

(** The calls on the thread library, with the index of the consumer. *)
Inductive thread_call :=
| thread_created (i : nat)      (* [pthread_create] returned 0 *)
| thread_joined (i : nat)       (* [pthread_join] on the thread of the consumer *)
| joined_no_thread (i : nat).   (* [pthread_join] on a [thread] that names none *)

(** [kafka_client_create] and a consumer as it is added. *)
Definition kafka_client_create : KAFKA_CLIENT :=
  {| client_running := false; consumers := [] |}.

Definition new_consumer : KAFKA_CONSUMER :=
  {| consumer_running := false; has_thread := false |}.

(** The loop of [kafka_client_start] from index [i] on; [create_ok i]
    tells whether [pthread_create] succeeds for consumer [i]. *)
Fixpoint start_consumers (cs : list KAFKA_CONSUMER) (i : nat) (create_ok : nat -> bool)
  : Z * list KAFKA_CONSUMER * list thread_call :=
  match cs with
  | [] => (FRAMEWORK_SUCCESS, [], [])
  | c :: rest =>
      if create_ok i then
        let '(result, rest', calls) := start_consumers rest (S i) create_ok in
        (result, {| consumer_running := true; has_thread := true |} :: rest',
         thread_created i :: calls)
      else
        (FRAMEWORK_ERROR_INVALID,
         {| consumer_running := false; has_thread := false |} :: rest, [])
  end.

Definition kafka_client_start (client : KAFKA_CLIENT) (create_ok : nat -> bool)
  : Z * KAFKA_CLIENT * list thread_call :=
  if client_running client then (FRAMEWORK_ERROR_STATE, client, [])
  else
    let '(result, cs, calls) := start_consumers (consumers client) 0 create_ok in
    (result, {| client_running := true; consumers := cs |}, calls).

(** The loop of [kafka_client_stop] from index [i] on. *)
Fixpoint stop_consumers (cs : list KAFKA_CONSUMER) (i : nat)
  : list KAFKA_CONSUMER * list thread_call :=
  match cs with
  | [] => ([], [])
  | c :: rest =>
      let '(rest', calls) := stop_consumers rest (S i) in
      ({| consumer_running := false; has_thread := false |} :: rest',
       (if has_thread c then thread_joined i else joined_no_thread i) :: calls)
  end.

Definition kafka_client_stop (client : KAFKA_CLIENT)
  : Z * KAFKA_CLIENT * list thread_call :=
  if negb (client_running client) then (FRAMEWORK_ERROR_STATE, client, [])
  else
    let '(cs, calls) := stop_consumers (consumers client) 0 in
    (FRAMEWORK_SUCCESS, {| client_running := false; consumers := cs |}, calls).

(** No consumer has a thread. *)
Definition no_threads (client : KAFKA_CLIENT) : Prop :=
  Forall (fun c => has_thread c = false) (consumers client).

(** A client with [n] consumers. *)
Definition client_with (n : nat) : KAFKA_CLIENT :=
  {| client_running := false; consumers := replicate n new_consumer |}.

End Kafka.

(* ===================================================================== *)
(** * Part II: the properties                                             *)
(* ===================================================================== *)

Section Http2_frame_header.
Import Http2.
Local Open Scope Z_scope.

Lemma land_shiftl_small (hi lo k : Z) :
  0 <= k -> 0 <= lo < 2 ^ k -> Z.land (Z.shiftl hi k) lo = 0.
Proof.
  intros Hk Hlo. apply Z.bits_inj'. intros n Hn.
  rewrite Z.land_spec, Z.bits_0.
  destruct (Z.lt_ge_cases n k) as [Hlt | Hge].
  - rewrite Z.shiftl_spec_low by lia. reflexivity.
  - rewrite andb_comm.
    destruct (Z.eq_dec lo 0) as [-> | Hne].
    + rewrite Z.bits_0. reflexivity.
    + rewrite Z.bits_above_log2; [reflexivity | lia |].
      apply Z.lt_le_trans with k; [| lia].
      apply Z.log2_lt_pow2; lia.
Qed.

Lemma lor_shiftl_add (hi lo k : Z) :
  0 <= k -> 0 <= lo < 2 ^ k -> Z.lor (Z.shiftl hi k) lo = hi * 2 ^ k + lo.
Proof.
  intros Hk Hlo.
  rewrite <- Z.lxor_lor by (apply land_shiftl_small; lia).
  rewrite <- Z.add_nocarry_lxor by (apply land_shiftl_small; lia).
  rewrite Z.shiftl_mul_pow2 by lia. reflexivity.
Qed.

Lemma lor_mul_add (q lo k : Z) :
  0 <= k -> 0 <= lo < 2 ^ k -> Z.lor (q * 2 ^ k) lo = q * 2 ^ k + lo.
Proof.
  intros Hk Hlo. rewrite <- (Z.shiftl_mul_pow2 q k) by lia.
  rewrite lor_shiftl_add by lia. rewrite Z.shiftl_mul_pow2 by lia. reflexivity.
Qed.

Lemma land_255 (x : Z) : Z.land x 255 = x mod 2 ^ 8.
Proof. change 255 with (Z.ones 8). apply Z.land_ones. lia. Qed.

Lemma land_127 (x : Z) : Z.land x 127 = x mod 2 ^ 7.
Proof. change 127 with (Z.ones 7). apply Z.land_ones. lia. Qed.

(** Shifts and masks of the two codecs, as quotients and remainders. *)
Ltac bytes_to_arith :=
  rewrite ?land_255, ?land_127, ?Z.shiftr_div_pow2, ?Z.shiftl_mul_pow2 by lia.

(** Three bytes, most significant first, joined as the parser joins them. *)
Lemma join3 (b0 b1 b2 : Z) :
  0 <= b1 < 2 ^ 8 -> 0 <= b2 < 2 ^ 8 ->
  Z.lor (Z.lor (b0 * 2 ^ 16) (b1 * 2 ^ 8)) b2 = b0 * 2 ^ 16 + b1 * 2 ^ 8 + b2.
Proof.
  intros H1 H2.
  replace (b0 * 2 ^ 16) with (b0 * 2 ^ 8 * 2 ^ 8) by ring.
  rewrite <- Z.lor_assoc.
  rewrite (lor_mul_add b1 b2 8) by lia.
  replace (b0 * 2 ^ 8 * 2 ^ 8) with (b0 * 2 ^ 16) by ring.
  rewrite lor_mul_add by lia. ring.
Qed.

Lemma join4 (b0 b1 b2 b3 : Z) :
  0 <= b1 < 2 ^ 8 -> 0 <= b2 < 2 ^ 8 -> 0 <= b3 < 2 ^ 8 ->
  Z.lor (Z.lor (Z.lor (b0 * 2 ^ 24) (b1 * 2 ^ 16)) (b2 * 2 ^ 8)) b3
  = b0 * 2 ^ 24 + b1 * 2 ^ 16 + b2 * 2 ^ 8 + b3.
Proof.
  intros H1 H2 H3.
  rewrite <- !Z.lor_assoc.
  rewrite (lor_mul_add b2 b3 8) by lia.
  rewrite (lor_mul_add b1 _ 16) by lia.
  rewrite lor_mul_add by lia. ring.
Qed.

Lemma length_field_roundtrip (len : Z) :
  0 <= len < 2 ^ 24 ->
  Z.lor (Z.lor (Z.shiftl (Z.land (Z.shiftr len 16) 255) 16)
               (Z.shiftl (Z.land (Z.shiftr len 8) 255) 8))
        (Z.land len 255) = len.
Proof.
  intros Hlen. bytes_to_arith.
  rewrite join3 by (apply Z.mod_pos_bound; lia).
  Z.div_mod_to_equations. lia.
Qed.

Lemma stream_id_field_roundtrip (sid : Z) :
  0 <= sid < 2 ^ 31 ->
  Z.lor (Z.lor (Z.lor (Z.shiftl (Z.land (Z.land (Z.shiftr sid 24) 127) 127) 24)
                      (Z.shiftl (Z.land (Z.shiftr sid 16) 255) 16))
               (Z.shiftl (Z.land (Z.shiftr sid 8) 255) 8))
        (Z.land sid 255) = sid.
Proof.
  intros Hsid. bytes_to_arith.
  rewrite join4 by (apply Z.mod_pos_bound; lia).
  Z.div_mod_to_equations. lia.
Qed.

Lemma parse_frame_header_bytes (ty flags sid len : Z) (payload : list Z) :
  0 <= len < 2 ^ 24 -> 0 <= sid < 2 ^ 31 ->
  http2_parse_frame_header (frame_header_bytes ty flags sid len ++ payload)
  = Some {| fh_length := len; fh_type := ty; fh_flags := flags;
            fh_stream_id := sid |}.
Proof.
  intros Hlen Hsid. unfold frame_header_bytes, http2_parse_frame_header.
  cbn [app]. rewrite length_field_roundtrip, stream_id_field_roundtrip by lia.
  reflexivity.
Qed.

Lemma send_all (s : socket) (buf : list Z) :
  sock_plan s = [] ->
  send s buf
  = (Z.of_nat (length buf),
     {| sock_in := sock_in s; sock_out := sock_out s ++ buf; sock_plan := [] |}).
Proof. intros Hplan. unfold send. rewrite Hplan. reflexivity. Qed.

Lemma send_frame_out (conn : HTTP2_CONNECTION) ty flags sid payload len :
  sock_plan (socket_ conn) = [] ->
  let conn' := (http2_send_frame conn ty flags sid payload len).2 in
  sock_out (socket_ conn')
  = sock_out (socket_ conn) ++ frame_bytes ty flags sid payload len
  /\ sock_in (socket_ conn') = sock_in (socket_ conn)
  /\ sock_plan (socket_ conn') = [].
Proof.
  intros Hplan. unfold http2_send_frame, frame_bytes.
  rewrite (send_all _ _ Hplan).
  change (negb (Z.of_nat (length (frame_header_bytes _ _ _ _)) =? 9)) with false.
  cbn iota.
  destruct payload as [p |]; [destruct (0 <? len) |].
  - rewrite send_all by reflexivity.
    destruct (negb _);
      cbn [snd with_socket socket_ sock_out sock_in sock_plan];
      rewrite <- app_assoc; done.
  - cbn [snd with_socket socket_ sock_out sock_in sock_plan].
    rewrite app_nil_r. done.
  - cbn [snd with_socket socket_ sock_out sock_in sock_plan].
    rewrite app_nil_r. done.
Qed.

(** C10.  Encode-then-parse round trip of the frame header: when
    [http2_send_frame] is called with a payload length below 2^24 and a
    stream identifier below 2^31 on a socket that takes the bytes, the
    bytes it appends to the socket start with a nine-byte header from
    which [http2_parse_frame_header] returns exactly the length, type,
    flags and stream identifier that were passed in. *)
Theorem frame_header_roundtrip
    (conn : HTTP2_CONNECTION) (ty : HTTP2_FRAME_TYPE) (flags sid len : Z)
    (payload : option (list Z)) :
  0 <= len < 2 ^ 24 -> 0 <= sid < 2 ^ 31 ->
  sock_plan (socket_ conn) = [] ->
  exists sent,
    sock_out (socket_ (http2_send_frame conn ty flags sid payload len).2)
      = sock_out (socket_ conn) ++ sent
    /\ take 9 sent = frame_header_bytes (frame_type_code ty) flags sid len
    /\ http2_parse_frame_header sent
       = Some {| fh_length := len; fh_type := frame_type_code ty;
                 fh_flags := flags; fh_stream_id := sid |}.
Proof.
  intros Hlen Hsid Hplan.
  exists (frame_bytes ty flags sid payload len). split; [| split].
  - apply send_frame_out, Hplan.
  - reflexivity.
  - apply parse_frame_header_bytes; lia.
Qed.

Lemma frame_header_roundtrip_witness :
  exists sent,
    sock_out (socket_ (http2_send_frame
                         (http2_connection_create
                            {| sock_in := []; sock_out := []; sock_plan := [] |})
                         HTTP2_FRAME_HEADERS 4 3 (Some [130; 132]) 2).2)
      = [] ++ sent
    /\ take 9 sent = frame_header_bytes 1 4 3 2
    /\ http2_parse_frame_header sent
       = Some {| fh_length := 2; fh_type := 1; fh_flags := 4;
                 fh_stream_id := 3 |}.
Proof.
  apply (frame_header_roundtrip
           (http2_connection_create
              {| sock_in := []; sock_out := []; sock_plan := [] |})
           HTTP2_FRAME_HEADERS 4 3 2 (Some [130; 132])); [lia | lia | reflexivity].
Defined.

End Http2_frame_header.

Section Http2_handshake.
Import Http2.
Local Open Scope Z_scope.

Lemma default_payload_is_spec :
  settings_entry HTTP2_SETTINGS_HEADER_TABLE_SIZE (default_settings !!! 1%nat) ++
  settings_entry HTTP2_SETTINGS_ENABLE_PUSH (default_settings !!! 2%nat) ++
  settings_entry HTTP2_SETTINGS_MAX_CONCURRENT_STREAMS (default_settings !!! 3%nat) ++
  settings_entry HTTP2_SETTINGS_INITIAL_WINDOW_SIZE (default_settings !!! 4%nat) ++
  settings_entry HTTP2_SETTINGS_MAX_FRAME_SIZE (default_settings !!! 5%nat) ++
  settings_entry HTTP2_SETTINGS_MAX_HEADER_LIST_SIZE (default_settings !!! 6%nat)
  = concat (spec_setting_wire <$> spec_default_settings).
Proof. reflexivity. Qed.

Lemma send_settings_default (conn : HTTP2_CONNECTION) :
  local_settings conn = default_settings ->
  sock_plan (socket_ conn) = [] ->
  let conn' := (http2_send_settings conn false).2 in
  sock_out (socket_ conn') = sock_out (socket_ conn) ++ spec_settings_frame
  /\ sock_in (socket_ conn') = sock_in (socket_ conn)
  /\ sock_plan (socket_ conn') = [].
Proof.
  intros Hls Hplan. unfold http2_send_settings. cbv zeta. rewrite Hls.
  rewrite default_payload_is_spec.
  destruct (send_frame_out conn HTTP2_FRAME_SETTINGS HTTP2_FLAG_NONE 0
              (Some (concat (spec_setting_wire <$> spec_default_settings)))
              (Z.of_nat (length (concat (spec_setting_wire <$> spec_default_settings))))
              Hplan) as (Hout & Hin & Hpl).
  split; [| done]. rewrite Hout. reflexivity.
Qed.

(** C2 (as the code has it).  Upon detecting the 24-byte preface on the
    socket, [http2_handle_connection] consumes the preface, marks the
    connection as HTTP/2, sends one SETTINGS frame (type 4, no flags,
    stream 0, 36 bytes of payload) carrying exactly the six defaults
    HEADER_TABLE_SIZE=4096, ENABLE_PUSH=1, MAX_CONCURRENT_STREAMS=100,
    INITIAL_WINDOW_SIZE=65535, MAX_FRAME_SIZE=16384,
    MAX_HEADER_LIST_SIZE=8192, and returns 0.  It sends nothing else, and
    whatever follows the preface stays unread in the receive queue. *)
Theorem preface_sends_default_settings (s : socket) :
  take HTTP2_PREFACE_LEN (sock_in s) = bytes_of_string HTTP2_PREFACE ->
  sock_plan s = [] ->
  let r := http2_handle_connection (http2_connection_create s) in
  r.1 = 0
  /\ preface_received r.2 = true
  /\ is_http2 r.2 = true
  /\ sock_out (socket_ r.2) = sock_out s ++ spec_settings_frame
  /\ sock_in (socket_ r.2) = drop HTTP2_PREFACE_LEN (sock_in s)
  /\ http2_parse_frame_header spec_settings_frame
     = Some {| fh_length := 36; fh_type := 4; fh_flags := 0; fh_stream_id := 0 |}
  /\ drop 9 spec_settings_frame
     = concat (spec_setting_wire <$> spec_default_settings).
Proof.
  intros Hpre Hplan. unfold http2_handle_connection.
  cbn [socket_ http2_connection_create].
  rewrite decide_True by (rewrite Hpre; split; reflexivity).
  cbv zeta. cbn [fst snd].
  match goal with
  | |- context [http2_send_settings ?c false] =>
      destruct (send_settings_default c eq_refl Hplan) as (Hout & Hin & _);
      assert (Hflags : preface_received (http2_send_settings c false).2 = true
                       /\ is_http2 (http2_send_settings c false).2 = true)
  end.
  { unfold http2_send_settings, http2_send_frame. cbv zeta.
    repeat match goal with
           | |- context [send ?a ?b] => destruct (send a b)
           | |- context [if ?b then _ else _] => destruct b
           end; done. }
  destruct Hflags as [Hp Hh].
  rewrite Hp, Hh, Hout, Hin. cbn [socket_ sock_out sock_in]. done.
Qed.

Lemma preface_sends_default_settings_witness :
  let r := http2_handle_connection (http2_connection_create client_hello) in
  r.1 = 0
  /\ preface_received r.2 = true
  /\ is_http2 r.2 = true
  /\ sock_out (socket_ r.2) = sock_out client_hello ++ spec_settings_frame
  /\ sock_in (socket_ r.2) = drop HTTP2_PREFACE_LEN (sock_in client_hello)
  /\ http2_parse_frame_header spec_settings_frame
     = Some {| fh_length := 36; fh_type := 4; fh_flags := 0; fh_stream_id := 0 |}
  /\ drop 9 spec_settings_frame
     = concat (spec_setting_wire <$> spec_default_settings).
Proof.
  apply (preface_sends_default_settings client_hello); reflexivity.
Defined.

(** C2, as stated, fails: for a client that sent the preface and an
    empty SETTINGS frame, the server's output stops after its own SETTINGS
    frame and the client's frame is still unread. *)
Lemma handshake_has_no_ack :
  ~ handshake_as_specified client_hello
      (socket_ (http2_handle_connection (http2_connection_create client_hello)).2).
Proof.
  intros (h & peer & rest & _ & _ & _ & _ & _ & Hout).
  vm_compute in Hout. discriminate Hout.
Qed.

End Http2_handshake.

Section Route_matching.
Import Http Route.

Lemma str_take_length (n : nat) (s : string) :
  n <= String.length s -> String.length (str_take n s) = n.
Proof.
  revert s. induction n as [| n IH]; intros [| c r] Hn; cbn in *; try lia.
  rewrite IH by lia. reflexivity.
Qed.

Lemma str_drop_length (n : nat) (s : string) :
  String.length (str_drop n s) = String.length s - n.
Proof.
  revert s. induction n as [| n IH]; intros [| c r]; cbn; try lia. apply IH.
Qed.

Lemma segment_length_cons (c : ascii) (r : string) :
  segment_length (String c r)
  = if Ascii.eqb c "/" then 0 else S (segment_length r).
Proof.
  unfold segment_length. cbn [strchr].
  destruct (Ascii.eqb c "/"); [reflexivity |].
  destruct (strchr r "/"); reflexivity.
Qed.

Lemma segment_length_le (s : string) : segment_length s <= String.length s.
Proof.
  induction s as [| c r IH]; [cbn; lia |].
  rewrite segment_length_cons. destruct (Ascii.eqb c "/"); cbn; lia.
Qed.

Lemma skip_slash_length (s : string) :
  String.length (skip_slash s) <= String.length s.
Proof. destruct s as [| c r]; cbn; [lia |]. destruct (Ascii.eqb c "/"); cbn; lia. Qed.

(** Each round of the walk shortens what is left of a non-empty string. *)
Lemma next_segment_shorter (s : string) :
  s <> EmptyString ->
  String.length (next_segment s (segment_length s)) < String.length s.
Proof.
  destruct s as [| c r]; [done | intros _].
  rewrite segment_length_cons. unfold next_segment.
  destruct (Ascii.eqb c "/") eqn:Hc.
  - cbn [str_drop skip_slash]. rewrite Hc. cbn. lia.
  - cbn [str_drop]. pose proof (skip_slash_length (str_drop (segment_length r) r)).
    rewrite str_drop_length in H. cbn. lia.
Qed.

Lemma segments_nil (s : string) : segments s = [] <-> s = EmptyString.
Proof.
  split; [| intros ->; reflexivity].
  destruct s as [| c r]; [done |]. cbn.
  destruct (Ascii.eqb c "/"); [done |]. destruct (segments r); done.
Qed.

(** The first segment and the rest, as the walk computes them. *)
Lemma segments_unfold (s : string) :
  s <> EmptyString ->
  segments s
  = str_take (segment_length s) s :: segments (next_segment s (segment_length s)).
Proof.
  induction s as [| c r IH]; [done | intros _].
  rewrite segment_length_cons. unfold next_segment. cbn [segments].
  destruct (Ascii.eqb c "/") eqn:Hc.
  - cbn [str_take str_drop skip_slash]. rewrite Hc. reflexivity.
  - cbn [str_take str_drop]. fold (next_segment r (segment_length r)).
    destruct r as [| c' r'].
    + reflexivity.
    + rewrite IH by done. reflexivity.
Qed.

Lemma starts_with_colon_segment (s : string) :
  starts_with ":" (str_take (segment_length s) s) = starts_with ":" s.
Proof.
  destruct s as [| c r]; [reflexivity |].
  rewrite segment_length_cons.
  destruct (Ascii.eqb c "/") eqn:Hc; [| reflexivity].
  apply Ascii.eqb_eq in Hc. subst c. reflexivity.
Qed.

Lemma literal_test_is_equality (pattern_ptr path_ptr : string) :
  Nat.eqb (segment_length pattern_ptr) (segment_length path_ptr)
  && String.eqb (str_take (segment_length pattern_ptr) pattern_ptr)
                (str_take (segment_length pattern_ptr) path_ptr)
  = String.eqb (str_take (segment_length pattern_ptr) pattern_ptr)
               (str_take (segment_length path_ptr) path_ptr).
Proof.
  destruct (Nat.eqb_spec (segment_length pattern_ptr) (segment_length path_ptr))
    as [Heq | Hne].
  - rewrite Heq. reflexivity.
  - symmetry. apply String.eqb_neq. intros Heq.
    apply (f_equal String.length) in Heq.
    rewrite !str_take_length in Heq by apply segment_length_le. done.
Qed.

(** With fuel above the length of the pattern, the loop computes the
    pairwise comparison of the segments of pattern and path. *)
Lemma match_segments_all2 (fuel : nat) (pattern_ptr path_ptr : string) :
  String.length pattern_ptr < fuel ->
  match_segments fuel pattern_ptr path_ptr
  = all2 segment_ok (segments pattern_ptr) (segments path_ptr).
Proof.
  revert pattern_ptr path_ptr.
  induction fuel as [| fuel IH]; intros pattern_ptr path_ptr Hfuel; [lia |].
  cbn [match_segments].
  destruct pattern_ptr as [| pc pr] eqn:Hpat.
  { destruct path_ptr as [| sc sr]; [reflexivity |].
    rewrite (segments_unfold (String sc sr)) by done. reflexivity. }
  destruct path_ptr as [| sc sr] eqn:Hpath.
  { cbn [str_is_empty negb andb].
    rewrite (segments_unfold (String pc pr)) by done. reflexivity. }
  cbn [str_is_empty negb andb]. cbv zeta.
  rewrite <- Hpat, <- Hpath.
  assert (Hp : pattern_ptr <> EmptyString) by (subst; done).
  assert (Hs : path_ptr <> EmptyString) by (subst; done).
  rewrite (segments_unfold pattern_ptr Hp), (segments_unfold path_ptr Hs).
  cbn [all2]. unfold segment_ok at 1.
  rewrite starts_with_colon_segment, literal_test_is_equality.
  destruct (_ || _); [| reflexivity]. cbn [andb].
  apply IH. pose proof (next_segment_shorter pattern_ptr Hp). subst. lia.
Qed.

(** Scenario S2: [/api/users/:id] takes [/api/users/42] and binds [id]. *)
Example route_users_id :
  let route := http_route_create HTTP_METHOD_GET "/api/users/:id" (answer "user") 0 in
  http_route_matches route HTTP_METHOD_GET "/api/users/42" = true
  /\ http_route_matches route HTTP_METHOD_GET "/api/users/" = false
  /\ http_route_matches route HTTP_METHOD_POST "/api/users/42" = false
  /\ path_params (http_route_extract_params route "/api/users/42"
                    (bare_request HTTP_METHOD_GET "/api/users/42"))
     = [{| name := "id"; value := "42" |}].
Proof. repeat split; reflexivity. Qed.

(** The segments of the walk are the pieces between the '/' characters,
    but for an empty piece at the very end: a '/' that ends the string
    ends a segment and starts none. *)
Lemma segments_split (s : string) :
  segments s = without_last_empty (split_slash s).
Proof.
  induction s as [| c r IH]; [reflexivity |]. cbn [segments split_slash].
  rewrite IH. destruct (Ascii.eqb c "/").
  - destruct (split_slash r) as [| piece pieces] eqn:Hr; [| reflexivity].
    destruct r as [| c' r']; cbn in Hr; [discriminate |].
    destruct (Ascii.eqb c' "/"); [discriminate |].
    destruct (split_slash r'); discriminate.
  - destruct (split_slash r) as [| piece [| piece' pieces]]; [reflexivity | |].
    + destruct piece; reflexivity.
    + reflexivity.
Qed.

(** A '/' at the end of the path starts no segment: [/users/:id] does
    not take [/users/], whose only segment is [users], and takes
    [/users/5/] as it takes [/users/5]. *)
Example route_trailing_slash :
  let route := http_route_create HTTP_METHOD_GET "/users/:id" (answer "user") 0 in
  http_route_matches route HTTP_METHOD_GET "/users/" = false
  /\ http_route_matches route HTTP_METHOD_GET "/users/5/" = true
  /\ http_route_matches route HTTP_METHOD_GET "/users/5" = true
  /\ http_route_matches route HTTP_METHOD_GET "/users//" = true
  /\ segments (skip_slash "/users/") = ["users"]
  /\ segments (skip_slash "/users/5/") = ["users"; "5"]
  /\ segments (skip_slash "/users//") = ["users"; ""]
  /\ split_slash (skip_slash "/users/5/") = ["users"; "5"; ""].
Proof. repeat split; reflexivity. Qed.

(** C6 (as the code has it).  [http_route_matches] succeeds exactly when
    the methods agree and either the pattern equals the path byte for
    byte, or the pattern contains a ':' and, after one leading '/' has
    been stripped from both, the segments of pattern and path pair up one
    to one, run out together, and in every pair the pattern segment begins
    with ':' (it then takes any path segment, an empty one included) or
    is byte-equal to the path segment.  The segments of a string are those
    of [segments]: the pieces between its '/' characters, each ended by a
    '/' or by the end of the string, where nothing behind the last '/'
    counts as a segment when the string ends there ([segments_split]); so
    [/users/:id] does not match [/users/] and matches [/users/5/]. *)
Theorem route_matches_by_segments (route : HTTP_ROUTE) (m : HTTP_METHOD)
    (p : string) :
  http_route_matches route m p = true <->
  method route = m
  /\ (path route = p
      \/ (is_Some (strchr (path route) ":")
          /\ all2 segment_ok (segments (skip_slash (path route)))
                             (segments (skip_slash p)) = true)).
Proof.
  unfold http_route_matches.
  rewrite match_segments_all2
    by (pose proof (skip_slash_length (path route)); lia).
  destruct (decide (method route = m)) as [Hm | Hm].
  2: { rewrite bool_decide_eq_false_2 by done. cbn. intuition congruence. }
  rewrite bool_decide_eq_true_2 by done. cbn [negb].
  destruct (String.eqb_spec (path route) p) as [Hp | Hp]; [intuition congruence |].
  destruct (decide (is_Some (strchr (path route) ":"))) as [Hc | Hc].
  - rewrite bool_decide_eq_true_2 by done. cbn [negb]. intuition congruence.
  - rewrite bool_decide_eq_false_2 by done. cbn [negb]. intuition congruence.
Qed.

(** C6, as stated, fails: the parameter segment [:id] of [/a/:id/b] is
    matched against the empty second segment of [/a//b]; matching in the
    words of the specification rejects that path. *)
Lemma param_matches_empty_segment :
  http_route_matches route_a_id_b HTTP_METHOD_GET "/a//b" = true
  /\ segments (skip_slash (path route_a_id_b)) = ["a"; ":id"; "b"]
  /\ segments (skip_slash "/a//b") = ["a"; ""; "b"]
  /\ spec_route_matches route_a_id_b HTTP_METHOD_GET "/a//b" = false.
Proof. repeat split; reflexivity. Qed.

End Route_matching.

Section Url_decode.
Import Codec.
Local Open Scope Z_scope.

Example url_decode_hello :
  url_decode "a%20b+c%2Fd" 512 = "a b c/d"%string.
Proof. reflexivity. Qed.

(** A hexadecimal digit is neither white space nor a sign. *)
Lemma hex_digit_plain (h : ascii) (v : Z) :
  hex_digit_value h = Some v ->
  isspace h = false /\ Ascii.eqb h "-" = false /\ Ascii.eqb h "+" = false.
Proof.
  destruct h as [[] [] [] [] [] [] [] []]; vm_compute; intros H;
    first [discriminate H | repeat split].
Qed.

Lemma strtol16_two_digits (h1 h2 : ascii) (v1 v2 : Z) :
  hex_digit_value h1 = Some v1 -> hex_digit_value h2 = Some v2 ->
  strtol16 (String h1 (String h2 EmptyString)) = 16 * v1 + v2.
Proof.
  intros H1 H2. destruct (hex_digit_plain h1 v1 H1) as (Hsp & Hm & Hp).
  unfold strtol16. cbn [skip_spaces]. rewrite Hsp, Hm, Hp.
  cbn [hex_digits]. rewrite H1, H2. lia.
Qed.

(** The parts of the decoder that work: a sequence %HH of two
    hexadecimal digits becomes the byte of value HH, a '+' becomes a space,
    and a '%' with fewer than two characters behind it is copied. *)
Lemma url_decode_valid_sequence (room : nat) (h1 h2 : ascii) (v1 v2 : Z)
    (rest : string) :
  hex_digit_value h1 = Some v1 -> hex_digit_value h2 = Some v2 ->
  url_decode_loop (S room) (String "%" (String h1 (String h2 rest)))
  = String (ascii_of_N (Z.to_N (16 * v1 + v2))) (url_decode_loop room rest).
Proof.
  intros H1 H2. cbn [url_decode_loop]. cbn [Ascii.eqb Bool.eqb].
  rewrite (strtol16_two_digits h1 h2 v1 v2 H1 H2).
  unfold char_of_long. rewrite Z.mod_small; [reflexivity |].
  assert (0 <= v1 < 16 /\ 0 <= v2 < 16) as [? ?]; [| lia].
  unfold hex_digit_value in H1, H2.
  repeat match goal with
         | H : (if ?b then _ else _) = Some _ |- _ => destruct b eqn:?
         end; simplify_eq; lia.
Qed.

Lemma url_decode_plus (room : nat) (rest : string) :
  url_decode_loop (S room) (String "+" rest)
  = String " " (url_decode_loop room rest).
Proof. cbn [url_decode_loop]. destruct rest as [| ? [| ? ?]]; reflexivity. Qed.

Lemma url_decode_loop_empty (room : nat) :
  url_decode_loop room EmptyString = EmptyString.
Proof. destruct room; reflexivity. Qed.

Lemma url_decode_short_percent (room : nat) :
  url_decode_loop (S room) "%" = "%"%string
  /\ forall c, c <> "+"%char ->
       url_decode_loop (S (S room)) (String "%" (String c EmptyString))
       = String "%" (String c EmptyString).
Proof.
  split.
  - cbn [url_decode_loop]. rewrite url_decode_loop_empty. reflexivity.
  - intros c Hplus. cbn [url_decode_loop].
    apply Ascii.eqb_neq in Hplus. rewrite Hplus.
    rewrite url_decode_loop_empty. reflexivity.
Qed.

(** C3, where the code departs from it: a '%' followed by two
    characters that are not hexadecimal digits is not left in the output;
    the three characters are replaced by the single byte [strtol] returns
    for them, a NUL for "%zz", which ends the decoded C string. *)
Theorem url_decode_invalid_percent :
  url_decode "%zz" 512 = String zero EmptyString
  /\ url_decode "a%zzb" 512 = String "a" (String zero (String "b" EmptyString))
  /\ c_string (url_decode "a%zzb" 512) = "a"%string
  /\ url_decode "%4G" 512 = String (ascii_of_nat 4) EmptyString.
Proof. repeat split; reflexivity. Qed.

End Url_decode.

Section Response_headers.
Import Http Codec.

Lemma do_call_headers (r : HTTP_RESPONSE) (c : response_call) :
  headers (do_call r c) = headers r ++ header_added c.
Proof. destruct c; cbn; rewrite ?app_nil_r; reflexivity. Qed.

Lemma do_calls_headers (r : HTTP_RESPONSE) (calls : list response_call) :
  headers (do_calls r calls) = headers r ++ concat (header_added <$> calls).
Proof.
  unfold do_calls. revert r.
  induction calls as [| c calls IH]; intros r; cbn [foldl fmap list_fmap concat].
  - rewrite app_nil_r. reflexivity.
  - rewrite IH, do_call_headers, <- app_assoc. reflexivity.
Qed.

Lemma values_of_app (n : string) (hs1 hs2 : list HTTP_HEADER) :
  values_of n (hs1 ++ hs2) = values_of n hs1 ++ values_of n hs2.
Proof. unfold values_of. rewrite list.filter_app, fmap_app. reflexivity. Qed.

Lemma str_take_all (n : nat) (s : string) :
  String.length s <= n -> str_take n s = s.
Proof.
  revert s. induction n as [| n IH]; intros [| c s] Hn; cbn in *; try reflexivity;
    try lia.
  rewrite IH by lia. reflexivity.
Qed.

(** A call whose name and value fit adds the header as it was passed. *)
Lemma header_added_passed (c : response_call) :
  call_fits c -> header_added c = header_passed c.
Proof.
  destruct c as [st | n v | b | j | t]; try reflexivity.
  intros [Hn Hv]. cbn [header_added header_passed]. unfold store_pair.
  rewrite !str_take_all by lia. reflexivity.
Qed.

Lemma headers_added_passed (calls : list response_call) :
  Forall call_fits calls ->
  concat (header_added <$> calls) = concat (header_passed <$> calls).
Proof.
  induction 1 as [| c calls Hc _ IH]; [reflexivity |].
  cbn [fmap list_fmap concat]. rewrite (header_added_passed c Hc).
  f_equal. exact IH.
Qed.

(** C4 (as the code has it).  The headers of every response a handler
    leaves behind are the two defaults, [Server: <identity>] and
    [Connection: close], followed by the headers the handler's calls
    added, in order and as they were passed.  Nothing replaces a header:
    under the names Server and Connection the response carries the default
    first and then every value the handler set.  The names the handler
    passes are shorter than 127 characters and the values shorter than 511,
    so that [http_response_add_header] stores them whole and with their
    terminators in any slot, the ones from [realloc] included. *)
Theorem response_headers_after_calls (calls : list response_call) :
  Forall call_fits calls ->
  let r := do_calls http_response_create calls in
  let added := concat (header_added <$> calls) in
  headers r = default_headers ++ added
  /\ added = concat (header_passed <$> calls)
  /\ values_of "Server" (headers r)
     = "Equinox/1.0 (HTTP/1.1, HTTP/2)" :: values_of "Server" added
  /\ values_of "Connection" (headers r)
     = "close" :: values_of "Connection" added.
Proof.
  intros Hfit. cbv zeta. rewrite do_calls_headers.
  change (headers http_response_create) with default_headers.
  rewrite !values_of_app. repeat split; try reflexivity.
  apply headers_added_passed, Hfit.
Qed.

Lemma response_headers_after_calls_witness :
  let calls := [call_add_header "Server" "nginx"; call_set_text "hello";
                call_add_header "X-Request-Id" "17"] in
  Forall call_fits calls
  /\ headers (do_calls http_response_create calls)
     = [ {| name := "Server"; value := "Equinox/1.0 (HTTP/1.1, HTTP/2)" |};
         {| name := "Connection"; value := "close" |};
         {| name := "Server"; value := "nginx" |};
         {| name := "Content-Type"; value := "text/plain" |};
         {| name := "X-Request-Id"; value := "17" |} ]
  /\ values_of "Server" (headers (do_calls http_response_create calls))
     = ["Equinox/1.0 (HTTP/1.1, HTTP/2)"; "nginx"]%string.
Proof.
  cbv zeta.
  assert (Hfit : Forall call_fits
                   [call_add_header "Server" "nginx"; call_set_text "hello";
                    call_add_header "X-Request-Id" "17"]).
  { repeat constructor; cbn; lia. }
  destruct (response_headers_after_calls _ Hfit) as (Hh & _ & Hs & _).
  split; [exact Hfit |]. split.
  - rewrite Hh. reflexivity.
  - rewrite Hs. reflexivity.
Defined.

(** C4, as stated, fails: a handler that sets a Server header gets a
    response with two of them, the default and its own. *)
Lemma handler_server_header_is_duplicated :
  let calls := [call_add_header "Server" "nginx"] in
  ~ header_as_specified "Server" "Equinox/1.0 (HTTP/1.1, HTTP/2)" calls
      (do_calls http_response_create calls).
Proof. cbv zeta. unfold header_as_specified. vm_compute. discriminate. Qed.

End Response_headers.

Section Strings.

Lemma str_app_cons (c : ascii) (s t : string) :
  String c s +:+ t = String c (s +:+ t).
Proof. reflexivity. Qed.

Lemma str_app_nil_r (s : string) : s +:+ "" = s.
Proof. induction s as [| c s IH]; [reflexivity |]. rewrite str_app_cons, IH. reflexivity. Qed.

Lemma str_app_assoc (s t u : string) : (s +:+ t) +:+ u = s +:+ t +:+ u.
Proof.
  induction s as [| c s IH]; [reflexivity |].
  rewrite !str_app_cons, IH. reflexivity.
Qed.

Lemma str_length_app (s t : string) :
  String.length (s +:+ t) = String.length s + String.length t.
Proof.
  induction s as [| c s IH]; [reflexivity |].
  rewrite str_app_cons. cbn [String.length]. rewrite IH. reflexivity.
Qed.

Lemma prefix_app (p s : string) : String.prefix p (p +:+ s) = true.
Proof.
  induction p as [| c p IH]; [destruct s; reflexivity |].
  rewrite str_app_cons. cbn [String.prefix].
  destruct (ascii_dec c c); [exact IH | done].
Qed.




End Strings.

Section Decimal.
Import Codec.
Local Open Scope N_scope.







End Decimal.

Section Serialisation.
Import Http Codec.
Variable heap : nat -> ascii.

















End Serialisation.

Section Blank_line.
Import Http Codec.

















End Blank_line.

Section Path_traversal.
Import Http Server Static.
Local Open Scope Z_scope.

Lemma prefix_split (p s : string) :
  String.prefix p s = true -> exists back, s = p +:+ back.
Proof.
  revert s. induction p as [| c p IH]; intros s Hp.
  - exists s. reflexivity.
  - destruct s as [| c' s]; [discriminate Hp |]. cbn [String.prefix] in Hp.
    destruct (ascii_dec c c') as [-> | _]; [| discriminate Hp].
    destruct (IH s Hp) as [back ->]. exists back. reflexivity.
Qed.

(** The test [strstr(s, needle) != NULL] finds exactly the substrings. *)
Lemma str_contains_substring (needle s : string) :
  str_contains needle s = true <-> has_substring needle s.
Proof.
  split.
  - induction s as [| c s IH]; cbn [str_contains]; intros H;
      apply orb_true_iff in H as [Hp | Hrest]; try discriminate Hrest.
    + destruct (prefix_split _ _ Hp) as [back Hb]. exists ""%string, back. exact Hb.
    + destruct (prefix_split _ _ Hp) as [back Hb]. exists ""%string, back. exact Hb.
    + destruct (IH Hrest) as (front & back & ->).
      exists (String c front), back. reflexivity.
  - intros (front & back & ->). induction front as [| c front IH].
    + change ("" +:+ needle +:+ back) with (needle +:+ back).
      destruct (needle +:+ back) eqn:Heq; cbn [str_contains];
        rewrite <- Heq, prefix_app; reflexivity.
    + rewrite str_app_cons. cbn [str_contains]. rewrite IH. apply orb_true_r.
Qed.

(** C8.  Whenever the static file server resolves a request path to a
    file system path that contains "..", it sets the status 403
    Forbidden (with the text "403 Forbidden"), returns 0, and calls
    [fopen] for no path. *)
Theorem traversal_is_forbidden (fs : filesystem) (server : HTTP_SERVER)
    (url_path file_path : string) (response : HTTP_RESPONSE) :
  resolved_path server url_path = Some file_path ->
  has_substring ".." file_path ->
  let '(ret, response', opened) :=
    serve_static_file fs server url_path response in
  ret = 0
  /\ status response' = HTTP_STATUS_FORBIDDEN
  /\ body response' = "403 Forbidden"%string
  /\ opened = [].
Proof.
  intros Hres Hdots. unfold serve_static_file. rewrite Hres.
  apply str_contains_substring in Hdots. rewrite Hdots. done.
Qed.

Lemma traversal_is_forbidden_witness :
  resolved_path public_server "/../etc/passwd" = Some "./public/../etc/passwd"%string
  /\ has_substring ".." "./public/../etc/passwd"
  /\ let '(ret, response', opened) :=
       serve_static_file no_files public_server "/../etc/passwd"
         http_response_create in
     ret = 0
     /\ status response' = HTTP_STATUS_FORBIDDEN
     /\ body response' = "403 Forbidden"%string
     /\ opened = [].
Proof.
  assert (Hres : resolved_path public_server "/../etc/passwd"
                 = Some "./public/../etc/passwd"%string) by reflexivity.
  assert (Hdots : has_substring ".." "./public/../etc/passwd")
    by (exists "./public/"%string, "/etc/passwd"%string; reflexivity).
  split; [exact Hres |]. split; [exact Hdots |].
  exact (traversal_is_forbidden no_files public_server "/../etc/passwd"
           "./public/../etc/passwd" http_response_create Hres Hdots).
Defined.

End Path_traversal.

Section Dispatch.
Import Http Route Server Reactor.
Variable fs : Static.filesystem.

Lemma find_route_first (rs : list HTTP_ROUTE) (i0 : nat) (m : HTTP_METHOD)
    (p : string) (k : nat) (r : HTTP_ROUTE) :
  rs !! k = Some r ->
  http_route_matches r m p = true ->
  (forall j r', j < k -> rs !! j = Some r' -> http_route_matches r' m p = false) ->
  find_route rs i0 m p = Some (i0 + k, r).
Proof.
  revert i0 k. induction rs as [| r0 rs IH]; intros i0 k Hk Hm Hfirst; [done |].
  cbn [find_route]. destruct k as [| k].
  - cbn in Hk. simplify_eq. rewrite Hm. f_equal. f_equal. lia.
  - rewrite (Hfirst 0 r0) by (cbn; done || lia).
    rewrite (IH (S i0) k Hk Hm).
    + f_equal. f_equal. lia.
    + intros j r' Hj Hr'. apply (Hfirst (S j) r'); [lia | exact Hr'].
Qed.

Lemma find_route_none (rs : list HTTP_ROUTE) (i0 : nat) (m : HTTP_METHOD)
    (p : string) :
  (forall r, r ∈ rs -> http_route_matches r m p = false) ->
  find_route rs i0 m p = None.
Proof.
  revert i0. induction rs as [| r0 rs IH]; intros i0 Hnone; [done |].
  cbn [find_route]. rewrite (Hnone r0) by apply list_elem_of_here.
  apply IH. intros r Hr. apply Hnone. apply list_elem_of_further, Hr.
Qed.

(** C5.  Whatever the route table and the request: when some route
    matches, the dispatch step calls the handler of the first matching
    route in registration order, with the path parameters extracted for
    that route, and calls no other handler; when no route matches it calls
    no handler at all. *)
Theorem dispatch_first_match (server : HTTP_SERVER) (request : HTTP_REQUEST)
    (response : HTTP_RESPONSE) :
  let m := req_method request in
  let p := req_path request in
  (forall i route,
      routes server !! i = Some route ->
      http_route_matches route m p = true ->
      (forall j r', j < i -> routes server !! j = Some r' ->
                    http_route_matches r' m p = false) ->
      dispatch fs server request response
      = (handler route (http_route_extract_params route p request) response
           (route_user_data route),
         [act_handler i]))
  /\ ((forall route, route ∈ routes server -> http_route_matches route m p = false) ->
      forall i, act_handler i ∉ (dispatch fs server request response).2).
Proof.
  cbv zeta. split.
  - intros i route Hi Hm Hfirst. unfold dispatch.
    rewrite (find_route_first _ 0 _ _ i route Hi Hm Hfirst). reflexivity.
  - intros Hnone i. unfold dispatch. rewrite (find_route_none _ 0 _ _ Hnone).
    destruct (Static.serve_static_file _ _ _ _) as [[ret response'] opened].
    cbn [snd]. intros Hin. apply list_elem_of_fmap in Hin as (path & Heq & _).
    discriminate Heq.
Qed.

Example dispatch_two_routes :
  let request := bare_request HTTP_METHOD_GET "/users/me" in
  let '(response, acts) := dispatch fs two_routes request http_response_create in
  acts = [act_handler 0] /\ body response = "by id"%string.
Proof. split; reflexivity. Qed.

End Dispatch.

Section Connection_bound.
Import Http Route Server Reactor.
Variable fs : Static.filesystem.
Variable heap : nat -> ascii.
Variable parse_http_request : string -> option HTTP_REQUEST.

Lemma no_growth_refl (s : HTTP_SERVER) : no_growth s s.
Proof. split; lia. Qed.

Lemma no_growth_trans (s1 s2 s3 : HTTP_SERVER) :
  no_growth s1 s2 -> no_growth s2 s3 -> no_growth s1 s3.
Proof. intros [? ?] [? ?]. split; lia. Qed.

Lemma remove_connection_no_growth (s : HTTP_SERVER) (fd : Z) :
  no_growth s (remove_connection s fd).1.
Proof.
  unfold remove_connection. destruct (find_connection s fd) as [[i c] |];
    [| apply no_growth_refl].
  split; [reflexivity |]. unfold connection_count. cbn.
  rewrite length_take. lia.
Qed.

Lemma set_connection_count (s : HTTP_SERVER) (i : nat) (c : CONNECTION_STATE) :
  max_connections (set_connection s i c) = max_connections s
  /\ connection_count (set_connection s i c) = connection_count s.
Proof. split; [reflexivity |]. unfold connection_count. cbn. apply length_insert. Qed.

Lemma set_connection_no_growth (s : HTTP_SERVER) (i : nat) (c : CONNECTION_STATE) :
  no_growth s (set_connection s i c).
Proof. destruct (set_connection_count s i c). split; lia. Qed.

Lemma process_http_request_no_growth (s : HTTP_SERVER) (c : CONNECTION_STATE) :
  no_growth s (process_http_request fs heap parse_http_request s c).1.
Proof.
  unfold process_http_request.
  repeat match goal with
         | |- context [if ?b then _ else _] => destruct b
         | |- context [match parse_http_request ?x with _ => _ end] =>
             destruct (parse_http_request x)
         | |- context [let '(_, _) := dispatch ?a ?b ?c ?d in _] =>
             destruct (dispatch a b c d)
         end;
    try apply no_growth_refl; try apply remove_connection_no_growth.
  pose proof (remove_connection_no_growth s (socket c)) as H.
  destruct (remove_connection s (socket c)). exact H.
Qed.

Lemma handle_client_data_no_growth (s : HTTP_SERVER) (fd : Z) (r : recv_result)
    (queued : list Z) (now : Z) :
  no_growth s (handle_client_data fs heap parse_http_request s fd r queued now).1.
Proof.
  unfold handle_client_data.
  destruct (find_connection s fd) as [[i c] |]; [| apply no_growth_refl].
  destruct r as [[] | bytes];
    try apply no_growth_refl; try apply remove_connection_no_growth.
  cbv zeta.
  destruct (String.length _ =? 0); [apply remove_connection_no_growth |].
  destruct (_ && _).
  - match goal with
    | |- context [remove_connection ?s1 fd] =>
        pose proof (remove_connection_no_growth s1 fd) as H;
        destruct (remove_connection s1 fd)
    end.
    cbn [fst] in *.
    eapply no_growth_trans; [apply set_connection_no_growth | exact H].
  - destruct (negb _).
    + eapply no_growth_trans;
        [apply set_connection_no_growth | apply process_http_request_no_growth].
    + apply set_connection_no_growth.
Qed.

Lemma no_growth_within_bound (s s' : HTTP_SERVER) :
  within_bound s -> no_growth s s' -> within_bound s'.
Proof. intros [? ?] [? ?]. split; lia. Qed.

Lemma add_connection_within_bound (s s' : HTTP_SERVER) (fd now : Z) :
  within_bound s -> add_connection s fd now = Some s' -> within_bound s'.
Proof.
  intros [Hb Hmax]. unfold add_connection.
  destruct (Nat.leb_spec (max_connections s) (connection_count s)); [done |].
  intros [= <-]. unfold within_bound, connection_count in *. cbn.
  rewrite length_app. cbn. lia.
Qed.

Lemma accept_one_within_bound (s : HTTP_SERVER) (a : accepted) (now : Z) :
  within_bound s -> within_bound (accept_one now s a).1.
Proof.
  intros Hs. unfold accept_one. destruct (negb (nonblocking_ok a)); [exact Hs |].
  destruct (add_connection s (client_socket a) now) as [s' |] eqn:Hadd; [| exact Hs].
  pose proof (add_connection_within_bound _ _ _ _ Hs Hadd) as Hs'.
  destruct (negb (epoll_ok a)); [| exact Hs'].
  eapply no_growth_within_bound; [exact Hs' | apply remove_connection_no_growth].
Qed.

Lemma accept_new_connection_within_bound (pending : list accepted)
    (s : HTTP_SERVER) (now : Z) :
  within_bound s -> within_bound (accept_new_connection s pending now).1.
Proof.
  revert s. induction pending as [| a pending IH]; intros s Hs; [exact Hs |].
  cbn [accept_new_connection].
  pose proof (accept_one_within_bound s a now Hs) as H1.
  destruct (accept_one now s a) as [s1 acts1]. cbn [fst] in H1.
  specialize (IH s1 H1). destruct (accept_new_connection s1 pending now). exact IH.
Qed.

Lemma handle_event_within_bound (s : HTTP_SERVER) (e : ready_event) (now : Z) :
  within_bound s ->
  within_bound (handle_event fs heap parse_http_request now s e).1.
Proof.
  intros Hs. destruct e; cbn [handle_event].
  - apply accept_new_connection_within_bound, Hs.
  - eapply no_growth_within_bound; [exact Hs | apply remove_connection_no_growth].
  - eapply no_growth_within_bound; [exact Hs | apply handle_client_data_no_growth].
  - exact Hs.
Qed.

Lemma handle_events_within_bound (es : list ready_event) (s : HTTP_SERVER)
    (now : Z) :
  within_bound s ->
  within_bound (handle_events fs heap parse_http_request now s es).1.
Proof.
  revert s. induction es as [| e es IH]; intros s Hs; [exact Hs |].
  cbn [handle_events].
  pose proof (handle_event_within_bound s e now Hs) as H1.
  destruct (handle_event _ _ _ now s e) as [s1 acts1]. cbn [fst] in H1.
  specialize (IH s1 H1). destruct (handle_events _ _ _ now s1 es). exact IH.
Qed.

Lemma idle_sweep_no_growth (fuel i : nat) (now : Z) (s : HTTP_SERVER) :
  no_growth s (idle_sweep fuel i now s).1.
Proof.
  revert i s. induction fuel as [| fuel IH]; intros i s; [apply no_growth_refl |].
  cbn [idle_sweep]. destruct (connection_states s !! i) as [c |];
    [| apply no_growth_refl].
  destruct (60 <? now - last_activity c)%Z; [| apply IH].
  pose proof (remove_connection_no_growth s (socket c)) as H1.
  destruct (remove_connection s (socket c)) as [s1 acts1]. cbn [fst] in H1.
  specialize (IH i s1). destruct (idle_sweep fuel i now s1).
  eapply no_growth_trans; [exact H1 | exact IH].
Qed.

Lemma reactor_step_within_bound (s : HTTP_SERVER) (op : reactor_op) :
  within_bound s ->
  within_bound (reactor_step fs heap parse_http_request s op).
Proof.
  intros Hs. destruct op; cbn [reactor_step].
  - exact Hs.
  - exact Hs.
  - unfold http_server_start. destruct (running s); [exact Hs |].
    destruct o; exact Hs.
  - unfold run_iteration. destruct (negb (running s)); [exact Hs |].
    pose proof (handle_events_within_bound es s now Hs) as H1.
    destruct (handle_events _ _ _ now s es) as [s1 acts1]. cbn [fst] in H1.
    pose proof (idle_sweep_no_growth (connection_count s1) 0 now s1) as H2.
    destruct (idle_sweep _ 0 now s1).
    eapply no_growth_within_bound; [exact H1 | exact H2].
  - apply handle_event_within_bound, Hs.
  - eapply no_growth_within_bound; [exact Hs | apply idle_sweep_no_growth].
  - unfold http_server_stop. destruct (negb (running s)); [exact Hs |].
    destruct Hs as [? Hmax]. split; [cbn; lia | exact Hmax].
Qed.

Lemma reachable_within_bound (s : HTTP_SERVER) :
  reachable fs heap parse_http_request s -> within_bound s.
Proof.
  intros [ops ->].
  induction ops as [| op ops IH] using rev_ind.
  - split; [cbn; lia | reflexivity].
  - rewrite foldl_app. cbn [foldl]. apply reactor_step_within_bound, IH.
Qed.

(** C9.  In every state the reactor can reach, the number of live
    connections is at most [max_connections], which is the 1000 set at
    creation; and when the table is full, an accepted connection gets no
    record: its socket is closed at once and the server, with its table
    and its running flag, is left as it was. *)
Theorem connection_count_bounded (server : HTTP_SERVER) :
  reachable fs heap parse_http_request server ->
  connection_count server <= max_connections server
  /\ max_connections server = 1000
  /\ forall (a : accepted) (now : Z),
       max_connections server <= connection_count server ->
       add_connection server (client_socket a) now = None
       /\ accept_one now server a = (server, [act_close (client_socket a)]).
Proof.
  intros Hreach. destruct (reachable_within_bound server Hreach) as [Hb Hmax].
  split; [exact Hb |]. split; [exact Hmax |].
  intros a now Hfull.
  assert (Hadd : add_connection server (client_socket a) now = None).
  { unfold add_connection.
    destruct (Nat.leb_spec (max_connections server) (connection_count server));
      [reflexivity | lia]. }
  split; [exact Hadd |]. unfold accept_one. rewrite Hadd.
  destruct (negb (nonblocking_ok a)); reflexivity.
Qed.

End Connection_bound.

Section Supervisor_order.
Import Supervisor.

(** C1 (as the code has it).  With a server and a Kafka client bound,
    [application_run] calls [http_server_start] before
    [kafka_client_start], and [kafka_client_start] before it enters
    [http_server_run]; when the run is ended by a signal, the signal
    handler's [http_server_stop] comes before [kafka_client_stop]; and the
    cleanup of [application_run] itself calls [kafka_client_stop] before
    [http_server_stop].  When both starts succeed the calls are exactly
    those listed. *)
Theorem application_run_order (http_running kafka_running : bool)
    (env : surroundings) :
  let app := {| http_server := Some http_running;
                kafka_client := Some kafka_running |} in
  let calls := (application_run app env).2 in
  (kafka_client_start ∈ calls ->
   called_before http_server_start kafka_client_start calls)
  /\ (http_server_run ∈ calls ->
      called_before kafka_client_start http_server_run calls)
  /\ (signal_http_server_stop ∈ calls ->
      called_before signal_http_server_stop kafka_client_stop calls)
  /\ (kafka_client_stop ∈ calls ->
      called_before kafka_client_stop http_server_stop calls)
  /\ (http_running = false -> kafka_running = false ->
      sockets_ok env = true -> threads_ok env = true ->
      application_run app env
      = match ending env with
        | by_signal =>
            (Some 0%Z,
             [http_server_start; kafka_client_start; http_server_run;
              signal_http_server_stop; kafka_client_stop; http_server_stop])
        | by_epoll_failure =>
            (Some 0%Z,
             [http_server_start; kafka_client_start; http_server_run;
              kafka_client_stop; http_server_stop])
        | never =>
            (None, [http_server_start; kafka_client_start; http_server_run])
        end).
Proof.
  destruct env as [so th e]. cbv zeta.
  destruct http_running, kafka_running, so, th, e;
    match goal with
    | |- context [application_run ?a ?v] =>
        let r := eval vm_compute in (application_run a v) in
        change (application_run a v) with r
    end;
    cbn [snd ending];
    repeat split; intros;
    first [ reflexivity | discriminate
          | vm_compute; first [exact I | lia]
          | exfalso;
            repeat match goal with
                   | H : _ ∈ _ :: _ |- _ =>
                       apply elem_of_cons in H as [H | H]; [discriminate H |]
                   | H : _ ∈ [] |- _ => apply elem_of_nil in H; exact H
                   end ].
Qed.

(** C1, as stated, fails: in a run with both subsystems that a signal
    ends, the server is started first and the Kafka client second. *)
Lemma http_is_started_first :
  (application_run both_bound (all_well by_signal)).2
  = [http_server_start; kafka_client_start; http_server_run;
     signal_http_server_stop; kafka_client_stop; http_server_stop]
  /\ ~ order_as_specified (application_run both_bound (all_well by_signal)).2.
Proof.
  split; [reflexivity |]. intros [Hstart _]. vm_compute in Hstart. lia.
Qed.

End Supervisor_order.

Section Full_table.
Import Http Route Server Reactor.

Lemma busy_server_reachable (n : nat) :
  reachable Static.no_files Codec.zero_heap (fun _ => None) (busy_server n).
Proof. unfold reachable, busy_server. eauto. Qed.

Lemma connection_count_bounded_witness :
  reachable Static.no_files Codec.zero_heap (fun _ => None) (busy_server 1000)
  /\ connection_count (busy_server 1000) = 1000
  /\ max_connections (busy_server 1000) = 1000
  /\ accept_one 0
       (busy_server 1000)
       {| client_socket := 5000; nonblocking_ok := true; epoll_ok := true |}
     = (busy_server 1000, [act_close 5000]).
Proof.
  pose proof (busy_server_reachable 1000) as Hreach.
  assert (Hcount : connection_count (busy_server 1000) = 1000)
    by (vm_compute; reflexivity).
  destruct (connection_count_bounded Static.no_files Codec.zero_heap
              (fun _ => None) (busy_server 1000) Hreach) as (Hb & Hmax & Hfull).
  split; [exact Hreach |]. split; [exact Hcount |]. split; [exact Hmax |].
  apply (Hfull {| client_socket := 5000; nonblocking_ok := true; epoll_ok := true |} 0%Z).
  rewrite Hmax, Hcount. apply Nat.le_refl.
Defined.

End Full_table.

Section Reactor_preface.
Import Http Server Reactor.

(** In the reactor the preface is read into the buffer of the
    connection before the HTTP/2 code is called, and that code looks for
    the preface on the socket once more: with the client's SETTINGS frame
    next in the queue it finds none, so the connection is closed without a
    byte sent.  Only a second copy of the preface in the queue brings out
    the SETTINGS frame. *)
Lemma reactor_preface_then_settings :
  (handle_client_data Static.no_files Codec.zero_heap (fun _ => None)
     (busy_server 1) 10 (recv_bytes Http2.HTTP2_PREFACE) client_settings 0).2
  = [act_send_frames 10 []; act_close 10]
  /\ (handle_client_data Static.no_files Codec.zero_heap (fun _ => None)
        (busy_server 1) 10 (recv_bytes Http2.HTTP2_PREFACE)
        (bytes_of_string Http2.HTTP2_PREFACE ++ client_settings) 0).2
     = [act_send_frames 10 Http2.spec_settings_frame; act_close 10].
Proof. split; vm_compute; reflexivity. Qed.

End Reactor_preface.

Section Well_formed_responses.
Import Http Codec.

Lemma str_take_le (n : nat) (s : string) : String.length (str_take n s) <= n.
Proof.
  revert s. induction n as [| n IH]; intros [| c s]; cbn; try lia.
  specialize (IH s). lia.
Qed.

Lemma store_pair_wf (n v : string) : wf_header (store_pair n v).
Proof. split; apply str_take_le. Qed.

Lemma do_call_wf (r : HTTP_RESPONSE) (c : response_call) :
  wf_response r -> call_body_fits c -> wf_response (do_call r c).
Proof.
  intros (Hmsg & Hhs & Hbody) Hc. destruct c; cbn in *.
  - split; [apply str_take_le | done].
  - split; [done |]. split; [| done].
    apply Forall_app. split; [done |]. constructor; [apply store_pair_wf | constructor].
  - done.
  - split; [done |]. split; [| done].
    apply Forall_app. split; [done |]. constructor; [apply store_pair_wf | constructor].
  - split; [done |]. split; [| done].
    apply Forall_app. split; [done |]. constructor; [apply store_pair_wf | constructor].
Qed.

(** Every response made with the functions of http_server.h has fields
    of the sizes of the C structure. *)
Lemma do_calls_wf (calls : list response_call) :
  Forall call_body_fits calls ->
  wf_response (do_calls http_response_create calls).
Proof.
  assert (Hgen : forall r, wf_response r -> Forall call_body_fits calls ->
                           wf_response (do_calls r calls)).
  { unfold do_calls. induction calls as [| c calls IH]; intros r Hr Hcs; [exact Hr |].
    inversion Hcs; subst. cbn [foldl]. apply IH; [apply do_call_wf |]; assumption. }
  apply Hgen. split; [cbn; lia |]. split; [| reflexivity].
  repeat constructor; cbn; lia.
Qed.

End Well_formed_responses.

Section Idle_sweep.
Import Http Server Reactor.

Lemma find_connection_from_present (conns : list CONNECTION_STATE) (k i : nat)
    (c : CONNECTION_STATE) :
  conns !! i = Some c ->
  exists j c', find_connection_from conns k (socket c) = Some (k + j, c')
               /\ j < length conns.
Proof.
  revert k i. induction conns as [| c0 conns IH]; intros k i Hi; [done |].
  cbn [find_connection_from].
  destruct (Z.eqb_spec (socket c0) (socket c)) as [_ | Hne].
  - exists 0, c0. split; [f_equal; f_equal; lia | cbn; lia].
  - destruct i as [| i]; [cbn in Hi; congruence |].
    destruct (IH (S k) i Hi) as (j & c' & Hfind & Hj).
    exists (S j), c'. split; [rewrite Hfind; f_equal; f_equal; lia | cbn; lia].
Qed.

(** Removing the socket of a record of the table takes one record off. *)
Lemma remove_connection_present (s : HTTP_SERVER) (i : nat) (c : CONNECTION_STATE) :
  connection_states s !! i = Some c ->
  connection_count (remove_connection s (socket c)).1 = connection_count s - 1.
Proof.
  intros Hi. unfold remove_connection, find_connection.
  destruct (find_connection_from_present _ 0 i c Hi) as (j & c' & -> & Hj).
  cbv zeta. unfold connection_count. cbn [fst with_connections connection_states].
  rewrite length_take.
  destruct (_ <? _);
    [destruct (connection_states s !! (length (connection_states s) - 1)) |];
    rewrite ?length_insert; lia.
Qed.

(** The sweep never runs out of the steps it is given: with any number
    of steps from [connection_count - i] on it does the same. *)
Lemma idle_sweep_enough_fuel (fuel i : nat) (now : Z) (s : HTTP_SERVER) :
  connection_count s - i <= fuel ->
  idle_sweep fuel i now s = idle_sweep (connection_count s - i) i now s.
Proof.
  revert i s. induction fuel as [| fuel IH]; intros i s Hfuel.
  - replace (connection_count s - i) with 0 by lia. reflexivity.
  - cbn [idle_sweep].
    destruct (connection_states s !! i) as [c |] eqn:Hi.
    + assert (Hlt : i < connection_count s) by (eapply lookup_lt_Some, Hi).
      replace (connection_count s - i) with (S (connection_count s - i - 1)) by lia.
      cbn [idle_sweep]. rewrite Hi.
      destruct (60 <? now - last_activity c)%Z.
      * pose proof (remove_connection_present s i c Hi) as Hcount.
        destruct (remove_connection s (socket c)) as [s1 acts1]. cbn [fst] in Hcount.
        rewrite (IH i s1) by lia.
        replace (connection_count s1 - i) with (connection_count s - i - 1) by lia.
        reflexivity.
      * rewrite (IH (S i) s) by lia.
        replace (connection_count s - S i) with (connection_count s - i - 1) by lia.
        reflexivity.
    + destruct (connection_count s - i); [reflexivity |].
      cbn [idle_sweep]. rewrite Hi. reflexivity.
Qed.

End Idle_sweep.

Section Hpack_round_trip.
Import Hpack.
Local Open Scope Z_scope.

Lemma bytes_of_string_length (s : string) :
  length (bytes_of_string s) = String.length s.
Proof.
  unfold bytes_of_string. rewrite length_fmap.
  induction s as [| c s IH]; [reflexivity |]. cbn. rewrite IH. reflexivity.
Qed.

Lemma is_c_string_cons (c : ascii) (s : string) :
  is_c_string (String c s) <-> c <> zero /\ is_c_string s.
Proof.
  unfold is_c_string. cbn [strchr].
  destruct (Ascii.eqb_spec c zero) as [-> | Hne].
  - split; [done | intros [? _]; done].
  - destruct (strchr s zero); cbn; split; intros; try done; intuition congruence.
Qed.

(** Reading the bytes of a C string back gives the string. *)
Lemma strndup_bytes_of_string (s : string) :
  is_c_string s -> strndup (bytes_of_string s) = s.
Proof.
  induction s as [| c s IH]; [reflexivity |].
  intros [Hc Hs]%is_c_string_cons. unfold bytes_of_string in *.
  cbn [list_ascii_of_string fmap list_fmap strndup].
  destruct (Z.eqb_spec (byte_of_ascii c) 0) as [Hz | _].
  - exfalso. apply Hc. unfold byte_of_ascii in Hz.
    rewrite <- (ascii_nat_embedding c).
    replace (nat_of_ascii c) with 0%nat by lia. reflexivity.
  - unfold ascii_of_byte, byte_of_ascii. rewrite Nat2Z.id, ascii_nat_embedding.
    f_equal. apply IH, Hs.
Qed.

Lemma length_byte_small (s : string) :
  (String.length s < 256)%nat -> Z.to_nat (length_byte s) = String.length s.
Proof. intros H. unfold length_byte. rewrite Z.mod_small by lia. lia. Qed.

Lemma encode_length_cons (n v : string) (rest : list (string * string)) :
  length (http2_encode_headers ((n, v) :: rest))
  = (3 + String.length n + String.length v
     + length (http2_encode_headers rest))%nat.
Proof.
  cbn [http2_encode_headers]. rewrite !length_app, !bytes_of_string_length.
  cbn [length]. lia.
Qed.

(** One round of the decoder on a pair that was encoded whole. *)
Lemma decode_loop_encoded (fuel : nat) (n v : string) (tail : list Z) :
  short_header (n, v) ->
  decode_loop (S fuel)
    ([0; length_byte n] ++ bytes_of_string n
     ++ [length_byte v] ++ bytes_of_string v ++ tail)
  = (n, v) :: decode_loop fuel tail.
Proof.
  intros (Hn & Hv & Hcn & Hcv). cbn [fst snd] in *.
  cbn [decode_loop app].
  rewrite (length_byte_small n Hn).
  destruct (Nat.ltb_spec
              (length (bytes_of_string n ++ length_byte v :: bytes_of_string v ++ tail))
              (String.length n)) as [Hshort | _].
  { rewrite length_app, bytes_of_string_length in Hshort. lia. }
  rewrite take_app_length' by (symmetry; apply bytes_of_string_length).
  rewrite drop_app_length' by (symmetry; apply bytes_of_string_length).
  rewrite (length_byte_small v Hv).
  destruct (Nat.ltb_spec (length (bytes_of_string v ++ tail)) (String.length v))
    as [Hshort | _].
  { rewrite length_app, bytes_of_string_length in Hshort. lia. }
  rewrite take_app_length' by (symmetry; apply bytes_of_string_length).
  rewrite drop_app_length' by (symmetry; apply bytes_of_string_length).
  rewrite !strndup_bytes_of_string by assumption. reflexivity.
Qed.

Lemma decode_loop_encode (headers : list (string * string)) (fuel : nat) :
  Forall short_header headers ->
  (length (http2_encode_headers headers) <= fuel)%nat ->
  decode_loop fuel (http2_encode_headers headers) = headers.
Proof.
  revert fuel. induction headers as [| [n v] rest IH]; intros fuel Hall Hfuel.
  - destruct fuel; reflexivity.
  - inversion Hall as [| ? ? Hh Hrest]; subst.
    rewrite encode_length_cons in Hfuel.
    destruct fuel as [| fuel]; [lia |].
    cbn [http2_encode_headers]. rewrite (decode_loop_encoded fuel n v _ Hh).
    rewrite IH by (assumption || lia). reflexivity.
Qed.

(** X1.  Decoding what [http2_encode_headers] wrote gives back the
    headers, names and values in order, when every name and every value is
    shorter than 256 bytes. *)
Theorem hpack_round_trip (headers : list (string * string)) :
  Forall short_header headers ->
  http2_decode_headers (http2_encode_headers headers) = headers.
Proof. intros Hall. apply decode_loop_encode; [exact Hall | lia]. Qed.

Lemma hpack_round_trip_witness :
  Forall short_header [(":status", "200"); ("content-type", "text/plain")]
  /\ http2_decode_headers
       (http2_encode_headers [(":status", "200"); ("content-type", "text/plain")])
     = [(":status", "200"); ("content-type", "text/plain")]%string.
Proof.
  assert (H : Forall short_header
                [(":status", "200"); ("content-type", "text/plain")]%string).
  { repeat constructor; cbn; lia. }
  split; [exact H |]. exact (hpack_round_trip _ H).
Defined.

End Hpack_round_trip.

Section Hpack_truncation.
Import Hpack.
Local Open Scope Z_scope.

Lemma decode_loop_nil (fuel : nat) : decode_loop fuel [] = [].
Proof. destruct fuel; reflexivity. Qed.

(** A pair that was cut anywhere before its end yields nothing. *)
Lemma decode_loop_cut (fuel m : nat) (n v : string) :
  short_header (n, v) ->
  (m < 3 + String.length n + String.length v)%nat ->
  decode_loop fuel
    (take m ([0; length_byte n] ++ bytes_of_string n
             ++ [length_byte v] ++ bytes_of_string v))
  = [].
Proof.
  intros (Hn & Hv & _ & _) Hm. cbn [fst snd] in *.
  destruct fuel as [| fuel]; [reflexivity |].
  destruct m as [| [| m]]; [reflexivity | reflexivity |].
  cbn [app take decode_loop].
  rewrite (length_byte_small n Hn), length_take, length_app, bytes_of_string_length.
  cbn [length]. rewrite bytes_of_string_length.
  destruct (Nat.ltb_spec (m `min` (String.length n + S (String.length v)))
              (String.length n)) as [_ | Hname]; [reflexivity |].
  rewrite take_app, drop_app, bytes_of_string_length.
  rewrite (take_ge (bytes_of_string n))
    by (rewrite bytes_of_string_length; lia).
  rewrite drop_ge by (rewrite bytes_of_string_length; lia).
  rewrite bytes_of_string_length, Nat.sub_diag. cbn [app drop].
  destruct (m - String.length n)%nat as [| k] eqn:Hk; [reflexivity |].
  cbn [take drop].
  rewrite (length_byte_small v Hv), length_take, bytes_of_string_length.
  destruct (Nat.ltb_spec (k `min` String.length v) (String.length v)) as [_ | Hval];
    [reflexivity | lia].
Qed.

Lemma encode_cons (n v : string) (rest : list (string * string)) :
  http2_encode_headers ((n, v) :: rest)
  = header_block n v ++ http2_encode_headers rest.
Proof.
  unfold header_block. cbn [http2_encode_headers].
  rewrite <- !app_assoc. reflexivity.
Qed.

Lemma header_block_length (n v : string) :
  length (header_block n v) = (3 + String.length n + String.length v)%nat.
Proof.
  unfold header_block. rewrite !length_app, !bytes_of_string_length.
  cbn [length]. lia.
Qed.

(** With a round for every byte, the loop returns the pairs whose bytes
    are all among the first [m], and stops at the first pair that is not
    whole. *)
Lemma decode_loop_take_complete (headers : list (string * string)) (fuel m : nat) :
  Forall short_header headers ->
  (m `min` length (http2_encode_headers headers) <= fuel)%nat ->
  exists k,
    decode_loop fuel (take m (http2_encode_headers headers)) = take k headers
    /\ (length (http2_encode_headers (take k headers)) <= m)%nat
    /\ ((k < length headers)%nat ->
        (m < length (http2_encode_headers (take (S k) headers)))%nat).
Proof.
  revert fuel m. induction headers as [| [n v] rest IH]; intros fuel m Hall Hfuel.
  - exists 0%nat. cbn [http2_encode_headers]. rewrite take_nil, decode_loop_nil.
    cbn. repeat split; lia.
  - inversion Hall as [| ? ? Hh Hrest]; subst.
    rewrite encode_length_cons in Hfuel.
    destruct (Nat.lt_ge_cases m (3 + String.length n + String.length v))
      as [Hcut | Hwhole].
    + exists 0%nat. rewrite encode_cons.
      rewrite take_app_le by (rewrite header_block_length; lia).
      unfold header_block. rewrite (decode_loop_cut fuel m n v Hh Hcut).
      split; [reflexivity |]. split; [cbn; lia |]. intros _.
      change (take 1 ((n, v) :: rest)) with [(n, v)].
      rewrite encode_length_cons. cbn [http2_encode_headers length]. lia.
    + destruct fuel as [| fuel]; [lia |].
      destruct (IH fuel (m - (3 + String.length n + String.length v))%nat Hrest)
        as (k & Hdec & Hfit & Hnext); [lia |].
      exists (S k). rewrite encode_cons.
      rewrite take_app_ge by (rewrite header_block_length; lia).
      rewrite header_block_length.
      unfold header_block. rewrite <- !app_assoc.
      rewrite (decode_loop_encoded fuel n v _ Hh), Hdec.
      split; [reflexivity |]. split.
      * cbn [take]. rewrite encode_length_cons. lia.
      * cbn [length]. intros Hk.
        change (take (S (S k)) ((n, v) :: rest)) with ((n, v) :: take (S k) rest).
        rewrite encode_length_cons. specialize (Hnext ltac:(lia)). lia.
Qed.

(** X2.  A header block cut short behind its first [m] bytes is decoded
    without an error into exactly the pairs that are whole in front of the
    cut: the first [k] headers, where the bytes of [k] headers fit into
    [m] bytes and those of [k + 1] headers do not.  The pair that was cut
    and every pair behind it are dropped, no pair is invented. *)
Theorem hpack_truncated_block (headers : list (string * string)) (m : nat) :
  Forall short_header headers ->
  exists k,
    http2_decode_headers (take m (http2_encode_headers headers)) = take k headers
    /\ (length (http2_encode_headers (take k headers)) <= m)%nat
    /\ ((k < length headers)%nat ->
        (m < length (http2_encode_headers (take (S k) headers)))%nat).
Proof.
  intros Hall. apply decode_loop_take_complete; [exact Hall |].
  unfold http2_decode_headers. rewrite length_take. lia.
Qed.

Lemma hpack_truncated_block_witness :
  Forall short_header [(":status", "200"); ("content-type", "text/plain")]
  /\ http2_decode_headers
       (take 20 (http2_encode_headers
                   [(":status", "200"); ("content-type", "text/plain")]))
     = [(":status", "200")]%string.
Proof.
  assert (H : Forall short_header
                [(":status", "200"); ("content-type", "text/plain")]%string).
  { repeat constructor; cbn; lia. }
  split; [exact H |].
  destruct (hpack_truncated_block _ 20 H) as (k & Hdec & Hfit & Hnext).
  rewrite Hdec. destruct k as [| [| k]].
  - exfalso. cbn in Hnext. lia.
  - reflexivity.
  - exfalso. cbn in Hfit. lia.
Defined.

End Hpack_truncation.

Section Http2_frames.
Import Http2 Http2_control.
Local Open Scope Z_scope.

(** What one [send] does, whatever the plan: the bytes sent are a
    prefix of the buffer, the value returned is their number or -1, and
    nothing else of the socket changes. *)
Lemma send_prefix (s : socket) (buf : list Z) :
  exists sent,
    sock_out (send s buf).2 = sock_out s ++ sent
    /\ sent `prefix_of` buf
    /\ sock_in (send s buf).2 = sock_in s
    /\ ((send s buf).1 = Z.of_nat (length sent)
        \/ ((send s buf).1 = -1 /\ sent = [])).
Proof.
  unfold send. destruct (sock_plan s) as [| k plan].
  - exists buf. cbn. auto.
  - destruct (k <? 0).
    + exists []. cbn. rewrite app_nil_r. split; [done |].
      split; [apply prefix_nil | auto].
    + exists (take (Z.to_nat k) buf). cbn. split; [done |].
      split; [apply prefix_take | auto].
Qed.

Lemma prefix_full_length {A} (l1 l2 : list A) :
  l1 `prefix_of` l2 -> (length l2 <= length l1)%nat -> l1 = l2.
Proof.
  intros [k ->] Hlen. rewrite length_app in Hlen.
  destruct k; [rewrite app_nil_r; reflexivity | cbn in Hlen; lia].
Qed.

(** X3.  Whatever the socket does, [http2_send_frame] returns 0 or -1;
    the bytes it puts on the socket are a prefix of the frame (header,
    then payload); when it returns 0 they are the whole frame; and when the
    header is not taken whole, no byte of the payload is sent. *)
Theorem send_frame_all_or_error (conn : HTTP2_CONNECTION)
    (ty : HTTP2_FRAME_TYPE) (flags sid len : Z) (payload : option (list Z)) :
  let r := http2_send_frame conn ty flags sid payload len in
  exists sent,
    sock_out (socket_ r.2) = sock_out (socket_ conn) ++ sent
    /\ sock_in (socket_ r.2) = sock_in (socket_ conn)
    /\ sent `prefix_of` frame_bytes ty flags sid payload len
    /\ (r.1 = 0 \/ r.1 = -1)
    /\ (r.1 = 0 -> sent = frame_bytes ty flags sid payload len)
    /\ ((length sent < 9)%nat ->
        r.1 = -1
        /\ sent `prefix_of` frame_header_bytes (frame_type_code ty) flags sid len).
Proof.
  cbv zeta. unfold http2_send_frame, frame_bytes.
  set (header := frame_header_bytes (frame_type_code ty) flags sid len).
  assert (Hlen9 : length header = 9%nat) by reflexivity.
  destruct (send_prefix (socket_ conn) header) as (h & Hout & Hpre & Hin & Hret).
  destruct (send (socket_ conn) header) as [n s1]. cbn [fst snd] in *.
  destruct (Z.eqb_spec n 9) as [Hn | Hn]; cbn [negb].
  - assert (Hh : h = header).
    { apply prefix_full_length; [exact Hpre |]. destruct Hret as [? | [? ?]]; lia. }
    subst h.
    destruct payload as [p |]; [destruct (0 <? len) |].
    + destruct (send_prefix s1 (take (Z.to_nat len) p))
        as (q & Hout2 & Hpre2 & Hin2 & Hret2).
      destruct (send s1 (take (Z.to_nat len) p)) as [m s2]. cbn [fst snd] in *.
      exists (header ++ q).
      assert (Hq : m = len -> q = take (Z.to_nat len) p).
      { intros Hm. apply prefix_full_length; [exact Hpre2 |].
        rewrite length_take. destruct Hret2 as [? | [? ?]]; lia. }
      destruct (Z.eqb_spec m len) as [Hm | Hm];
        cbn [negb fst snd with_socket socket_];
        (split; [rewrite Hout2, Hout, <- app_assoc; reflexivity |]);
        (split; [congruence |]);
        (split; [apply list.prefix_app, Hpre2 |]);
        (split; [auto |]);
        (split; [intros; first [rewrite Hq by done; reflexivity | lia] |]);
        rewrite length_app; lia.
    + exists header. cbn [fst snd with_socket socket_].
      split; [exact Hout |]. split; [exact Hin |].
      rewrite app_nil_r. repeat split; auto; lia.
    + exists header. cbn [fst snd with_socket socket_].
      split; [exact Hout |]. split; [exact Hin |].
      rewrite app_nil_r. repeat split; auto; lia.
  - exists h. cbn [fst snd with_socket socket_].
    split; [exact Hout |]. split; [exact Hin |].
    split; [etrans; [exact Hpre | apply prefix_app_r; reflexivity] |].
    split; [auto |]. split; [lia |]. auto.
Qed.

End Http2_frames.

Section Http2_wrap.
Import Http2 Http2_control.
Local Open Scope Z_scope.

Lemma header_bytes_mod (ty flags sid len : Z) :
  frame_header_bytes ty flags sid len
  = frame_header_bytes ty flags (sid mod 2 ^ 31) (len mod 2 ^ 24).
Proof.
  unfold frame_header_bytes.
  rewrite !land_255, !land_127, !Z.shiftr_div_pow2 by lia.
  assert (len / 2 ^ 16 mod 2 ^ 8 = len mod 2 ^ 24 / 2 ^ 16 mod 2 ^ 8)
    by (Z.div_mod_to_equations; lia).
  assert (len / 2 ^ 8 mod 2 ^ 8 = len mod 2 ^ 24 / 2 ^ 8 mod 2 ^ 8)
    by (Z.div_mod_to_equations; lia).
  assert (len mod 2 ^ 8 = (len mod 2 ^ 24) mod 2 ^ 8)
    by (Z.div_mod_to_equations; lia).
  assert (sid / 2 ^ 24 mod 2 ^ 7 = sid mod 2 ^ 31 / 2 ^ 24 mod 2 ^ 7)
    by (Z.div_mod_to_equations; lia).
  assert (sid / 2 ^ 16 mod 2 ^ 8 = sid mod 2 ^ 31 / 2 ^ 16 mod 2 ^ 8)
    by (Z.div_mod_to_equations; lia).
  assert (sid / 2 ^ 8 mod 2 ^ 8 = sid mod 2 ^ 31 / 2 ^ 8 mod 2 ^ 8)
    by (Z.div_mod_to_equations; lia).
  assert (sid mod 2 ^ 8 = (sid mod 2 ^ 31) mod 2 ^ 8)
    by (Z.div_mod_to_equations; lia).
  congruence.
Qed.

(** X4.  The frame header keeps 24 bits of the length and 31 bits of
    the stream identifier: what [http2_parse_frame_header] reads from the
    header [http2_send_frame] builds is the length modulo 2^24 and the
    stream identifier modulo 2^31, type and flags unchanged. *)
Theorem frame_header_wraps (ty : HTTP2_FRAME_TYPE) (flags sid len : Z)
    (payload : list Z) :
  http2_parse_frame_header
    (frame_header_bytes (frame_type_code ty) flags sid len ++ payload)
  = Some {| fh_length := len mod 2 ^ 24; fh_type := frame_type_code ty;
            fh_flags := flags; fh_stream_id := sid mod 2 ^ 31 |}.
Proof.
  rewrite header_bytes_mod. apply parse_frame_header_bytes.
  - apply Z.mod_pos_bound. lia.
  - apply Z.mod_pos_bound. lia.
Qed.

Lemma be32_of_bytes (x : Z) :
  0 <= x < 2 ^ 32 ->
  be32_value [ Z.land (Z.shiftr x 24) 255; Z.land (Z.shiftr x 16) 255;
               Z.land (Z.shiftr x 8) 255; Z.land x 255 ] = x.
Proof.
  intros Hx. unfold be32_value.
  rewrite !land_255, !Z.shiftr_div_pow2 by lia.
  Z.div_mod_to_equations. lia.
Qed.

Lemma be31_of_bytes (x : Z) :
  be32_value [ Z.land (Z.shiftr x 24) 127; Z.land (Z.shiftr x 16) 255;
               Z.land (Z.shiftr x 8) 255; Z.land x 255 ] = x mod 2 ^ 31.
Proof.
  unfold be32_value.
  rewrite !land_255, !land_127, !Z.shiftr_div_pow2 by lia.
  Z.div_mod_to_equations. lia.
Qed.

(** X5.  On a socket that takes the bytes, [http2_send_goaway] sends one
    frame of type GOAWAY on stream 0 with eight bytes of payload: the last
    stream identifier of the connection without its top bit, then the
    error code, both big-endian; [http2_send_window_update] sends one
    WINDOW_UPDATE frame on the given stream whose four bytes are the
    increment without its top bit.  Both return 0. *)
Theorem control_frames (conn : HTTP2_CONNECTION) (error : HTTP2_ERROR_CODE)
    (stream_id increment : Z) :
  sock_plan (socket_ conn) = [] ->
  0 <= stream_id < 2 ^ 31 ->
  (exists payload,
      http2_send_goaway conn error
      = (0, with_socket conn
              {| sock_in := sock_in (socket_ conn);
                 sock_out := sock_out (socket_ conn)
                             ++ frame_header_bytes 7 0 0 8 ++ payload;
                 sock_plan := [] |})
      /\ length payload = 8%nat
      /\ be32_value (take 4 payload) = last_stream_id conn mod 2 ^ 31
      /\ be32_value (drop 4 payload) = error_code error)
  /\ (exists payload,
         http2_send_window_update conn stream_id increment
         = (0, with_socket conn
                 {| sock_in := sock_in (socket_ conn);
                    sock_out := sock_out (socket_ conn)
                                ++ frame_header_bytes 8 0 stream_id 4 ++ payload;
                    sock_plan := [] |})
         /\ http2_parse_frame_header (frame_header_bytes 8 0 stream_id 4 ++ payload)
            = Some {| fh_length := 4; fh_type := 8; fh_flags := 0;
                      fh_stream_id := stream_id |}
         /\ be32_value payload = increment mod 2 ^ 31).
Proof.
  intros Hplan Hsid. split.
  - eexists. split; [| split; [| split]].
    + unfold http2_send_goaway, http2_send_frame. cbv zeta.
      rewrite (send_all _ _ Hplan).
      change (negb (Z.of_nat (length (frame_header_bytes _ _ _ _)) =? 9)) with false.
      cbn iota. change (0 <? 8) with true. cbn iota.
      rewrite send_all by reflexivity. cbn [sock_in sock_out].
      change (Z.to_nat 8) with 8%nat. cbn [take length].
      change (negb (Z.of_nat 8 =? 8)) with false. cbn iota.
      rewrite <- app_assoc. reflexivity.
    + reflexivity.
    + cbn [take]. apply be31_of_bytes.
    + cbn [drop]. apply be32_of_bytes. destruct error; cbn; lia.
  - eexists. split; [| split].
    + unfold http2_send_window_update, http2_send_frame. cbv zeta.
      rewrite (send_all _ _ Hplan).
      change (negb (Z.of_nat (length (frame_header_bytes _ _ _ _)) =? 9)) with false.
      cbn iota. change (0 <? 4) with true. cbn iota.
      rewrite send_all by reflexivity. cbn [sock_in sock_out].
      change (Z.to_nat 4) with 4%nat. cbn [take length].
      change (negb (Z.of_nat 4 =? 4)) with false. cbn iota.
      rewrite <- app_assoc. reflexivity.
    + apply parse_frame_header_bytes; lia.
    + apply be31_of_bytes.
Qed.

Lemma control_frames_witness :
  let conn := fresh_connection [] in
  (exists payload,
      http2_send_goaway conn HTTP2_PROTOCOL_ERROR
      = (0, with_socket conn
              {| sock_in := []; sock_out := [] ++ frame_header_bytes 7 0 0 8 ++ payload;
                 sock_plan := [] |})
      /\ length payload = 8%nat
      /\ be32_value (take 4 payload) = 0 mod 2 ^ 31
      /\ be32_value (drop 4 payload) = 1)
  /\ (exists payload,
         http2_send_window_update conn 3 65535
         = (0, with_socket conn
                 {| sock_in := [];
                    sock_out := [] ++ frame_header_bytes 8 0 3 4 ++ payload;
                    sock_plan := [] |})
         /\ http2_parse_frame_header (frame_header_bytes 8 0 3 4 ++ payload)
            = Some {| fh_length := 4; fh_type := 8; fh_flags := 0;
                      fh_stream_id := 3 |}
         /\ be32_value payload = 65535 mod 2 ^ 31).
Proof.
  apply (control_frames (fresh_connection []) HTTP2_PROTOCOL_ERROR 3 65535);
    [reflexivity | lia].
Defined.

End Http2_wrap.

Section Path_parameters.
Import Http Route Request Format.

Lemma str_take_take (a b : nat) (s : string) :
  str_take a (str_take b s) = str_take (Nat.min a b) s.
Proof.
  revert b s. induction a as [| a IH]; intros [| b] [| c s]; cbn; try reflexivity.
  rewrite IH. reflexivity.
Qed.

Lemma str_drop_1_take (n : nat) (s : string) :
  str_drop 1 (str_take (S n) s) = str_take n (str_drop 1 s).
Proof. destruct s as [| c s]; [destruct n; reflexivity | reflexivity]. Qed.

Lemma starts_with_colon_length (s : string) :
  starts_with ":" s = true -> 1 <= segment_length s.
Proof.
  destruct s as [| c s]; [discriminate |]. cbn [starts_with]. intros Hc.
  apply Ascii.eqb_eq in Hc. subst c. rewrite segment_length_cons. cbn. lia.
Qed.

(** The pair the loop stores for a parameter segment is the pair of the
    two segments, cut to the fields. *)
Lemma extracted_pair (pattern_ptr path_ptr : string) :
  starts_with ":" pattern_ptr = true ->
  store_pair
    (str_take (Nat.min (segment_length pattern_ptr - 1) 127) (str_drop 1 pattern_ptr))
    (str_take (Nat.min (segment_length path_ptr) 511) path_ptr)
  = store_pair (str_drop 1 (str_take (segment_length pattern_ptr) pattern_ptr))
               (str_take (segment_length path_ptr) path_ptr).
Proof.
  intros Hc. pose proof (starts_with_colon_length _ Hc) as Hlen.
  unfold store_pair.
  replace (segment_length pattern_ptr) with (S (segment_length pattern_ptr - 1)) at 2
    by lia.
  rewrite str_drop_1_take, !str_take_take. f_equal; f_equal; lia.
Qed.

(** A segment of at most 511 characters is not cut, and the walk moves
    on to the segment behind it. *)
Lemma segment_within_field (path_ptr : string) :
  String.length path_ptr <= 511 ->
  Nat.min (segment_length path_ptr) 511 = segment_length path_ptr.
Proof. intros Hlen. pose proof (segment_length_le path_ptr). lia. Qed.

Lemma next_segment_length (s : string) (n : nat) :
  String.length (next_segment s n) <= String.length s.
Proof.
  unfold next_segment. pose proof (skip_slash_length (str_drop n s)) as H.
  rewrite str_drop_length in H. lia.
Qed.

Lemma extract_segments_params (fuel : nat) (pattern_ptr path_ptr : string)
    (request : HTTP_REQUEST) :
  String.length pattern_ptr < fuel ->
  String.length path_ptr <= 511 ->
  let request' := extract_segments fuel pattern_ptr path_ptr request in
  path_params request'
  = path_params request
    ++ map stored (params_of (segments pattern_ptr) (segments path_ptr))
  /\ req_method request' = req_method request
  /\ req_path request' = req_path request
  /\ query_string request' = query_string request
  /\ http_version request' = http_version request
  /\ req_headers request' = req_headers request
  /\ req_body request' = req_body request
  /\ query_params request' = query_params request.
Proof.
  revert pattern_ptr path_ptr request.
  induction fuel as [| fuel IH]; intros pattern_ptr path_ptr request Hfuel Hfield;
    [lia |].
  cbn [extract_segments].
  destruct pattern_ptr as [| pc pr] eqn:Hpat.
  { cbn. rewrite app_nil_r. done. }
  destruct path_ptr as [| sc sr] eqn:Hpath.
  { cbn [str_is_empty negb andb].
    rewrite (segments_unfold (String pc pr)) by done. cbn [segments params_of map].
    rewrite app_nil_r. done. }
  cbn [str_is_empty negb andb]. cbv zeta. rewrite <- Hpat, <- Hpath in *.
  assert (Hp : pattern_ptr <> EmptyString) by (subst; done).
  assert (Hs : path_ptr <> EmptyString) by (subst; done).
  rewrite (segments_unfold pattern_ptr Hp), (segments_unfold path_ptr Hs).
  cbn [params_of]. rewrite starts_with_colon_segment.
  pose proof (next_segment_shorter pattern_ptr Hp) as Hshort.
  assert (Hfuel' : String.length (next_segment pattern_ptr (segment_length pattern_ptr))
                   < fuel) by (subst; cbn in *; lia).
  assert (Hfield' : String.length (next_segment path_ptr (segment_length path_ptr))
                    <= 511)
    by (pose proof (next_segment_length path_ptr (segment_length path_ptr)); lia).
  rewrite (segment_within_field path_ptr Hfield).
  destruct (starts_with ":" pattern_ptr) eqn:Hcolon;
    match goal with
    | |- context [extract_segments fuel ?a ?b ?r] =>
        destruct (IH a b r Hfuel' Hfield')
          as (Hpp & Hm & Hpa & Hq & Hv & Hh & Hb & Hqp)
    end;
    rewrite Hpp, Hm, Hpa, Hq, Hv, Hh, Hb, Hqp.
  - cbn [http_request_add_path_param path_params req_method req_path query_string
         http_version req_headers req_body query_params].
    pose proof (extracted_pair pattern_ptr path_ptr Hcolon) as Hpair.
    rewrite (segment_within_field path_ptr Hfield) in Hpair.
    rewrite Hpair, <- app_assoc. done.
  - done.
Qed.

Lemma no_slash_inside (s : string) (n : nat) :
  n < segment_length s -> starts_with "/" (str_drop n s) = false.
Proof.
  revert s. induction n as [| n IH]; intros [| c r] Hn;
    try (cbn in Hn; lia); rewrite segment_length_cons in Hn;
    destruct (Ascii.eqb c "/") eqn:Hc; try lia.
  - exact Hc.
  - cbn [str_drop]. apply IH. lia.
Qed.

(** A parameter segment of 512 characters or more is not taken whole:
    its first 511 characters are the value, and the walk goes on with the
    next pattern segment at the 512th character, inside the segment. *)
Lemma extract_long_segment (fuel : nat) (pattern_ptr path_ptr : string)
    (request : HTTP_REQUEST) :
  starts_with ":" pattern_ptr = true ->
  512 <= segment_length path_ptr ->
  extract_segments (S fuel) pattern_ptr path_ptr request
  = extract_segments fuel
      (next_segment pattern_ptr (segment_length pattern_ptr))
      (str_drop 511 path_ptr)
      (http_request_add_path_param request
         (str_take (Nat.min (segment_length pattern_ptr - 1) 127)
                   (str_drop 1 pattern_ptr))
         (str_take 511 path_ptr)).
Proof.
  intros Hcolon Hlong. cbn [extract_segments]. rewrite Hcolon.
  destruct pattern_ptr as [| pc pr]; [discriminate |].
  destruct path_ptr as [| sc sr]; [cbn in Hlong; lia |].
  cbn [str_is_empty negb andb]. cbv zeta.
  rewrite Nat.min_r by lia. unfold next_segment at 2.
  pose proof (no_slash_inside (String sc sr) 511 ltac:(lia)) as Hin.
  destruct (str_drop 511 (String sc sr)) as [| c r]; [reflexivity |].
  cbn [starts_with] in Hin. cbn [skip_slash]. rewrite Hin. reflexivity.
Qed.

Lemma segments_length (s : string) (k : nat) (v : string) :
  segments s !! k = Some v -> String.length v <= String.length s.
Proof.
  revert k v. induction s as [| c r IH]; intros k v Hk; [done |].
  cbn [segments] in Hk. destruct (Ascii.eqb c "/").
  - destruct k as [| k]; cbn in Hk.
    + simplify_eq. cbn. lia.
    + apply IH in Hk. cbn. lia.
  - destruct (segments r) as [| seg segs] eqn:Hr.
    + destruct k as [| k]; cbn in Hk; [| done]. simplify_eq. cbn. lia.
    + destruct k as [| k]; cbn in Hk.
      * simplify_eq. specialize (IH 0 seg eq_refl). cbn. lia.
      * specialize (IH (S k) v Hk). cbn. lia.
Qed.

Lemma str_drop_1_length (s : string) :
  String.length (str_drop 1 s) = String.length s - 1.
Proof. destruct s; cbn; lia. Qed.

(** Nothing is cut when the names and the path fit the fields. *)
Lemma stored_params_of (pattern_segs path_segs : list string) (bound : nat) :
  short_names pattern_segs ->
  (forall k v, path_segs !! k = Some v -> String.length v <= bound) ->
  bound < 511 ->
  map stored (params_of pattern_segs path_segs) = params_of pattern_segs path_segs.
Proof.
  revert path_segs. induction pattern_segs as [| p ps IH]; intros path_segs Hshort Hlen Hb;
    [reflexivity |].
  destruct path_segs as [| s ss]; [reflexivity |]. cbn [params_of].
  apply list.Forall_cons in Hshort as [Hp Hps].
  rewrite map_app, IH; [| exact Hps | | exact Hb].
  - f_equal. destruct (starts_with ":" p) eqn:Hc; [| reflexivity].
    cbn [map]. unfold stored, store_pair. cbn [name value]. specialize (Hp eq_refl).
    specialize (Hlen 0 s eq_refl).
    rewrite !str_take_all; [reflexivity | lia |].
    rewrite str_drop_1_length. lia.
  - intros k v Hk. apply (Hlen (S k) v Hk).
Qed.

(** X6.  [http_route_extract_params] adds to the path parameters of the
    request, in order, one pair for every pattern segment that begins with
    ':' and has a path segment opposite it: the name is the pattern segment
    without the colon, the value the path segment.  It touches nothing
    else of the request, and it does not ask whether the route matches.
    The path is one that fits the request's path field, and the names fit
    the name field of a parameter. *)
Theorem extract_params_by_segments (route : HTTP_ROUTE) (p : string)
    (request : HTTP_REQUEST) :
  String.length p < 511 ->
  short_names (segments (skip_slash (path route))) ->
  let request' := http_route_extract_params route p request in
  path_params request'
  = path_params request
    ++ params_of (segments (skip_slash (path route))) (segments (skip_slash p))
  /\ req_method request' = req_method request
  /\ req_path request' = req_path request
  /\ query_string request' = query_string request
  /\ http_version request' = http_version request
  /\ req_headers request' = req_headers request
  /\ req_body request' = req_body request
  /\ query_params request' = query_params request.
Proof.
  intros Hlen Hshort. unfold http_route_extract_params.
  rewrite <- (stored_params_of _ (segments (skip_slash p)) 510 Hshort).
  - apply extract_segments_params.
    + pose proof (skip_slash_length (path route)). lia.
    + pose proof (skip_slash_length p). lia.
  - intros k v Hk. apply segments_length in Hk.
    pose proof (skip_slash_length p). lia.
  - lia.
Qed.

Lemma extract_params_by_segments_witness :
  path_params
    (http_route_extract_params route_a_id_b "/a/7/b"
       (bare_request HTTP_METHOD_GET "/a/7/b"))
  = [{| name := "id"; value := "7" |}].
Proof.
  destruct (extract_params_by_segments route_a_id_b "/a/7/b"
              (bare_request HTTP_METHOD_GET "/a/7/b")) as [H _].
  - cbn. lia.
  - repeat constructor; cbn; intros; try discriminate; lia.
  - rewrite H. reflexivity.
Defined.

Lemma first_value_app (same : string -> string -> bool)
    (l1 l2 : list HTTP_HEADER) (n : string) :
  first_value same (l1 ++ l2) n
  = match first_value same l1 n with
    | Some v => Some v
    | None => first_value same l2 n
    end.
Proof.
  induction l1 as [| e l1 IH]; [reflexivity |]. cbn.
  destruct (same (name e) n); [reflexivity | exact IH].
Qed.

Lemma str_take_short_eq (m : nat) (a b : string) :
  String.length b < m -> str_take m a = b -> a = b.
Proof.
  revert a b. induction m as [| m IH]; intros a b Hb Heq; [lia |].
  destruct a as [| c a]; cbn in Heq; [exact Heq |].
  destruct b as [| d b]; [discriminate |]. cbn in Hb.
  injection Heq as -> Heq. f_equal. apply IH; [lia | exact Heq].
Qed.

Lemma first_value_params (pattern_segs path_segs : list string) (k : nat)
    (n v : string) :
  pattern_segs !! k = Some (String ":" n) ->
  path_segs !! k = Some v ->
  String.length n < 127 -> String.length v < 511 ->
  (forall j n', j < k -> pattern_segs !! j = Some (String ":" n') -> n' <> n) ->
  first_value String.eqb (map stored (params_of pattern_segs path_segs)) n = Some v.
Proof.
  revert path_segs k.
  induction pattern_segs as [| p ps IH]; intros path_segs k Hp Hs Hn Hv Hfresh;
    [done |].
  destruct path_segs as [| s ss]; [done |]. cbn [params_of].
  rewrite map_app, first_value_app. destruct k as [| k].
  - cbn in Hp, Hs. simplify_eq. cbn [starts_with]. rewrite Ascii.eqb_refl.
    cbn [map]. unfold stored, store_pair. cbn [first_value name value str_drop].
    rewrite !str_take_all by lia. rewrite String.eqb_refl. reflexivity.
  - cbn in Hp, Hs.
    assert (Hhead : first_value String.eqb
                      (map stored (if starts_with ":" p
                                   then [{| name := str_drop 1 p; value := s |}]
                                   else []))
                      n = None).
    { destruct (starts_with ":" p) eqn:Hc; [| reflexivity].
      destruct p as [| c p']; [discriminate |]. cbn [starts_with] in Hc.
      apply Ascii.eqb_eq in Hc. subst c.
      cbn [map]. unfold stored, store_pair. cbn [first_value name value str_drop].
      destruct (String.eqb_spec (str_take 127 p') n) as [Heq | _]; [| reflexivity].
      exfalso. apply (Hfresh 0 p'); [lia | reflexivity |].
      apply (str_take_short_eq 127); assumption. }
    rewrite Hhead. apply (IH ss k); try assumption.
    intros j n' Hj Hpj. apply (Hfresh (S j) n'); [lia | exact Hpj].
Qed.

(** X7.  After [http_route_extract_params] on a request without path
    parameters, [http_request_get_path_param] returns for the name of a
    parameter segment the text of the path segment at the same position,
    provided the name fits its field, the path fits the request's path
    field and no parameter segment further left has the same name. *)
Theorem path_param_lookup (route : HTTP_ROUTE) (p : string)
    (request : HTTP_REQUEST) (k : nat) (n v : string) :
  path_params request = [] ->
  segments (skip_slash (path route)) !! k = Some (String ":" n) ->
  segments (skip_slash p) !! k = Some v ->
  String.length n < 127 -> String.length p < 511 ->
  (forall j n', j < k ->
                segments (skip_slash (path route)) !! j = Some (String ":" n') ->
                n' <> n) ->
  http_request_get_path_param (http_route_extract_params route p request) n
  = Some v.
Proof.
  intros Hempty Hp Hs Hn Hlen Hfresh.
  assert (Hv : String.length v < 511).
  { pose proof (segments_length _ _ _ Hs). pose proof (skip_slash_length p). lia. }
  unfold http_request_get_path_param, http_route_extract_params.
  destruct (extract_segments_params (S (String.length (path route)))
              (skip_slash (path route)) (skip_slash p) request) as [-> _].
  { pose proof (skip_slash_length (path route)). lia. }
  { pose proof (skip_slash_length p). lia. }
  rewrite Hempty. cbn [app]. eapply first_value_params; eassumption.
Qed.

Lemma path_param_lookup_witness :
  let route := http_route_create HTTP_METHOD_GET "/api/users/:id" (answer "user") 0 in
  http_request_get_path_param
    (http_route_extract_params route "/api/users/42"
       (bare_request HTTP_METHOD_GET "/api/users/42")) "id"
  = Some "42"%string.
Proof.
  apply (path_param_lookup
           (http_route_create HTTP_METHOD_GET "/api/users/:id" (answer "user") 0)
           "/api/users/42" (bare_request HTTP_METHOD_GET "/api/users/42") 2 "id" "42");
    try reflexivity; try (cbn; lia).
  intros [| [| j]] n' Hj Hseg; try lia; vm_compute in Hseg; discriminate Hseg.
Defined.

End Path_parameters.

Section Request_lookup.
Import Http Request.

Lemma first_value_snoc (same : string -> string -> bool)
    (entries : list HTTP_HEADER) (n v n' : string) :
  String.length n < 127 -> String.length v < 511 ->
  first_value same (entries ++ [store_pair n v]) n'
  = match first_value same entries n' with
    | Some x => Some x
    | None => if same n n' then Some v else None
    end.
Proof.
  intros Hn Hv. rewrite first_value_app. unfold store_pair.
  rewrite !str_take_all by lia. reflexivity.
Qed.

(** X8.  Looking a name up after an entry was added gives what it gave
    before when that was an answer, and the added value when there was
    none and the added name compares equal: the first entry wins, a later
    one with the same name is never returned.  Header names compare
    without regard to case, parameter names exactly.  Name and value are
    ones that fit the fields with their terminators. *)
Theorem lookup_after_add (req : HTTP_REQUEST) (n v n' : string) :
  String.length n < 127 -> String.length v < 511 ->
  http_request_get_header (http_request_add_header req n v) n'
  = match http_request_get_header req n' with
    | Some x => Some x
    | None => if Static.strcasecmp_eq n n' then Some v else None
    end
  /\ http_request_get_query_param (http_request_add_query_param req n v) n'
     = match http_request_get_query_param req n' with
       | Some x => Some x
       | None => if String.eqb n n' then Some v else None
       end
  /\ http_request_get_path_param (http_request_add_path_param req n v) n'
     = match http_request_get_path_param req n' with
       | Some x => Some x
       | None => if String.eqb n n' then Some v else None
       end.
Proof.
  intros Hn Hv.
  unfold http_request_get_header, http_request_get_query_param,
    http_request_get_path_param, http_request_add_header,
    http_request_add_query_param, http_request_add_path_param.
  cbn [req_headers query_params path_params].
  repeat split; apply first_value_snoc; assumption.
Qed.

Lemma lookup_after_add_witness :
  let req := http_request_add_header http_request_create "Accept" "text/html" in
  http_request_get_header (http_request_add_header req "ACCEPT" "*/*") "accept"
  = Some "text/html"%string.
Proof.
  destruct (lookup_after_add
              (http_request_add_header http_request_create "Accept" "text/html")
              "ACCEPT" "*/*" "accept") as [H _].
  - cbn. lia.
  - cbn. lia.
  - cbv zeta. rewrite H. reflexivity.
Defined.

End Request_lookup.

Section Url_decode_bounds.
Import Codec Format.

Lemma url_decode_loop_length (room : nat) (src : string) :
  String.length (url_decode_loop room src) <= room
  /\ String.length (url_decode_loop room src) <= String.length src.
Proof.
  revert src. induction room as [| room IH]; intros src; [cbn; lia |].
  destruct src as [| c rest]; [cbn; lia |].
  cbn [url_decode_loop].
  pose proof (IH rest) as [H1 H2].
  destruct rest as [| h1 [| h2 rest']].
  - destruct (Ascii.eqb c "+"); cbn [String.length] in *; lia.
  - destruct (Ascii.eqb c "+"); cbn [String.length] in *; lia.
  - pose proof (IH rest') as [H3 H4].
    destruct (Ascii.eqb c "%"); [| destruct (Ascii.eqb c "+")];
      cbn [String.length] in *; lia.
Qed.

(** X9.  [url_decode] stores fewer bytes than the destination holds, so
    that its terminator lands inside the destination, and never more
    bytes than the source has characters. *)
Theorem url_decode_fits (src : string) (dst_size : nat) :
  0 < dst_size ->
  String.length (url_decode src dst_size) < dst_size
  /\ String.length (url_decode src dst_size) <= String.length src.
Proof.
  intros Hpos. unfold url_decode.
  pose proof (url_decode_loop_length (dst_size - 1) src). lia.
Qed.

Lemma url_decode_fits_witness :
  String.length (url_decode "a%20b+c" 4) < 4.
Proof. apply (url_decode_fits "a%20b+c" 4). lia. Defined.

(** What [encode_char] gives: the character itself, which is then none
    of the characters the parsers act on, or a percent sign and two
    digits that [strtol] reads back as the character. *)
Lemma encode_char_cases (c : ascii) :
  (encode_char c = String c EmptyString
   /\ Ascii.eqb c "%" = false /\ Ascii.eqb c "+" = false)
  \/ (exists h1 h2,
        encode_char c = String "%" (String h1 (String h2 EmptyString))
        /\ char_of_long (strtol16 (String h1 (String h2 EmptyString))) = c).
Proof.
  destruct c as [[] [] [] [] [] [] [] []];
    first [ left; repeat split; reflexivity
          | right; eexists _, _; split; [vm_compute; reflexivity | reflexivity] ].
Qed.

Lemma url_decode_loop_encoded (room : nat) (c : ascii) (rest : string) :
  url_decode_loop (S room) (encode_char c +:+ rest)
  = String c (url_decode_loop room rest).
Proof.
  destruct (encode_char_cases c) as [(-> & Hp & Hplus) | (h1 & h2 & -> & Hc)].
  - rewrite str_app_cons. change (EmptyString +:+ rest) with rest.
    cbn [url_decode_loop]. rewrite Hp, Hplus.
    destruct rest as [| ? [| ? ?]]; reflexivity.
  - rewrite !str_app_cons. change (EmptyString +:+ rest) with rest.
    cbn [url_decode_loop]. rewrite Ascii.eqb_refl, Hc. reflexivity.
Qed.

Lemma url_decode_loop_percent_encode (room : nat) (s : string) :
  String.length s <= room -> url_decode_loop room (percent_encode s) = s.
Proof.
  revert room. induction s as [| c s IH]; intros room Hroom.
  - cbn [percent_encode]. apply url_decode_loop_empty.
  - cbn [percent_encode]. cbn [String.length] in Hroom.
    destruct room as [| room]; [lia |].
    rewrite url_decode_loop_encoded, IH by lia. reflexivity.
Qed.

(** X10.  [url_decode] undoes percent-encoding: a string in which every
    character other than a letter, a digit, [-], [.], [_] and [~] is
    written as a percent sign and its two hexadecimal digits decodes to
    the string it stands for, whatever its bytes, when the destination has
    room for it and the terminator. *)
Theorem url_decode_percent_encode (s : string) (dst_size : nat) :
  String.length s < dst_size -> url_decode (percent_encode s) dst_size = s.
Proof.
  intros Hlen. unfold url_decode. apply url_decode_loop_percent_encode. lia.
Qed.

Lemma url_decode_percent_encode_witness :
  url_decode (percent_encode "a b&c=d/%+") 128 = "a b&c=d/%+"%string.
Proof. apply (url_decode_percent_encode "a b&c=d/%+" 128). cbn. lia. Defined.

End Url_decode_bounds.

Section Tokens.
Import Request Format.

Lemma str_forall_app (P : ascii -> bool) (s t : string) :
  str_forall P (s +:+ t) = str_forall P s && str_forall P t.
Proof.
  induction s as [| c s IH]; [reflexivity |].
  rewrite str_app_cons. cbn [str_forall]. rewrite IH, andb_assoc. reflexivity.
Qed.

Lemma str_forall_impl (P Q : ascii -> bool) (s : string) :
  (forall c, P c = true -> Q c = true) ->
  str_forall P s = true -> str_forall Q s = true.
Proof.
  intros HPQ. induction s as [| c s IH]; [reflexivity |]. cbn [str_forall].
  intros [Hc Hs]%andb_true_iff. rewrite (HPQ c Hc), (IH Hs). reflexivity.
Qed.

Lemma strchr_absent (s : string) (c : ascii) :
  str_forall (fun a => negb (Ascii.eqb a c)) s = true -> strchr s c = None.
Proof.
  induction s as [| a s IH]; [reflexivity |]. cbn [str_forall strchr].
  intros [Ha Hs]%andb_true_iff. apply negb_true_iff in Ha. rewrite Ha, (IH Hs).
  reflexivity.
Qed.

Lemma strchr_first (s t : string) (c : ascii) :
  str_forall (fun a => negb (Ascii.eqb a c)) s = true ->
  strchr (s +:+ String c t) c = Some (String.length s).
Proof.
  induction s as [| a s IH].
  - intros _. change (EmptyString +:+ String c t) with (String c t).
    cbn [strchr]. rewrite Ascii.eqb_refl. reflexivity.
  - cbn [str_forall]. intros [Ha Hs]%andb_true_iff. apply negb_true_iff in Ha.
    rewrite str_app_cons. cbn [strchr]. rewrite Ha, (IH Hs). reflexivity.
Qed.

Lemma str_take_app (s t : string) : str_take (String.length s) (s +:+ t) = s.
Proof.
  induction s as [| a s IH]; [destruct t; reflexivity |].
  rewrite str_app_cons. cbn. rewrite IH. reflexivity.
Qed.

Lemma str_drop_app (s t : string) : str_drop (String.length s) (s +:+ t) = t.
Proof.
  induction s as [| a s IH]; [destruct t; reflexivity |].
  rewrite str_app_cons. cbn. exact IH.
Qed.

(** [strtok] steps over a delimiter in front. *)
Lemma strtok_all_delim (d : ascii -> bool) (c : ascii) (s : string) :
  d c = true -> strtok_all d (String c s) = strtok_all d s.
Proof. intros Hc. cbn [strtok_all]. rewrite Hc. reflexivity. Qed.

(** A text without delimiters in front of a delimiter is the next token. *)
Lemma strtok_all_token (d : ascii -> bool) (t : string) (c : ascii) (rest : string) :
  t <> EmptyString -> str_forall (fun a => negb (d a)) t = true -> d c = true ->
  strtok_all d (t +:+ String c rest) = t :: strtok_all d rest.
Proof.
  intros Hne Ht Hc. induction t as [| a t IH]; [done |].
  cbn [str_forall] in Ht. apply andb_true_iff in Ht as [Ha Ht].
  apply negb_true_iff in Ha. rewrite str_app_cons. cbn [strtok_all]. rewrite Ha.
  destruct t as [| b t].
  - change (EmptyString +:+ String c rest) with (String c rest).
    cbn [starts_token]. rewrite Hc. cbn [negb].
    rewrite strtok_all_delim by exact Hc. reflexivity.
  - rewrite IH by done. rewrite str_app_cons. cbn [starts_token].
    cbn [str_forall] in Ht. apply andb_true_iff in Ht as [Hb _]. rewrite Hb.
    reflexivity.
Qed.

(** And a text without delimiters at the end of the input is the last. *)
Lemma strtok_all_last (d : ascii -> bool) (t : string) :
  t <> EmptyString -> str_forall (fun a => negb (d a)) t = true ->
  strtok_all d t = [t].
Proof.
  intros Hne Ht. induction t as [| a t IH]; [done |].
  cbn [str_forall] in Ht. apply andb_true_iff in Ht as [Ha Ht].
  apply negb_true_iff in Ha. cbn [strtok_all]. rewrite Ha.
  destruct t as [| b t]; [reflexivity |].
  rewrite IH by done. cbn [starts_token].
  cbn [str_forall] in Ht. apply andb_true_iff in Ht as [Hb _]. rewrite Hb.
  reflexivity.
Qed.

End Tokens.

Section Query_string.
Import Http Codec Request Format.

Lemma encode_char_encoded (c : ascii) : str_forall encoded_char (encode_char c) = true.
Proof. destruct c as [[] [] [] [] [] [] [] []]; vm_compute; reflexivity. Qed.

Lemma percent_encode_encoded (s : string) :
  str_forall encoded_char (percent_encode s) = true.
Proof.
  induction s as [| c s IH]; [reflexivity |]. cbn [percent_encode].
  rewrite str_forall_app, encode_char_encoded, IH. reflexivity.
Qed.

Lemma encoded_char_not (c : ascii) :
  encoded_char c = true ->
  Ascii.eqb c "&" = false /\ Ascii.eqb c "=" = false /\ Ascii.eqb c "?" = false
  /\ word_char c = true.
Proof.
  unfold encoded_char. rewrite !andb_true_iff, !negb_true_iff. tauto.
Qed.

Lemma written_token (kv : string * string) :
  written kv <> EmptyString
  /\ str_forall (fun a => negb (amp a)) (written kv) = true.
Proof.
  unfold written. split.
  - destruct (percent_encode kv.1); [| rewrite str_app_cons]; done.
  - assert (Henc : forall s, str_forall (fun a => negb (amp a)) (percent_encode s) = true).
    { intros s. apply (str_forall_impl encoded_char); [| apply percent_encode_encoded].
      intros c Hc. apply encoded_char_not in Hc as (H & _). unfold amp. rewrite H. done. }
    rewrite !str_forall_app, !Henc. reflexivity.
Qed.

Lemma format_query_cons (kv : string * string) (rest : list (string * string)) :
  rest <> [] ->
  format_query (kv :: rest) = written kv +:+ String "&" (format_query rest).
Proof.
  destruct kv as [k v]. destruct rest as [| kv' rest]; [done |]. intros _.
  cbn [format_query]. unfold written. cbn [fst snd].
  rewrite !str_app_assoc. reflexivity.
Qed.

Lemma format_query_tokens (pairs : list (string * string)) :
  strtok_all amp (format_query pairs) = map written pairs.
Proof.
  induction pairs as [| kv rest IH]; [reflexivity |].
  destruct (written_token kv) as [Hne Hfree].
  destruct rest as [| kv' rest].
  - destruct kv as [k v]. cbn [format_query map].
    apply (strtok_all_last amp (written (k, v))); assumption.
  - rewrite format_query_cons by done.
    rewrite strtok_all_token by (try assumption; reflexivity).
    rewrite IH. reflexivity.
Qed.

Lemma c_string_id (s : string) : Hpack.is_c_string s -> c_string s = s.
Proof.
  induction s as [| c s IH]; [reflexivity |].
  intros [Hc Hs]%is_c_string_cons. cbn [c_string].
  destruct (Ascii.eqb_spec c zero) as [-> | _]; [done |]. rewrite (IH Hs). reflexivity.
Qed.

Lemma str_drop_S_app (s : string) (c : ascii) (t : string) :
  str_drop (S (String.length s)) (s +:+ String c t) = t.
Proof.
  induction s as [| a s IH]; [destruct t; reflexivity |].
  rewrite str_app_cons. cbn [String.length str_drop]. exact IH.
Qed.

(** One round of the loop on a pair as it is written. *)
Lemma add_pairs_step (request : HTTP_REQUEST) (k v : string) (tokens : list string) :
  short_pair (k, v) ->
  add_pairs request (written (k, v) :: tokens)
  = add_pairs (http_request_add_query_param request k v) tokens.
Proof.
  intros (Hk & Hv & Hkc & Hvc). cbn [fst snd] in *. cbn [add_pairs].
  unfold written. cbn [fst snd].
  assert (Hfree : str_forall (fun a => negb (Ascii.eqb a "=")) (percent_encode k) = true).
  { apply (str_forall_impl encoded_char); [| apply percent_encode_encoded].
    intros c Hc. apply encoded_char_not in Hc as (_ & H & _). rewrite H. done. }
  change (percent_encode k +:+ "=" +:+ percent_encode v)
    with (percent_encode k +:+ String "=" (percent_encode v)).
  rewrite (strchr_first _ _ _ Hfree). unfold left_of, right_of.
  rewrite str_take_app, str_drop_S_app.
  unfold url_decode. rewrite !url_decode_loop_percent_encode by lia.
  rewrite !c_string_id by assumption. reflexivity.
Qed.

Lemma add_pairs_written (request : HTTP_REQUEST) (pairs : list (string * string)) :
  Forall short_pair pairs ->
  let request' := add_pairs request (map written pairs) in
  query_params request' = query_params request ++ map entry pairs
  /\ req_method request' = req_method request
  /\ req_path request' = req_path request
  /\ query_string request' = query_string request
  /\ http_version request' = http_version request
  /\ req_headers request' = req_headers request
  /\ req_body request' = req_body request
  /\ path_params request' = path_params request.
Proof.
  revert request. induction pairs as [| [k v] rest IH]; intros request Hall.
  { cbn. rewrite app_nil_r. done. }
  apply list.Forall_cons in Hall as [Hkv Hrest].
  cbn [map]. rewrite (add_pairs_step _ _ _ _ Hkv). cbv zeta in IH |- *.
  destruct (IH (http_request_add_query_param request k v) Hrest)
    as (-> & -> & -> & -> & -> & -> & -> & ->).
  cbn [http_request_add_query_param query_params req_method req_path query_string
       http_version req_headers req_body path_params].
  destruct Hkv as (Hk & Hv & _). cbn [fst snd] in *.
  unfold store_pair. rewrite !str_take_all by lia.
  rewrite <- app_assoc. done.
Qed.

Lemma parse_query_string_written (request : HTTP_REQUEST)
    (pairs : list (string * string)) :
  query_string request = format_query pairs ->
  String.length (format_query pairs) <= 511 ->
  Forall short_pair pairs ->
  let request' := parse_query_string request in
  query_params request' = query_params request ++ map entry pairs
  /\ req_method request' = req_method request
  /\ req_path request' = req_path request
  /\ query_string request' = query_string request
  /\ http_version request' = http_version request
  /\ req_headers request' = req_headers request
  /\ req_body request' = req_body request
  /\ path_params request' = path_params request.
Proof.
  intros Hq Hlen Hall. unfold parse_query_string. rewrite Hq.
  destruct (String.length (format_query pairs) =? 0) eqn:Hzero.
  - apply Nat.eqb_eq in Hzero.
    destruct pairs as [| kv rest]; [cbn; rewrite app_nil_r; done |].
    exfalso. destruct (written_token kv) as [Hne _].
    destruct rest as [| kv' rest].
    + destruct kv as [k v]. cbn [format_query] in Hzero. apply Hne.
      unfold written. cbn [fst snd].
      destruct (percent_encode k +:+ "=" +:+ percent_encode v); [done | cbn in Hzero; lia].
    + rewrite format_query_cons in Hzero by done.
      rewrite str_length_app in Hzero. cbn [String.length] in Hzero. lia.
  - rewrite str_take_all by lia. rewrite format_query_tokens.
    pose proof (add_pairs_written request pairs Hall) as H.
    cbv zeta in H. rewrite Hq in H. exact H.
Qed.

(** X11.  [parse_query_string] reads a query string written as
    [k1=v1&k2=v2...] with percent-encoded keys and values back into the
    pairs, in order, added behind the query parameters the request has,
    and changes nothing else.  Keys and values are C strings that fit the
    parameter fields, and the query string fits the request's field. *)
Theorem parse_query_string_formatted (request : HTTP_REQUEST)
    (pairs : list (string * string)) :
  query_string request = format_query pairs ->
  String.length (format_query pairs) <= 511 ->
  Forall short_pair pairs ->
  let request' := parse_query_string request in
  query_params request' = query_params request ++ map entry pairs
  /\ req_method request' = req_method request
  /\ req_path request' = req_path request
  /\ query_string request' = query_string request
  /\ http_version request' = http_version request
  /\ req_headers request' = req_headers request
  /\ req_body request' = req_body request
  /\ path_params request' = path_params request.
Proof. apply parse_query_string_written. Qed.

Lemma parse_query_string_formatted_witness :
  let request :=
    {| req_method := HTTP_METHOD_GET; req_path := "/search";
       query_string := "q=a%20b%26c&lang=en"; http_version := "HTTP/1.1";
       req_headers := []; req_body := ""; path_params := []; query_params := [] |} in
  query_params (parse_query_string request)
  = [{| name := "q"; value := "a b&c" |}; {| name := "lang"; value := "en" |}].
Proof.
  destruct (parse_query_string_formatted
              {| req_method := HTTP_METHOD_GET; req_path := "/search";
                 query_string := "q=a%20b%26c&lang=en"; http_version := "HTTP/1.1";
                 req_headers := []; req_body := ""; path_params := [];
                 query_params := [] |}
              [("q", "a b&c"); ("lang", "en")]%string) as [H _].
  - reflexivity.
  - vm_compute. lia.
  - repeat constructor; cbn; lia.
  - cbv zeta. rewrite H. reflexivity.
Defined.

End Query_string.

Section Request_parsing.
Import Http Codec Request Format.

Lemma word_char_not (c : ascii) :
  word_char c = true -> isspace c = false /\ Ascii.eqb c zero = false.
Proof. unfold word_char. rewrite andb_true_iff, !negb_true_iff. tauto. Qed.

Lemma scan_word_word (width : nat) (w rest : string) :
  str_forall word_char w = true -> String.length w <= width ->
  starts_token isspace rest = false ->
  scan_word width (w +:+ rest) = (w, rest).
Proof.
  revert width. induction w as [| a w IH]; intros width Hw Hlen Hrest.
  - change (EmptyString +:+ rest) with rest.
    destruct width as [| width]; [reflexivity |].
    destruct rest as [| c r]; [reflexivity |]. cbn [scan_word].
    cbn [starts_token] in Hrest. apply negb_false_iff in Hrest.
    rewrite Hrest. reflexivity.
  - cbn [str_forall] in Hw. apply andb_true_iff in Hw as [Ha Hw].
    apply word_char_not in Ha as [Ha _]. cbn [String.length] in Hlen.
    destruct width as [| width]; [lia |].
    rewrite str_app_cons. cbn [scan_word]. rewrite Ha, IH by (try assumption; lia).
    reflexivity.
Qed.

Lemma scan_s_word (width : nat) (w rest : string) :
  word w -> String.length w <= width ->
  starts_token isspace rest = false ->
  scan_s width (w +:+ rest) = Some (w, rest).
Proof.
  intros [Hne Hw] Hlen Hrest. unfold scan_s.
  destruct w as [| a w]; [done |].
  assert (Ha : isspace a = false).
  { cbn [str_forall] in Hw. apply andb_true_iff in Hw as [Ha _].
    apply word_char_not in Ha as [Ha _]. exact Ha. }
  rewrite str_app_cons. cbn [skip_spaces]. rewrite Ha.
  rewrite <- str_app_cons, scan_word_word by assumption. reflexivity.
Qed.

Lemma scan_s_blank_word (width : nat) (w rest : string) :
  word w -> String.length w <= width ->
  starts_token isspace rest = false ->
  scan_s width (String " " (w +:+ rest)) = Some (w, rest).
Proof.
  intros Hw Hlen Hrest. rewrite <- (scan_s_word width w rest Hw Hlen Hrest).
  unfold scan_s. reflexivity.
Qed.

Lemma scan_request_line_words (m t v : string) :
  word m -> String.length m <= 15 ->
  word t -> String.length t <= 511 ->
  word v -> String.length v <= 15 ->
  scan_request_line (m +:+ " " +:+ t +:+ " " +:+ v) = Some (m, t, v).
Proof.
  intros Hm Hml Ht Htl Hv Hvl. unfold scan_request_line.
  replace (m +:+ " " +:+ t +:+ " " +:+ v)
    with (m +:+ String " " (t +:+ String " " (v +:+ EmptyString)))
    by (rewrite str_app_nil_r; reflexivity).
  rewrite scan_s_word by (try assumption; reflexivity).
  rewrite scan_s_blank_word by (try assumption; reflexivity).
  rewrite scan_s_blank_word by (try assumption; reflexivity).
  reflexivity.
Qed.

Lemma c_string_app (a b : string) :
  str_forall (fun c => negb (Ascii.eqb c zero)) a = true ->
  c_string (a +:+ b) = a +:+ c_string b.
Proof.
  induction a as [| c a IH]; [reflexivity |]. cbn [str_forall].
  intros [Hc Ha]%andb_true_iff. apply negb_true_iff in Hc.
  rewrite !str_app_cons. cbn [c_string]. rewrite Hc, (IH Ha). reflexivity.
Qed.

(** The header loop on a header line as it is written. *)
Lemma add_header_lines_step (request : HTTP_REQUEST) (h : string * string)
    (lines : list string) :
  header_ok h ->
  add_header_lines request (hline h :: lines)
  = add_header_lines (http_request_add_header request h.1 h.2) lines.
Proof.
  destruct h as [n v]. intros (Hn & Hv & Hblank & _). cbn [fst snd] in *.
  cbn [add_header_lines]. unfold hline. cbn [fst snd].
  change (n +:+ ": " +:+ v) with (n +:+ String ":" (String " " v)).
  assert (Hlen : (String.length (n +:+ String ":" (String " " v)) =? 0) = false).
  { apply Nat.eqb_neq. rewrite str_length_app. cbn [String.length]. lia. }
  rewrite Hlen.
  assert (Hfree : str_forall (fun a => negb (Ascii.eqb a ":")) n = true).
  { revert Hn. apply str_forall_impl. intros c [_ Hc]%andb_true_iff. exact Hc. }
  rewrite (strchr_first _ _ _ Hfree). unfold left_of, right_of.
  rewrite str_take_app, str_drop_S_app. cbn [skip_blanks].
  change (Ascii.eqb " " " ") with true. cbv iota.
  replace (skip_blanks v) with v; [reflexivity |].
  destruct v as [| c v]; [reflexivity |]. cbn [starts_with] in Hblank.
  cbn [skip_blanks]. rewrite Hblank. reflexivity.
Qed.

(** The header loop only appends headers, and what it appends depends
    on the lines alone. *)
Lemma add_header_lines_fields (request : HTTP_REQUEST) (lines : list string) :
  let request' := add_header_lines request lines in
  req_headers request'
  = req_headers request
    ++ req_headers (add_header_lines http_request_create lines)
  /\ req_method request' = req_method request
  /\ req_path request' = req_path request
  /\ query_string request' = query_string request
  /\ http_version request' = http_version request
  /\ req_body request' = req_body request
  /\ path_params request' = path_params request
  /\ query_params request' = query_params request.
Proof.
  cbv zeta. revert request. induction lines as [| line rest IH]; intros request.
  { cbn. rewrite app_nil_r. done. }
  cbn [add_header_lines].
  destruct (String.length line =? 0); [cbn; rewrite app_nil_r; done |].
  destruct (strchr line ":") as [i |]; [| apply IH].
  destruct (IH (http_request_add_header request (left_of i line)
                  (skip_blanks (right_of i line))))
    as (-> & -> & -> & -> & -> & -> & -> & ->).
  destruct (IH (http_request_add_header http_request_create (left_of i line)
                  (skip_blanks (right_of i line))))
    as (-> & _).
  cbn [http_request_add_header http_request_create req_headers req_method req_path
       query_string http_version req_body path_params query_params app].
  rewrite <- app_assoc. done.
Qed.

Lemma add_header_lines_written (request : HTTP_REQUEST)
    (hs : list (string * string)) (lines : list string) :
  Forall header_ok hs ->
  add_header_lines request (map hline hs ++ lines)
  = add_header_lines
      {| req_method := req_method request; req_path := req_path request;
         query_string := query_string request; http_version := http_version request;
         req_headers := req_headers request ++ map entry hs;
         req_body := req_body request;
         path_params := path_params request; query_params := query_params request |}
      lines.
Proof.
  revert request. induction hs as [| h hs IH]; intros request Hall.
  { cbn [map app]. rewrite app_nil_r. destruct request; reflexivity. }
  apply list.Forall_cons in Hall as [Hh Hhs].
  cbn [map app]. rewrite (add_header_lines_step _ _ _ Hh), (IH _ Hhs).
  cbn [http_request_add_header req_headers req_method req_path
       query_string http_version req_body path_params query_params].
  destruct Hh as (_ & _ & _ & Hnl & Hvl). unfold store_pair.
  rewrite !str_take_all by lia. rewrite <- app_assoc. destruct h; reflexivity.
Qed.

Lemma hline_token (h : string * string) :
  header_ok h ->
  hline h <> EmptyString
  /\ str_forall line_char (hline h) = true.
Proof.
  destruct h as [n v]. intros (Hn & Hv & _). cbn [fst snd] in *. unfold hline.
  cbn [fst snd]. split.
  - destruct n; [| rewrite str_app_cons]; done.
  - rewrite !str_forall_app, Hv.
    rewrite (str_forall_impl _ line_char n) by
      (try exact Hn; intros c [Hc _]%andb_true_iff; exact Hc).
    reflexivity.
Qed.

Lemma line_char_not_end (s : string) :
  str_forall line_char s = true ->
  str_forall (fun a => negb (is_line_end a)) s = true.
Proof. apply str_forall_impl. intros c [Hc _]%andb_true_iff. exact Hc. Qed.

Lemma line_char_not_zero (s : string) :
  str_forall line_char s = true ->
  str_forall (fun a => negb (Ascii.eqb a zero)) s = true.
Proof. apply str_forall_impl. intros c [_ Hc]%andb_true_iff. exact Hc. Qed.

Lemma crlf_app (s : string) : CRLF +:+ s = String CR (String LF s).
Proof. reflexivity. Qed.

(** [strtok] on a line and what follows its line end. *)
Lemma strtok_all_line (t rest : string) :
  t <> EmptyString -> str_forall line_char t = true ->
  strtok_all is_line_end (t +:+ CRLF +:+ rest) = t :: strtok_all is_line_end rest.
Proof.
  intros Hne Ht. rewrite crlf_app.
  rewrite strtok_all_token by (try assumption; try reflexivity;
                               apply line_char_not_end; assumption).
  rewrite strtok_all_delim by reflexivity. reflexivity.
Qed.

Lemma format_headers_cons (h : string * string) (hs : list (string * string)) :
  format_headers (h :: hs) = hline h +:+ CRLF +:+ format_headers hs.
Proof.
  destruct h as [n v]. cbn [format_headers]. unfold hline. cbn [fst snd].
  rewrite !str_app_assoc. reflexivity.
Qed.

Lemma strtok_all_headers (hs : list (string * string)) (rest : string) :
  Forall header_ok hs ->
  strtok_all is_line_end (format_headers hs +:+ rest)
  = map hline hs ++ strtok_all is_line_end rest.
Proof.
  induction hs as [| h hs IH]; intros Hall; [reflexivity |].
  apply list.Forall_cons in Hall as [Hh Hhs].
  destruct (hline_token h Hh) as [Hne Hline].
  rewrite format_headers_cons, !str_app_assoc.
  rewrite strtok_all_line by assumption. rewrite (IH Hhs). reflexivity.
Qed.

Lemma format_headers_no_zero (hs : list (string * string)) :
  Forall header_ok hs ->
  str_forall (fun a => negb (Ascii.eqb a zero)) (format_headers hs) = true.
Proof.
  induction hs as [| h hs IH]; intros Hall; [reflexivity |].
  apply list.Forall_cons in Hall as [Hh Hhs].
  destruct (hline_token h Hh) as [_ Hline].
  rewrite format_headers_cons, !str_forall_app, (IH Hhs).
  rewrite (line_char_not_zero _ Hline). reflexivity.
Qed.

(** The needle "\r\n\r\n" is not found inside a line, nor at a line end
    that a line follows. *)
Lemma strstr_line (t rest : string) :
  str_forall line_char t = true ->
  strstr (t +:+ rest) (CRLF +:+ CRLF)
  = (fun i => String.length t + i) <$> strstr rest (CRLF +:+ CRLF).
Proof.
  induction t as [| a t IH]; intros Ht.
  - change (EmptyString +:+ rest) with rest. cbn [String.length].
    destruct (strstr rest (CRLF +:+ CRLF)); reflexivity.
  - cbn [str_forall] in Ht. apply andb_true_iff in Ht as [Ha Ht].
    rewrite str_app_cons. cbn [strstr].
    assert (Hpre : String.prefix (CRLF +:+ CRLF) (String a (t +:+ rest)) = false).
    { unfold line_char, is_line_end in Ha.
      apply andb_true_iff in Ha as [Ha _]. apply negb_true_iff in Ha.
      apply orb_false_iff in Ha as [Ha _].
      change (CRLF +:+ CRLF) with (String CR (String LF CRLF)).
      cbn [String.prefix].
      destruct (Ascii.ascii_dec CR a) as [<- | _]; [| reflexivity].
      rewrite Ascii.eqb_refl in Ha. discriminate. }
    rewrite Hpre, (IH Ht). cbn [String.length].
    destruct (strstr rest (CRLF +:+ CRLF)); reflexivity.
Qed.

Lemma strstr_line_end (t rest : string) :
  t <> EmptyString -> str_forall line_char t = true ->
  strstr (CRLF +:+ t +:+ rest) (CRLF +:+ CRLF)
  = (fun i => 2 + i) <$> strstr (t +:+ rest) (CRLF +:+ CRLF).
Proof.
  intros Hne Ht. destruct t as [| a t]; [done |].
  cbn [str_forall] in Ht. apply andb_true_iff in Ht as [Ha _].
  unfold line_char, is_line_end in Ha.
  apply andb_true_iff in Ha as [Ha _]. apply negb_true_iff in Ha.
  apply orb_false_iff in Ha as [Ha _].
  rewrite str_app_cons, crlf_app.
  change (CRLF +:+ CRLF) with (String CR (String LF (String CR (String LF EmptyString)))).
  cbn [strstr String.prefix].
  destruct (Ascii.ascii_dec CR CR) as [_ | Hn]; [| done].
  destruct (Ascii.ascii_dec LF LF) as [_ | Hn]; [| done].
  destruct (Ascii.ascii_dec CR a) as [<- | _].
  { rewrite Ascii.eqb_refl in Ha. discriminate. }
  destruct (Ascii.ascii_dec CR LF) as [Heq | _]; [discriminate Heq |].
  destruct (strstr (t +:+ rest) _); reflexivity.
Qed.

Lemma strstr_found (needle rest : string) :
  strstr (needle +:+ rest) needle = Some 0.
Proof.
  destruct (needle +:+ rest) eqn:Heq; cbn [strstr]; rewrite <- Heq, prefix_app;
    reflexivity.
Qed.

(** The first "\r\n\r\n" of a request as it is written is the one that
    ends the header lines. *)
Lemma strstr_head (t : string) (hs : list (string * string)) (rest : string) :
  str_forall line_char t = true -> Forall header_ok hs ->
  strstr (t +:+ CRLF +:+ format_headers hs +:+ CRLF +:+ rest) (CRLF +:+ CRLF)
  = Some (String.length t + String.length (format_headers hs)).
Proof.
  revert t. induction hs as [| h hs IH]; intros t Ht Hall.
  - cbn [format_headers]. change (EmptyString +:+ CRLF +:+ rest) with (CRLF +:+ rest).
    rewrite (strstr_line _ _ Ht), <- str_app_assoc, strstr_found.
    cbn. f_equal.
  - apply list.Forall_cons in Hall as [Hh Hhs].
    destruct (hline_token h Hh) as [Hne Hline].
    rewrite format_headers_cons, !str_app_assoc.
    rewrite (strstr_line _ _ Ht), (strstr_line_end _ _ Hne Hline), (IH _ Hline Hhs).
    cbn [fmap option_fmap option_map]. rewrite !str_length_app.
    unfold CRLF. cbn [String.length]. f_equal. lia.
Qed.

Lemma word_char_line_char (c : ascii) : word_char c = true -> line_char c = true.
Proof.
  destruct c as [[] [] [] [] [] [] [] []]; vm_compute; intros H;
    first [reflexivity | discriminate H].
Qed.

Lemma word_line (w : string) :
  str_forall word_char w = true -> str_forall line_char w = true.
Proof. apply str_forall_impl, word_char_line_char. Qed.

Lemma strchr_none_forall (s : string) (c : ascii) :
  strchr s c = None -> str_forall (fun a => negb (Ascii.eqb a c)) s = true.
Proof.
  induction s as [| a s IH]; [reflexivity |]. cbn [strchr str_forall]. intros H.
  destruct (Ascii.eqb a c); [discriminate H |].
  destruct (strchr s c); [discriminate H |]. rewrite IH; reflexivity.
Qed.

Lemma written_word (kv : string * string) : str_forall word_char (written kv) = true.
Proof.
  assert (Henc : forall s, str_forall word_char (percent_encode s) = true).
  { intros s. apply (str_forall_impl encoded_char); [| apply percent_encode_encoded].
    intros c Hc. apply encoded_char_not in Hc as (_ & _ & _ & H). exact H. }
  unfold written. rewrite !str_forall_app, !Henc. reflexivity.
Qed.

Lemma format_query_word (pairs : list (string * string)) :
  str_forall word_char (format_query pairs) = true.
Proof.
  induction pairs as [| kv rest IH]; [reflexivity |].
  destruct rest as [| kv' rest].
  - destruct kv as [k v]. apply (written_word (k, v)).
  - rewrite format_query_cons by done.
    rewrite str_forall_app, written_word. cbn [str_forall andb].
    rewrite IH. reflexivity.
Qed.

Lemma target_of_word (p : string) (pairs : list (string * string)) :
  word p -> word (target_of p pairs).
Proof.
  intros [Hne Hp]. destruct pairs as [| kv rest]; [split; assumption |].
  unfold target_of. split.
  - destruct p; [| rewrite str_app_cons]; done.
  - rewrite !str_forall_app, Hp, format_query_word. reflexivity.
Qed.

Lemma format_request_head (m t v : string) (hs : list (string * string))
    (body_bytes : string) :
  format_request m t v hs body_bytes
  = (m +:+ " " +:+ t +:+ " " +:+ v) +:+ CRLF +:+ format_headers hs +:+ CRLF
    +:+ body_bytes.
Proof. unfold format_request. rewrite !str_app_assoc. reflexivity. Qed.

Lemma request_line_chars (m t v : string) :
  word m -> word t -> word v ->
  (m +:+ " " +:+ t +:+ " " +:+ v) <> EmptyString
  /\ str_forall line_char (m +:+ " " +:+ t +:+ " " +:+ v) = true.
Proof.
  intros [Hm Hmc] [_ Htc] [_ Hvc]. split.
  - destruct m; [| rewrite str_app_cons]; done.
  - rewrite !str_forall_app, (word_line m Hmc), (word_line t Htc), (word_line v Hvc).
    reflexivity.
Qed.

(** The target of the request line, split at the question mark. *)
Lemma target_split (p : string) (pairs : list (string * string)) :
  strchr p "?" = None ->
  String.length (target_of p pairs) <= 511 ->
  match strchr (str_take 511 (target_of p pairs)) "?" with
  | Some i => (left_of i (str_take 511 (target_of p pairs)),
               Some (str_take 511 (right_of i (str_take 511 (target_of p pairs)))))
  | None => (str_take 511 (target_of p pairs), None)
  end
  = (p, match pairs with [] => None | _ => Some (format_query pairs) end).
Proof.
  intros Hq Hlen. rewrite str_take_all by exact Hlen.
  destruct pairs as [| kv rest].
  - cbn [target_of]. rewrite Hq. reflexivity.
  - unfold target_of in *.
    change (p +:+ "?" +:+ format_query (kv :: rest))
      with (p +:+ String "?" (format_query (kv :: rest))) in *.
    rewrite (strchr_first _ _ _ (strchr_none_forall _ _ Hq)).
    unfold left_of, right_of. rewrite str_take_app, str_drop_S_app.
    rewrite str_length_app in Hlen. cbn [String.length] in Hlen.
    rewrite str_take_all by lia. reflexivity.
Qed.

Lemma parse_written_request (m p v : string) (pairs hs : list (string * string))
    (body_bytes : string) :
  word m -> String.length m <= 15 ->
  word p -> strchr p "?" = None ->
  word v -> String.length v <= 15 ->
  String.length (target_of p pairs) <= 511 ->
  Forall short_pair pairs -> Forall header_ok hs ->
  body_ok body_bytes ->
  parse_http_request (format_request m (target_of p pairs) v hs body_bytes)
  = Some {| req_method := http_method_from_string m;
            req_path := p;
            query_string := format_query pairs;
            http_version := v;
            req_headers := map entry hs ++ body_headers body_bytes;
            req_body := body_bytes;
            path_params := [];
            query_params := map entry pairs |}.
Proof.
  intros Hm Hml Hp Hq Hv Hvl Htl Hpairs Hhs _.
  pose proof (target_of_word p pairs Hp) as Ht.
  destruct (request_line_chars m (target_of p pairs) v Hm Ht Hv) as [Hne Hline].
  set (line := m +:+ " " +:+ target_of p pairs +:+ " " +:+ v) in *.
  unfold parse_http_request. rewrite format_request_head. fold line.
  assert (Hcopy : c_string (line +:+ CRLF +:+ format_headers hs +:+ CRLF +:+ body_bytes)
                  = line +:+ CRLF +:+ format_headers hs +:+ CRLF +:+ c_string body_bytes).
  { rewrite <- !(str_app_assoc (format_headers hs) CRLF).
    rewrite <- !(str_app_assoc CRLF (format_headers hs +:+ CRLF)).
    rewrite <- !(str_app_assoc line).
    apply c_string_app. rewrite !str_forall_app.
    rewrite (line_char_not_zero _ Hline), (format_headers_no_zero _ Hhs). reflexivity. }
  rewrite Hcopy, (strstr_head _ _ _ Hline Hhs).
  rewrite (strtok_all_line _ _ Hne Hline), (strtok_all_headers _ _ Hhs).
  rewrite crlf_app, !strtok_all_delim by reflexivity.
  subst line. rewrite (scan_request_line_words _ _ _ Hm Hml Ht Htl Hv Hvl).
  rewrite (target_split _ _ Hq Htl).
  rewrite (str_take_all 15 v) by exact Hvl.
  rewrite add_header_lines_written by exact Hhs.
  match goal with
  | |- context [add_header_lines ?r ?ls] =>
      destruct (add_header_lines_fields r ls)
        as (-> & -> & -> & -> & -> & _ & -> & ->)
  end.
  cbn [req_headers req_method req_path query_string http_version req_body
       path_params query_params].
  assert (Hbody : str_drop
                    (String.length (m +:+ " " +:+ target_of p pairs +:+ " " +:+ v)
                     + String.length (format_headers hs) + 4)
                    ((m +:+ " " +:+ target_of p pairs +:+ " " +:+ v) +:+ CRLF
                     +:+ format_headers hs +:+ CRLF +:+ body_bytes)
                  = body_bytes).
  { rewrite <- !(str_app_assoc (format_headers hs) CRLF).
    rewrite <- !(str_app_assoc CRLF (format_headers hs +:+ CRLF)).
    rewrite <- !(str_app_assoc (m +:+ " " +:+ target_of p pairs +:+ " " +:+ v)).
    match goal with
    | |- str_drop ?n (?a +:+ _) = _ =>
        replace n with (String.length a); [apply str_drop_app |]
    end.
    rewrite !str_length_app. unfold CRLF. cbn [String.length]. lia. }
  rewrite Hbody. fold (body_headers body_bytes).
  destruct pairs as [| kv rest].
  - reflexivity.
  - cbn [from_option id].
    match goal with
    | |- context [parse_query_string ?r] =>
        destruct (parse_query_string_written r (kv :: rest))
          as (-> & -> & -> & -> & -> & -> & _ & ->)
    end; try reflexivity.
    + unfold target_of in Htl. rewrite !str_length_app in Htl. lia.
    + exact Hpairs.
Qed.

(** X12.  [parse_http_request] reads a request as a client writes it:
    the method is the one the first word names (UNKNOWN for any other
    word), the path is the target in front of the question mark, the query
    parameters are the decoded pairs behind it, the version is the third
    word, the headers are the header lines in order, and the body is every
    byte behind the blank line.  The header loop does not stop at the blank
    line: the lines of the body that hold a colon follow as further
    headers.  The words fit the fields, and the names and values of the
    query pairs, of the headers and of the lines of the body that hold a
    colon are shorter than 127 and 511 characters, so that every one is
    stored whole and with its terminator, in the slots that come from
    [realloc] as well. *)
Theorem parse_formatted_request (m p v : string) (pairs hs : list (string * string))
    (body_bytes : string) :
  word m -> String.length m <= 15 ->
  word p -> strchr p "?" = None ->
  word v -> String.length v <= 15 ->
  String.length (target_of p pairs) <= 511 ->
  Forall short_pair pairs -> Forall header_ok hs ->
  body_ok body_bytes ->
  parse_http_request (format_request m (target_of p pairs) v hs body_bytes)
  = Some {| req_method := http_method_from_string m;
            req_path := p;
            query_string := format_query pairs;
            http_version := v;
            req_headers := map entry hs ++ body_headers body_bytes;
            req_body := body_bytes;
            path_params := [];
            query_params := map entry pairs |}.
Proof. intros. apply parse_written_request; assumption. Qed.

Lemma parse_formatted_request_witness :
  parse_http_request
    (format_request "POST" (target_of "/api/items" [("q", "a b")]) "HTTP/1.1"
       [("Host", "example.org"); ("Content-Type", "text/plain")] "note: kept")
  = Some {| req_method := HTTP_METHOD_POST;
            req_path := "/api/items";
            query_string := "q=a%20b";
            http_version := "HTTP/1.1";
            req_headers := [{| name := "Host"; value := "example.org" |};
                            {| name := "Content-Type"; value := "text/plain" |};
                            {| name := "note"; value := "kept" |}];
            req_body := "note: kept";
            path_params := [];
            query_params := [{| name := "q"; value := "a b" |}] |}.
Proof.
  apply (parse_formatted_request "POST" "/api/items" "HTTP/1.1" [("q", "a b")]%string
           [("Host", "example.org"); ("Content-Type", "text/plain")]%string
           "note: kept");
    try (split; [discriminate | reflexivity]);
    try reflexivity; try (vm_compute; lia);
    repeat constructor; cbn; lia.
Defined.

End Request_parsing.

Section Connection_table.
Import Http Server Reactor Table.

(** What [find_connection] finds is the first record with the socket. *)
Lemma find_connection_from_first (conns : list CONNECTION_STATE) (k i : nat)
    (c : CONNECTION_STATE) (fd : Z) :
  conns !! i = Some c -> socket c = fd ->
  (forall j c', j < i -> conns !! j = Some c' -> socket c' <> fd) ->
  find_connection_from conns k fd = Some (k + i, c).
Proof.
  revert k i. induction conns as [| c0 conns IH]; intros k i Hi Hfd Hfirst; [done |].
  cbn [find_connection_from]. destruct i as [| i].
  - cbn in Hi. simplify_eq. rewrite Z.eqb_refl. f_equal. f_equal. lia.
  - destruct (Z.eqb_spec (socket c0) fd) as [Heq | _].
    + exfalso. apply (Hfirst 0 c0); [lia | reflexivity | exact Heq].
    + cbn in Hi. rewrite (IH (S k) i Hi Hfd).
      * f_equal. f_equal. lia.
      * intros j c' Hj Hc'. apply (Hfirst (S j) c'); [lia | exact Hc'].
Qed.

Lemma find_connection_from_absent (conns : list CONNECTION_STATE) (k : nat) (fd : Z) :
  fd ∉ socket <$> conns -> find_connection_from conns k fd = None.
Proof.
  revert k. induction conns as [| c0 conns IH]; intros k Hfd; [reflexivity |].
  cbn [find_connection_from]. cbn [fmap list_fmap] in Hfd.
  apply not_elem_of_cons in Hfd as [Hne Hrest].
  destruct (Z.eqb_spec (socket c0) fd) as [Heq | _]; [congruence |].
  apply IH. exact Hrest.
Qed.

Lemma swapped_out_parts (l1 l2 : list CONNECTION_STATE) (c : CONNECTION_STATE) :
  swapped_out (l1 ++ c :: l2) (length l1) ≡ₚ l1 ++ l2
  /\ take (length l1) (swapped_out (l1 ++ c :: l2) (length l1)) = l1.
Proof.
  unfold swapped_out. destruct l2 as [| x l2' _] using rev_ind.
  - rewrite length_app. cbn [length].
    replace (length l1 + 1 - 1) with (length l1) by lia.
    rewrite Nat.ltb_irrefl, app_nil_r, take_app_length.
    split; [reflexivity | apply take_ge; lia].
  - assert (Hlen : length (l1 ++ c :: l2' ++ [x]) - 1 = length l1 + S (length l2')).
    { rewrite !length_app. cbn [length]. rewrite length_app. cbn [length]. lia. }
    rewrite Hlen.
    assert (Hlast : (l1 ++ c :: l2' ++ [x]) !! (length l1 + S (length l2')) = Some x).
    { replace (l1 ++ c :: l2' ++ [x]) with ((l1 ++ c :: l2') ++ [x])
        by (rewrite <- app_assoc; reflexivity).
      apply list_lookup_middle. rewrite length_app. cbn. lia. }
    rewrite Hlast.
    assert (Hi : (length l1 <? length l1 + S (length l2')) = true)
      by (apply Nat.ltb_lt; lia).
    rewrite Hi, insert_app_r_alt, Nat.sub_diag by lia. cbn [insert list_insert].
    assert (Htake : take (length l1 + S (length l2')) (l1 ++ x :: l2' ++ [x])
                    = l1 ++ x :: l2').
    { change (l1 ++ x :: l2' ++ [x]) with (l1 ++ (x :: l2') ++ [x]).
      rewrite app_assoc. apply take_app_length'.
      rewrite length_app. cbn. lia. }
    rewrite Htake. split.
    + apply Permutation_app_head. apply Permutation_cons_append.
    + apply take_app_length.
Qed.

Lemma swap_remove (conns : list CONNECTION_STATE) (i : nat) (c : CONNECTION_STATE) :
  conns !! i = Some c ->
  swapped_out conns i ≡ₚ delete i conns
  /\ take i (swapped_out conns i) = take i conns.
Proof.
  intros Hi. pose proof (lookup_lt_Some _ _ _ Hi) as Hlt.
  assert (Hl1 : length (take i conns) = i) by (rewrite length_take; lia).
  pose proof (swapped_out_parts (take i conns) (drop (S i) conns) c) as [Hperm Htake].
  rewrite (take_drop_middle conns i c Hi), Hl1 in Hperm, Htake.
  split; [| exact Htake].
  rewrite Hperm, delete_take_drop. reflexivity.
Qed.

Lemma remove_connection_removes_first_aux (server : HTTP_SERVER)
    (i : nat) (c : CONNECTION_STATE) :
  connection_states server !! i = Some c ->
  (forall j c', j < i -> connection_states server !! j = Some c' ->
                socket c' <> socket c) ->
  exists conns',
    remove_connection server (socket c)
    = (with_connections server conns', [act_close (socket c)])
    /\ conns' ≡ₚ delete i (connection_states server)
    /\ take i conns' = take i (connection_states server).
Proof.
  intros Hi Hfirst. unfold remove_connection, find_connection.
  rewrite (find_connection_from_first _ 0 i c (socket c) Hi eq_refl Hfirst).
  cbn [Nat.add]. cbv zeta. exists (swapped_out (connection_states server) i).
  split; [reflexivity |]. apply (swap_remove _ _ _ Hi).
Qed.

(** X13.  [remove_connection] closes the socket and takes exactly one
    record out of the table, the first one that holds the socket; every
    other record stays, though not in the same order (the last record
    moves into the free slot), and the records in front of the slot stay
    where they are. *)
Theorem remove_connection_removes_first (server : HTTP_SERVER) (fd : Z)
    (i : nat) (c : CONNECTION_STATE) :
  connection_states server !! i = Some c -> socket c = fd ->
  (forall j c', j < i -> connection_states server !! j = Some c' ->
                socket c' <> fd) ->
  exists conns',
    remove_connection server fd = (with_connections server conns', [act_close fd])
    /\ conns' ≡ₚ delete i (connection_states server)
    /\ take i conns' = take i (connection_states server).
Proof.
  intros Hi <- Hfirst. apply remove_connection_removes_first_aux; assumption.
Qed.

End Connection_table.

Section Idle_connections.
Import Http Server Reactor Table.

Lemma remove_connection_removes_first_witness :
  (remove_connection (busy_server 3) 10).2 = [act_close 10].
Proof.
  destruct (remove_connection_removes_first (busy_server 3) 10 0
              {| socket := 10; buffer := ""; is_http2 := false; last_activity := 0 |})
    as (conns' & Heq & _).
  - reflexivity.
  - reflexivity.
  - intros j c' Hj. lia.
  - rewrite Heq. reflexivity.
Defined.

Lemma distinct_first (conns : list CONNECTION_STATE) (i : nat) (c : CONNECTION_STATE) :
  NoDup (socket <$> conns) -> conns !! i = Some c ->
  forall j c', j < i -> conns !! j = Some c' -> socket c' <> socket c.
Proof.
  intros Hnodup Hi j c' Hj Hc' Heq.
  assert (j = i); [| lia].
  apply (NoDup_lookup _ j i (socket c) Hnodup);
    rewrite list_lookup_fmap; [rewrite Hc' | rewrite Hi]; cbn; congruence.
Qed.

Lemma filter_all {A} (P : A -> Prop) `{!forall x, Decision (P x)} (l : list A) :
  Forall P l -> filter P l = l.
Proof.
  induction 1 as [| x l Hx _ IH]; [reflexivity |].
  rewrite filter_cons_True by exact Hx. rewrite IH. reflexivity.
Qed.

Lemma filter_none {A} (P Q : A -> Prop) `{!forall x, Decision (P x)} (l : list A) :
  (forall x, Q x -> ~ P x) -> Forall Q l -> filter P l = [].
Proof.
  intros HQP. induction 1 as [| x l Hx _ IH]; [reflexivity |].
  rewrite filter_cons_False by (apply HQP, Hx). exact IH.
Qed.

Lemma idle_sweep_sweeps (now : Z) (fuel i : nat) (s : HTTP_SERVER) :
  connection_count s - i <= fuel ->
  distinct_sockets s ->
  Forall (fun c => idle now c = false) (take i (connection_states s)) ->
  exists conns' acts,
    idle_sweep fuel i now s = (with_connections s conns', acts)
    /\ conns' ≡ₚ filter (fun c => idle now c = false) (connection_states s)
    /\ acts ≡ₚ act_close <$> (socket <$> filter (fun c => idle now c = true)
                                          (connection_states s)).
Proof.
  assert (Hdone : forall s : HTTP_SERVER,
             Forall (fun c => idle now c = false) (connection_states s) ->
             exists conns' acts,
               (s, @nil action) = (with_connections s conns', acts)
               /\ conns' ≡ₚ filter (fun c => idle now c = false) (connection_states s)
               /\ acts ≡ₚ act_close <$> (socket <$> filter (fun c => idle now c = true)
                                                     (connection_states s))).
  { intros s0 Hall. exists (connection_states s0), [].
    split; [destruct s0; reflexivity |].
    rewrite (filter_all _ _ Hall).
    rewrite (filter_none _ (fun c => idle now c = false) _) ; [done | | exact Hall].
    intros x Hx. rewrite Hx. done. }
  revert i s. induction fuel as [| fuel IH]; intros i s Hfuel Hdistinct Hfront.
  { cbn [idle_sweep]. apply Hdone.
    rewrite take_ge in Hfront by (unfold connection_count in Hfuel; lia). exact Hfront. }
  cbn [idle_sweep].
  destruct (connection_states s !! i) as [c |] eqn:Hi.
  2:{ apply Hdone. apply lookup_ge_None in Hi.
      rewrite take_ge in Hfront by lia. exact Hfront. }
  fold (idle now c). destruct (idle now c) eqn:Hidle.
  - destruct (remove_connection_removes_first_aux s i c Hi
                (distinct_first _ _ _ Hdistinct Hi))
      as (conns1 & Hrm & Hperm & Hkeep).
    rewrite Hrm.
    destruct (IH i (with_connections s conns1)) as (conns' & acts & Hsweep & Hc & Ha).
    + pose proof (lookup_lt_Some _ _ _ Hi) as Hlt.
      unfold connection_count in *. cbn [with_connections connection_states].
      rewrite Hperm, length_delete by (rewrite Hi; done). lia.
    + unfold distinct_sockets in *. cbn [with_connections connection_states].
      rewrite Hperm. rewrite (delete_Permutation _ _ _ Hi) in Hdistinct.
      cbn in Hdistinct. inversion Hdistinct; assumption.
    + cbn [with_connections connection_states]. rewrite Hkeep. exact Hfront.
    + rewrite Hsweep. exists conns', ([act_close (socket c)] ++ acts).
      split; [destruct s; reflexivity |].
      cbn [with_connections connection_states] in Hc, Ha.
      rewrite Hperm in Hc, Ha.
      rewrite (delete_Permutation _ _ _ Hi) at 1 2.
      rewrite filter_cons_False by (rewrite Hidle; done).
      rewrite filter_cons_True by exact Hidle.
      split; [exact Hc |]. cbn. rewrite Ha. reflexivity.
  - apply IH; [unfold connection_count in *; lia | exact Hdistinct |].
    rewrite (take_S_r _ _ _ Hi). apply Forall_app. split; [exact Hfront |].
    constructor; [exact Hidle | constructor].
Qed.

(** X14.  The sweep at the end of a round of [http_server_run], on a
    table in which no two records hold the same socket, closes the socket
    of every connection that has been idle for more than 60 seconds and
    of no other, and leaves exactly the other records in the table. *)
Theorem idle_sweep_closes_idle (now : Z) (server : HTTP_SERVER) :
  distinct_sockets server ->
  exists conns' acts,
    idle_sweep (connection_count server) 0 now server
    = (with_connections server conns', acts)
    /\ conns' ≡ₚ filter (fun c => idle now c = false) (connection_states server)
    /\ acts ≡ₚ act_close <$> (socket <$> filter (fun c => idle now c = true)
                                          (connection_states server)).
Proof.
  intros Hdistinct. apply idle_sweep_sweeps; [lia | exact Hdistinct | constructor].
Qed.

Lemma idle_sweep_closes_idle_witness :
  (idle_sweep 3 0 100 (busy_server 3)).2 ≡ₚ [act_close 10; act_close 11; act_close 12].
Proof.
  destruct (idle_sweep_closes_idle 100 (busy_server 3)) as (conns' & acts & Heq & _ & Ha).
  - unfold distinct_sockets.
    change (socket <$> connection_states (busy_server 3)) with [10; 11; 12]%Z.
    repeat constructor; rewrite ?elem_of_cons, ?elem_of_nil; lia.
  - change (connection_count (busy_server 3)) with 3 in Heq.
    rewrite Heq. cbn [snd]. exact Ha.
Defined.

End Idle_connections.

Section Request_buffers.
Import Http Route Server Reactor Table.
Variable fs : Static.filesystem.
Variable heap : nat -> ascii.
Variable parse_http_request : string -> option HTTP_REQUEST.

Lemma find_connection_from_elem (conns : list CONNECTION_STATE) (k i : nat)
    (c : CONNECTION_STATE) (fd : Z) :
  find_connection_from conns k fd = Some (i, c) -> c ∈ conns.
Proof.
  revert k. induction conns as [| c0 conns IH]; intros k; [done |].
  cbn [find_connection_from]. destruct (socket c0 =? fd)%Z.
  - intros [= _ <-]. apply list_elem_of_here.
  - intros H. apply list_elem_of_further, (IH _ H).
Qed.

Lemma remove_connection_fits (s : HTTP_SERVER) (fd : Z) :
  buffers_fit s -> buffers_fit (remove_connection s fd).1.
Proof.
  intros Hs. unfold remove_connection.
  destruct (find_connection s fd) as [[i c] |]; [| exact Hs].
  cbv zeta. unfold buffers_fit in *. cbn [fst with_connections connection_states].
  apply Forall_take. destruct (_ <? _); [| exact Hs].
  destruct (connection_states s !! _) as [last_conn |] eqn:Hlast; [| exact Hs].
  apply Forall_insert; [exact Hs |].
  apply (proj1 (Forall_lookup _ _) Hs _ _ Hlast).
Qed.

Lemma set_connection_fits (s : HTTP_SERVER) (i : nat) (c : CONNECTION_STATE) :
  buffers_fit s -> String.length (buffer c) < MAX_REQUEST_SIZE ->
  buffers_fit (set_connection s i c).
Proof.
  intros Hs Hc. unfold buffers_fit, set_connection in *.
  cbn [with_connections connection_states]. apply Forall_insert; assumption.
Qed.

Lemma process_http_request_fits (s : HTTP_SERVER) (c : CONNECTION_STATE) :
  buffers_fit s ->
  buffers_fit (process_http_request fs heap parse_http_request s c).1.
Proof.
  intros Hs. unfold process_http_request.
  repeat match goal with
         | |- context [if ?b then _ else _] => destruct b
         | |- context [match parse_http_request ?x with _ => _ end] =>
             destruct (parse_http_request x)
         | |- context [let '(_, _) := dispatch ?a ?b ?c ?d in _] =>
             destruct (dispatch a b c d)
         end;
    try exact Hs; try (apply remove_connection_fits; exact Hs).
  pose proof (remove_connection_fits s (socket c) Hs) as H.
  destruct (remove_connection s (socket c)). exact H.
Qed.

(** What [recv] may store behind the bytes of the buffer leaves room for
    the terminator. *)
Lemma received_fits (old bytes : string) :
  String.length old < MAX_REQUEST_SIZE ->
  String.length (old +:+ str_take (MAX_REQUEST_SIZE - String.length old - 1) bytes)
  < MAX_REQUEST_SIZE.
Proof.
  intros Hold. rewrite str_length_app.
  pose proof (str_take_le (MAX_REQUEST_SIZE - String.length old - 1) bytes). lia.
Qed.

Lemma handle_client_data_fits (s : HTTP_SERVER) (fd : Z) (r : recv_result)
    (queued : list Z) (now : Z) :
  buffers_fit s ->
  buffers_fit (handle_client_data fs heap parse_http_request s fd r queued now).1.
Proof.
  intros Hs. unfold handle_client_data.
  destruct (find_connection s fd) as [[i c] |] eqn:Hfind; [| exact Hs].
  assert (Hc : String.length (buffer c) < MAX_REQUEST_SIZE).
  { apply find_connection_from_elem in Hfind.
    apply (proj1 (list.Forall_forall _ _) Hs _ Hfind). }
  destruct r as [[] | bytes];
    try exact Hs; try (apply remove_connection_fits; exact Hs).
  cbv zeta.
  destruct (String.length _ =? 0); [apply remove_connection_fits; exact Hs |].
  pose proof (received_fits (buffer c) bytes Hc) as Hnew.
  destruct (_ && _).
  - match goal with
    | |- context [remove_connection ?s1 fd] =>
        assert (H : buffers_fit (remove_connection s1 fd).1)
          by (apply remove_connection_fits, set_connection_fits;
              [exact Hs | exact Hnew]);
        destruct (remove_connection s1 fd)
    end.
    exact H.
  - destruct (negb _).
    + apply process_http_request_fits, set_connection_fits; [exact Hs | exact Hnew].
    + apply set_connection_fits; [exact Hs | exact Hnew].
Qed.

Lemma add_connection_fits (s s' : HTTP_SERVER) (fd now : Z) :
  buffers_fit s -> add_connection s fd now = Some s' -> buffers_fit s'.
Proof.
  intros Hs. unfold add_connection. destruct (_ <=? _); [done |].
  intros [= <-]. unfold buffers_fit in *. cbn [with_connections connection_states].
  apply Forall_app. split; [exact Hs |]. constructor; [| constructor].
  cbn. unfold MAX_REQUEST_SIZE. lia.
Qed.

Lemma accept_one_fits (s : HTTP_SERVER) (a : accepted) (now : Z) :
  buffers_fit s -> buffers_fit (accept_one now s a).1.
Proof.
  intros Hs. unfold accept_one. destruct (negb (nonblocking_ok a)); [exact Hs |].
  destruct (add_connection s (client_socket a) now) as [s' |] eqn:Hadd; [| exact Hs].
  pose proof (add_connection_fits _ _ _ _ Hs Hadd) as Hs'.
  destruct (negb (epoll_ok a)); [| exact Hs'].
  apply remove_connection_fits, Hs'.
Qed.

Lemma accept_new_connection_fits (pending : list accepted)
    (s : HTTP_SERVER) (now : Z) :
  buffers_fit s -> buffers_fit (accept_new_connection s pending now).1.
Proof.
  revert s. induction pending as [| a pending IH]; intros s Hs; [exact Hs |].
  cbn [accept_new_connection].
  pose proof (accept_one_fits s a now Hs) as H1.
  destruct (accept_one now s a) as [s1 acts1]. cbn [fst] in H1.
  specialize (IH s1 H1). destruct (accept_new_connection s1 pending now). exact IH.
Qed.

Lemma handle_event_fits (s : HTTP_SERVER) (e : ready_event) (now : Z) :
  buffers_fit s ->
  buffers_fit (handle_event fs heap parse_http_request now s e).1.
Proof.
  intros Hs. destruct e; cbn [handle_event].
  - apply accept_new_connection_fits, Hs.
  - apply remove_connection_fits, Hs.
  - apply handle_client_data_fits, Hs.
  - exact Hs.
Qed.

Lemma handle_events_fits (es : list ready_event) (s : HTTP_SERVER) (now : Z) :
  buffers_fit s ->
  buffers_fit (handle_events fs heap parse_http_request now s es).1.
Proof.
  revert s. induction es as [| e es IH]; intros s Hs; [exact Hs |].
  cbn [handle_events].
  pose proof (handle_event_fits s e now Hs) as H1.
  destruct (handle_event _ _ _ now s e) as [s1 acts1]. cbn [fst] in H1.
  specialize (IH s1 H1). destruct (handle_events _ _ _ now s1 es). exact IH.
Qed.

Lemma idle_sweep_fits (fuel i : nat) (now : Z) (s : HTTP_SERVER) :
  buffers_fit s -> buffers_fit (idle_sweep fuel i now s).1.
Proof.
  revert i s. induction fuel as [| fuel IH]; intros i s Hs; [exact Hs |].
  cbn [idle_sweep]. destruct (connection_states s !! i) as [c |]; [| exact Hs].
  destruct (60 <? now - last_activity c)%Z; [| apply IH, Hs].
  pose proof (remove_connection_fits s (socket c) Hs) as H1.
  destruct (remove_connection s (socket c)) as [s1 acts1]. cbn [fst] in H1.
  specialize (IH i s1 H1). destruct (idle_sweep fuel i now s1). exact IH.
Qed.

Lemma reactor_step_fits (s : HTTP_SERVER) (op : reactor_op) :
  buffers_fit s -> buffers_fit (reactor_step fs heap parse_http_request s op).
Proof.
  intros Hs. destruct op; cbn [reactor_step].
  - exact Hs.
  - exact Hs.
  - unfold http_server_start. destruct (running s); [exact Hs |].
    destruct o; exact Hs.
  - unfold run_iteration. destruct (negb (running s)); [exact Hs |].
    pose proof (handle_events_fits es s now Hs) as H1.
    destruct (handle_events _ _ _ now s es) as [s1 acts1]. cbn [fst] in H1.
    pose proof (idle_sweep_fits (connection_count s1) 0 now s1 H1) as H2.
    destruct (idle_sweep _ 0 now s1). exact H2.
  - apply handle_event_fits, Hs.
  - apply idle_sweep_fits, Hs.
  - unfold http_server_stop. destruct (negb (running s)); [exact Hs |].
    constructor.
Qed.

(** X15.  In every state the reactor can reach, the buffer of every
    connection holds fewer than [MAX_REQUEST_SIZE] bytes: the terminator
    [handle_client_data] writes behind them lies inside the buffer, and
    the length it passes to [recv] does not wrap around. *)
Theorem request_buffers_fit (server : HTTP_SERVER) :
  reachable fs heap parse_http_request server ->
  forall c, c ∈ connection_states server ->
            String.length (buffer c) < MAX_REQUEST_SIZE
            /\ 0 <= MAX_REQUEST_SIZE - String.length (buffer c) - 1
               < MAX_REQUEST_SIZE.
Proof.
  intros [ops ->].
  assert (Hfit : buffers_fit
                   (foldl (reactor_step fs heap parse_http_request)
                      http_server_create ops)).
  { induction ops as [| op ops IH] using rev_ind; [constructor |].
    rewrite foldl_app. cbn [foldl]. apply reactor_step_fits, IH. }
  intros c Hc. pose proof (proj1 (list.Forall_forall _ _) Hfit c Hc) as H.
  cbv beta in H. unfold MAX_REQUEST_SIZE in *. lia.
Qed.

End Request_buffers.

Section Request_buffers_example.
Import Http Route Server Reactor Table.

Lemma request_buffers_fit_witness :
  Forall (fun c => String.length (buffer c) < MAX_REQUEST_SIZE)
         (connection_states (busy_server 2)).
Proof.
  apply list.Forall_forall. intros c Hc.
  apply (request_buffers_fit Static.no_files Codec.zero_heap (fun _ => None)
           (busy_server 2) (busy_server_reachable 2) c Hc).
Defined.

End Request_buffers_example.

Section Exchange.
Import Http Codec Route Server Reactor Request Format Table.
Variable fs : Static.filesystem.
Variable heap : nat -> ascii.

Lemma strstr_contains (s needle : string) (i : nat) :
  strstr s needle = Some i -> str_contains needle s = true.
Proof.
  revert i. induction s as [| c s IH]; intros i; cbn [strstr str_contains].
  - destruct (String.prefix needle ""); [reflexivity | discriminate].
  - destruct (String.prefix needle (String c s)); [reflexivity |].
    destruct (strstr s needle) as [j |] eqn:Hj; [| discriminate].
    intros _. rewrite (IH j eq_refl). apply orb_true_r.
Qed.

Lemma scan_request_line_short (line m t : string) :
  word m -> String.length m <= 15 -> word t -> String.length t <= 511 ->
  line = m \/ line = m +:+ " " +:+ t ->
  scan_request_line line = None.
Proof.
  intros Hm Hml Ht Htl [-> | ->]; unfold scan_request_line.
  - rewrite <- (str_app_nil_r m) at 1.
    rewrite scan_s_word by (try assumption; reflexivity). reflexivity.
  - replace (m +:+ " " +:+ t) with (m +:+ String " " (t +:+ EmptyString))
      by (rewrite str_app_nil_r; reflexivity).
    rewrite scan_s_word by (try assumption; reflexivity).
    rewrite scan_s_blank_word by (try assumption; reflexivity). reflexivity.
Qed.

Lemma short_line_chars (line m t : string) :
  word m -> word t -> line = m \/ line = m +:+ " " +:+ t ->
  line <> EmptyString /\ str_forall line_char line = true.
Proof.
  intros [Hm Hmc] [_ Htc] [-> | ->].
  - split; [exact Hm | apply word_line, Hmc].
  - split.
    + destruct m; [| rewrite str_app_cons]; done.
    + rewrite !str_forall_app, (word_line m Hmc), (word_line t Htc). reflexivity.
Qed.

(** The parser turns down a request line of fewer than three words. *)
Lemma parse_short_request_line (line m t rest : string) :
  word m -> String.length m <= 15 -> word t -> String.length t <= 511 ->
  line = m \/ line = m +:+ " " +:+ t ->
  parse_http_request (line +:+ CRLF +:+ CRLF +:+ rest) = None
  /\ str_contains (CRLF +:+ CRLF) (c_string (line +:+ CRLF +:+ CRLF +:+ rest)) = true
  /\ 4 <= String.length (line +:+ CRLF +:+ CRLF +:+ rest).
Proof.
  intros Hm Hml Ht Htl Hline.
  destruct (short_line_chars line m t Hm Ht Hline) as [Hne Hchars].
  assert (Hcopy : c_string (line +:+ CRLF +:+ CRLF +:+ rest)
                  = line +:+ CRLF +:+ CRLF +:+ c_string rest).
  { rewrite <- !(str_app_assoc CRLF CRLF), <- !(str_app_assoc line).
    apply c_string_app. rewrite !str_forall_app, (line_char_not_zero _ Hchars).
    reflexivity. }
  split; [| split].
  - unfold parse_http_request. rewrite Hcopy.
    rewrite (strtok_all_line _ _ Hne Hchars).
    rewrite (scan_request_line_short line m t) by assumption. reflexivity.
  - rewrite Hcopy. apply (strstr_contains _ _ (String.length line + 0)).
    rewrite (strstr_line _ _ Hchars), <- str_app_assoc, strstr_found. reflexivity.
  - rewrite !str_length_app. unfold CRLF. cbn [String.length]. lia.
Qed.

(** X16.  A request whose first line has one word or two gets no
    answer, not a 400 either: [process_http_request] sends nothing, closes
    the socket and takes the connection out of the table. *)
Theorem short_request_line_is_dropped (server : HTTP_SERVER) (i : nat)
    (conn : CONNECTION_STATE) (line m t rest : string) :
  connection_states server !! i = Some conn ->
  (forall j c', j < i -> connection_states server !! j = Some c' ->
                socket c' <> socket conn) ->
  word m -> String.length m <= 15 -> word t -> String.length t <= 511 ->
  line = m \/ line = m +:+ " " +:+ t ->
  buffer conn = line +:+ CRLF +:+ CRLF +:+ rest ->
  exists conns',
    process_http_request fs heap parse_http_request server conn
    = (with_connections server conns', [act_close (socket conn)])
    /\ conns' ≡ₚ delete i (connection_states server).
Proof.
  intros Hi Hfirst Hm Hml Ht Htl Hline Hbuf.
  destruct (parse_short_request_line line m t rest Hm Hml Ht Htl Hline)
    as (Hparse & Hends & Hlen).
  destruct (remove_connection_removes_first_aux server i conn Hi Hfirst)
    as (conns' & Hrm & Hperm & _).
  exists conns'. split; [| exact Hperm].
  unfold process_http_request. rewrite Hbuf, Hends, Hparse.
  destruct (Nat.ltb_spec (String.length (line +:+ CRLF +:+ CRLF +:+ rest)) 4);
    [lia |].
  exact Hrm.
Qed.



End Exchange.

Section Exchange_examples.
Import Http Codec Route Server Reactor Request Format Table.

Lemma short_request_line_is_dropped_witness :
  let conn := {| socket := 10; buffer := "GET /index.html" +:+ CRLF +:+ CRLF;
                 is_http2 := false; last_activity := 0 |} in
  (process_http_request Static.no_files zero_heap parse_http_request
     (with_connections http_server_create [conn]) conn).2
  = [act_close 10].
Proof.
  destruct (short_request_line_is_dropped Static.no_files zero_heap
              (with_connections http_server_create
                 [{| socket := 10; buffer := "GET /index.html" +:+ CRLF +:+ CRLF;
                     is_http2 := false; last_activity := 0 |}])
              0
              {| socket := 10; buffer := "GET /index.html" +:+ CRLF +:+ CRLF;
                 is_http2 := false; last_activity := 0 |}
              "GET /index.html" "GET" "/index.html" "")
    as (conns' & Heq & _).
  - reflexivity.
  - intros j c' Hj. lia.
  - split; [discriminate | reflexivity].
  - cbn. lia.
  - split; [discriminate | reflexivity].
  - cbn. lia.
  - right. reflexivity.
  - reflexivity.
  - cbv zeta. rewrite Heq. reflexivity.
Defined.


End Exchange_examples.

Section Static_files.
Import Http Server Static.

Lemma to_lower_idem (c : ascii) : to_lower (to_lower c) = to_lower c.
Proof. destruct c as [[] [] [] [] [] [] [] []]; reflexivity. Qed.

Lemma to_lower_dot (c : ascii) : Ascii.eqb (to_lower c) "." = Ascii.eqb c ".".
Proof. destruct c as [[] [] [] [] [] [] [] []]; reflexivity. Qed.

Lemma str_lower_idem (s : string) : str_lower (str_lower s) = str_lower s.
Proof.
  induction s as [| c s IH]; [reflexivity |]. cbn [str_lower].
  rewrite to_lower_idem, IH. reflexivity.
Qed.

Lemma strcasecmp_lower (a b : string) :
  strcasecmp_eq (str_lower a) b = strcasecmp_eq a b.
Proof. unfold strcasecmp_eq. rewrite str_lower_idem. reflexivity. Qed.

Lemma after_last_dot_none (s : string) :
  strchr s "." = None -> after_last_dot s = None.
Proof.
  induction s as [| c s IH]; [reflexivity |]. cbn [strchr after_last_dot]. intros H.
  destruct (Ascii.eqb c "."); [discriminate H |].
  destruct (strchr s "."); [discriminate H |]. rewrite IH; reflexivity.
Qed.

Lemma after_last_dot_ext (stem ext : string) :
  strchr ext "." = None -> after_last_dot (stem +:+ "." +:+ ext) = Some ext.
Proof.
  intros Hext. induction stem as [| c stem IH].
  - change (EmptyString +:+ "." +:+ ext) with (String "." ext).
    cbn [after_last_dot]. rewrite (after_last_dot_none _ Hext). reflexivity.
  - rewrite str_app_cons. cbn [after_last_dot]. rewrite IH. reflexivity.
Qed.

Lemma strchr_lower_dot (s : string) :
  strchr s "." = None -> strchr (str_lower s) "." = None.
Proof.
  induction s as [| c s IH]; [reflexivity |]. cbn [strchr str_lower]. intros H.
  rewrite to_lower_dot. destruct (Ascii.eqb c "."); [discriminate H |].
  destruct (strchr s "."); [discriminate H |]. rewrite IH; reflexivity.
Qed.

(** X18.  The MIME type [http_get_mime_type] gives a file name depends
    on nothing but the text behind its last dot, and not on the case of
    that text. *)
Theorem mime_type_by_extension (stem ext : string) :
  strchr ext "." = None ->
  http_get_mime_type (stem +:+ "." +:+ ext)
  = http_get_mime_type ("." +:+ str_lower ext).
Proof.
  intros Hext. unfold http_get_mime_type.
  rewrite (after_last_dot_ext stem ext Hext).
  pose proof (after_last_dot_ext "" (str_lower ext) (strchr_lower_dot _ Hext)) as H.
  change (EmptyString +:+ "." +:+ str_lower ext) with ("." +:+ str_lower ext) in H.
  rewrite H.
  rewrite !strcasecmp_lower. reflexivity.
Qed.

Lemma mime_type_by_extension_witness :
  http_get_mime_type "img/Logo.v2.PNG" = "image/png"%string.
Proof.
  change "img/Logo.v2.PNG"%string with ("img/Logo.v2" +:+ "." +:+ "PNG").
  rewrite (mime_type_by_extension "img/Logo.v2" "PNG"); reflexivity.
Defined.

Lemma str_take_app_ge (n : nat) (a b : string) :
  String.length a <= n ->
  str_take n (a +:+ b) = a +:+ str_take (n - String.length a) b.
Proof.
  revert n. induction a as [| c a IH]; intros n Hn.
  - change (EmptyString +:+ b) with b. cbn [String.length].
    rewrite Nat.sub_0_r. reflexivity.
  - cbn [String.length] in Hn. destruct n as [| n]; [lia |].
    rewrite !str_app_cons. cbn [str_take String.length Nat.sub].
    rewrite IH by lia. reflexivity.
Qed.

Lemma str_contains_app (needle a b : string) :
  str_contains needle a = true -> str_contains needle (a +:+ b) = true.
Proof.
  intros (front & back & ->)%str_contains_substring. apply str_contains_substring.
  exists front, (back +:+ b). rewrite !str_app_assoc. reflexivity.
Qed.

(** X19.  When the directory registered for static files has ".." in
    its name, every request under the static prefix is answered 403
    Forbidden and no file is opened: the test for ".." is made on the whole
    file system path, directory included. *)
Theorem dotted_directory_forbids_all (fs : filesystem) (server : HTTP_SERVER)
    (url directory_path url_path : string) (response : HTTP_RESPONSE) :
  str_contains ".." (str_take 511 directory_path) = true ->
  String.prefix (str_take 255 url) url_path = true ->
  serve_static_file fs (http_server_add_static_path server url directory_path)
    url_path response
  = (0%Z,
     http_response_set_text
       (http_response_set_status response HTTP_STATUS_FORBIDDEN) "403 Forbidden",
     []).
Proof.
  intros Hdots Hprefix. unfold serve_static_file, resolved_path.
  cbn [http_server_add_static_path static_enabled static_url_path static_directory
       default_file negb].
  rewrite Hprefix. cbn [negb].
  assert (Hany : forall x, str_contains ".."
                             (str_take 1023 (str_take 511 directory_path +:+ x)) = true).
  { intros x. pose proof (str_take_le 511 directory_path).
    rewrite str_take_app_ge by lia. apply str_contains_app, Hdots. }
  destruct (_ || _); rewrite Hany; reflexivity.
Qed.

Lemma dotted_directory_forbids_all_witness :
  (serve_static_file no_files
     (http_server_add_static_path http_server_create "/static" "../public")
     "/static/index.html" http_response_create).1.1 = 0%Z
  /\ status
       (serve_static_file no_files
          (http_server_add_static_path http_server_create "/static" "../public")
          "/static/index.html" http_response_create).1.2
     = HTTP_STATUS_FORBIDDEN.
Proof.
  rewrite (dotted_directory_forbids_all no_files http_server_create "/static"
             "../public" "/static/index.html" http_response_create);
    [split |..]; reflexivity.
Defined.

End Static_files.

Section Method_names.
Import Http Request.

(** X20.  [http_method_from_string] and [http_method_to_string] are
    inverse to each other on the seven methods: a string is read as a
    method exactly when it is the name the method is printed with, upper
    case and nothing else. *)
Theorem method_names (s : string) (m : HTTP_METHOD) :
  m <> HTTP_METHOD_UNKNOWN ->
  (http_method_from_string s = m <-> s = http_method_to_string m).
Proof.
  intros Hm. split.
  - unfold http_method_from_string.
    repeat match goal with
           | |- context [String.eqb s ?lit] =>
               destruct (String.eqb_spec s lit) as [-> | _]
           end;
      intros <-; try reflexivity; done.
  - intros ->. destruct m; try reflexivity; done.
Qed.

Lemma method_names_witness :
  http_method_from_string "DELETE" = HTTP_METHOD_DELETE
  /\ http_method_from_string "delete" = HTTP_METHOD_UNKNOWN.
Proof.
  split.
  - apply (method_names "DELETE" HTTP_METHOD_DELETE); [discriminate | reflexivity].
  - reflexivity.
Defined.

End Method_names.

Section Module_registry.
Import Lifecycle.

Lemma get_module_app (ms : list MODULE) (md : MODULE) (n : string) :
  get_module (ms ++ [md]) n
  = match get_module ms n with
    | Some found => Some found
    | None => if String.eqb (mod_name md) n then Some md else None
    end.
Proof.
  induction ms as [| m0 ms IH]; [reflexivity |]. cbn [app get_module].
  destruct (String.eqb (mod_name m0) n); [reflexivity | exact IH].
Qed.

Lemma get_module_none (ms : list MODULE) (n : string) :
  get_module ms n = None <-> n ∉ mod_name <$> ms.
Proof.
  induction ms as [| m0 ms IH]; cbn [get_module fmap list_fmap].
  - split; [intros _; apply not_elem_of_nil | reflexivity].
  - rewrite not_elem_of_cons, <- IH.
    destruct (String.eqb_spec (mod_name m0) n) as [-> | Hne]; split.
    + discriminate.
    + intros [H _]. done.
    + intros H. split; [congruence | exact H].
    + intros [_ H]. exact H.
Qed.

Lemma get_module_found (ms : list MODULE) (md : MODULE) :
  NoDup (mod_name <$> ms) -> md ∈ ms -> get_module ms (mod_name md) = Some md.
Proof.
  induction ms as [| m0 ms IH]; intros Hnodup Hin; [by apply elem_of_nil in Hin |].
  cbn [fmap list_fmap] in Hnodup. inversion Hnodup as [| ? ? Hfresh Hrest]; subst.
  cbn [get_module]. apply elem_of_cons in Hin as [-> | Hin].
  - rewrite String.eqb_refl. reflexivity.
  - destruct (String.eqb_spec (mod_name m0) (mod_name md)) as [Heq | _].
    + exfalso. apply Hfresh. rewrite Heq.
      apply list_elem_of_fmap_2. exact Hin.
    + apply IH; assumption.
Qed.

Lemma register_module_names (app : APPLICATION) (md : MODULE) :
  NoDup (mod_name <$> modules app) ->
  NoDup (mod_name <$> modules (application_register_module app md).2).
Proof.
  intros Hnodup. unfold application_register_module, application_get_module.
  destruct (decide (is_Some (get_module (modules app) (mod_name md)))) as [Hsome | Hnone].
  - rewrite bool_decide_eq_true_2 by exact Hsome. exact Hnodup.
  - rewrite bool_decide_eq_false_2 by exact Hnone. cbn [snd with_modules modules].
    rewrite fmap_app. apply list.NoDup_app. split; [exact Hnodup |]. split.
    + intros n Hn Hn'. cbn in Hn'. apply list_elem_of_singleton in Hn'. subst n.
      apply Hnone. destruct (get_module (modules app) (mod_name md)) eqn:Hget; [eauto |].
      apply get_module_none in Hget. done.
    + cbn. apply list.NoDup_singleton.
Qed.

Lemma register_names (app : APPLICATION) (r : registration) :
  NoDup (mod_name <$> modules app) ->
  NoDup (mod_name <$> modules (register app r)).
Proof.
  intros Hnodup. destruct r as [md | svc | n | n]; cbn [register].
  - apply register_module_names, Hnodup.
  - unfold application_register_service. destruct (bool_decide _); exact Hnodup.
  - exact Hnodup.
  - exact Hnodup.
Qed.

(** X21.  However modules, services and functions are registered, no
    two modules of the application have the same name: a module whose name
    is taken is turned down with FRAMEWORK_ERROR_EXISTS and the application
    is left as it was.  So [application_get_module] returns, for the name
    of a registered module, that module. *)
Theorem registered_modules_distinct (rs : list registration) :
  NoDup (mod_name <$> modules (registered rs))
  /\ (forall md, md ∈ modules (registered rs) ->
                 application_get_module (registered rs) (mod_name md) = Some md
                 /\ application_register_module (registered rs) md
                    = (FRAMEWORK_ERROR_EXISTS, registered rs)).
Proof.
  assert (Hnodup : NoDup (mod_name <$> modules (registered rs))).
  { unfold registered. induction rs as [| r rs IH] using rev_ind.
    - cbn. constructor.
    - rewrite foldl_app. cbn [foldl]. apply register_names, IH. }
  split; [exact Hnodup |]. intros md Hin.
  pose proof (get_module_found _ _ Hnodup Hin) as Hget.
  split; [exact Hget |]. unfold application_register_module, application_get_module.
  rewrite Hget. reflexivity.
Qed.

End Module_registry.

Section Module_initialisation.
Import Lifecycle.
Local Open Scope Z_scope.

Lemma module_index_names (ms1 ms2 : list MODULE) (n : string) :
  mod_name <$> ms1 = mod_name <$> ms2 -> module_index ms1 n = module_index ms2 n.
Proof.
  revert ms2. induction ms1 as [| a ms1 IH]; intros [| b ms2] Hnames;
    try discriminate; [reflexivity |].
  cbn [fmap list_fmap] in Hnames. injection Hnames as Hab Hrest.
  cbn [module_index]. rewrite Hab, (IH ms2 Hrest). reflexivity.
Qed.

(** A dependency passes the test exactly when its name is first met in
    front of the module under initialisation. *)
Lemma dependency_ready_before (before from_i : list MODULE) (dep_name : string) :
  Forall (fun md => mod_state md <> MODULE_STATE_UNINITIALIZED) before ->
  all_state MODULE_STATE_UNINITIALIZED from_i ->
  dependency_ready (before ++ from_i) dep_name = true
  <-> exists j, module_index (before ++ from_i) dep_name = Some j
                /\ (j < length before)%nat.
Proof.
  intros Hbefore Hfrom. unfold dependency_ready.
  induction Hbefore as [| b before Hb _ IH].
  - cbn [app length]. split; [| intros (j & _ & Hj); lia].
    intros Hready. exfalso. revert Hready.
    induction Hfrom as [| f from_i Hf _ IHf]; [discriminate |].
    cbn [get_module]. destruct (String.eqb (mod_name f) dep_name); [| exact IHf].
    rewrite Hf. discriminate.
  - cbn [app get_module module_index length].
    destruct (String.eqb (mod_name b) dep_name).
    + split; [intros _; exists 0%nat; split; [reflexivity | lia] |].
      intros _. rewrite bool_decide_eq_false_2 by exact Hb. reflexivity.
    + rewrite IH. split.
      * intros (j & -> & Hj). exists (S j). split; [reflexivity | lia].
      * intros (j & Hidx & Hj).
        destruct (module_index (before ++ from_i) dep_name) as [j' |];
          [| discriminate].
        cbn in Hidx. injection Hidx as <-. exists j'. split; [reflexivity | lia].
Qed.

Lemma module_initialize_fresh (md : MODULE) :
  mod_state md = MODULE_STATE_UNINITIALIZED ->
  module_initialize md
  = match mod_init md with
    | Some result =>
        if result =? FRAMEWORK_SUCCESS
        then (FRAMEWORK_SUCCESS, with_state md MODULE_STATE_INITIALIZED,
              [ev_module ph_init (mod_name md)])
        else (result, with_state md MODULE_STATE_ERROR,
              [ev_module ph_init (mod_name md)])
    | None => (FRAMEWORK_SUCCESS, with_state md MODULE_STATE_INITIALIZED, [])
    end.
Proof.
  intros Hst. unfold module_initialize. rewrite Hst.
  rewrite bool_decide_eq_true_2 by reflexivity. cbn [negb].
  destruct (mod_init md) as [result |]; cbn [call]; [| reflexivity].
  destruct (result =? FRAMEWORK_SUCCESS); reflexivity.
Qed.

Lemma module_calls_cons (p : phase) (md : MODULE) (ms : list MODULE) :
  module_calls p (md :: ms)
  = match callback_of p md with
    | Some _ => [ev_module p (mod_name md)]
    | None => []
    end ++ module_calls p ms.
Proof.
  unfold module_calls. destruct (callback_of p md) as [r |] eqn:Hcb.
  - rewrite filter_cons_True by (rewrite Hcb; eauto). reflexivity.
  - rewrite filter_cons_False by (rewrite Hcb; intros [? ?]; discriminate).
    reflexivity.
Qed.

Lemma initialize_from_spec (from_i before : list MODULE) :
  all_state MODULE_STATE_INITIALIZED before ->
  all_state MODULE_STATE_UNINITIALIZED from_i ->
  let '(result, ms, calls) := initialize_from before from_i in
  (result = FRAMEWORK_SUCCESS
   <-> ready_from before from_i /\ callbacks_succeed ph_init from_i)
  /\ (result = FRAMEWORK_SUCCESS ->
      all_state MODULE_STATE_INITIALIZED ms
      /\ mod_name <$> ms = mod_name <$> (before ++ from_i)
      /\ calls = module_calls ph_init from_i).
Proof.
  revert before. induction from_i as [| md rest IH]; intros before Hbefore Hfrom.
  { cbn [initialize_from]. split.
    - split; [intros _ | reflexivity]. split; [intros i md d Hi; done | constructor].
    - intros _. rewrite app_nil_r. done. }
  apply list.Forall_cons in Hfrom as [Hmd Hrest].
  assert (Hbefore' : Forall (fun m => mod_state m <> MODULE_STATE_UNINITIALIZED) before).
  { eapply list.Forall_impl; [exact Hbefore |]. intros m Hm. cbv beta in Hm.
    rewrite Hm. discriminate. }
  cbn [initialize_from].
  destruct (forallb (dependency_ready (before ++ md :: rest)) (dependencies md))
    eqn:Hdeps; cbn [negb].
  2:{ split; [| discriminate]. split; [discriminate |]. intros [Hready _].
      exfalso. apply not_true_iff_false in Hdeps. apply Hdeps.
      apply forallb_forall. intros d Hd.
      apply (dependency_ready_before before (md :: rest) d Hbefore').
      { constructor; assumption. }
      destruct (Hready 0%nat md d eq_refl) as (j & Hj & Hlt).
      { apply list_elem_of_In. exact Hd. }
      exists j. split; [exact Hj | lia]. }
  assert (Hmd_ready : forall d, d ∈ dependencies md ->
            exists j, module_index (before ++ md :: rest) d = Some j
                      /\ (j < length before)%nat).
  { intros d Hd.
    apply (dependency_ready_before before (md :: rest) d Hbefore').
    { constructor; assumption. }
    apply (proj1 (forallb_forall _ _) Hdeps). apply list_elem_of_In. exact Hd. }
  rewrite (module_initialize_fresh md Hmd).
  assert (Hnames : mod_name <$> ((before ++ [with_state md MODULE_STATE_INITIALIZED]) ++ rest)
                   = mod_name <$> (before ++ md :: rest)).
  { rewrite <- app_assoc. cbn [app]. rewrite !fmap_app. reflexivity. }
  assert (Hstep : ready_from before (md :: rest)
                  <-> ready_from (before ++ [with_state md MODULE_STATE_INITIALIZED]) rest).
  { unfold ready_from. split.
    - intros H i m d Hi Hd. destruct (H (S i) m d Hi Hd) as (j & Hj & Hlt).
      exists j. rewrite (module_index_names _ _ d Hnames), length_app. cbn [length].
      split; [exact Hj | lia].
    - intros H i m d Hi Hd. destruct i as [| i].
      + cbn in Hi. injection Hi as <-. destruct (Hmd_ready d Hd) as (j & Hj & Hlt).
        exists j. split; [exact Hj | lia].
      + destruct (H i m d Hi Hd) as (j & Hj & Hlt).
        rewrite (module_index_names _ _ d Hnames), length_app in *. cbn [length] in Hlt.
        exists j. split; [exact Hj | lia]. }
  assert (Hgo : forall calls0,
            match mod_init md with Some _ => [ev_module ph_init (mod_name md)]
                              | None => [] end = calls0 ->
            (mod_init md = None \/ mod_init md = Some FRAMEWORK_SUCCESS) ->
            let '(result, ms, calls) :=
              let '(result', ms, calls') :=
                initialize_from (before ++ [with_state md MODULE_STATE_INITIALIZED]) rest in
              (result', ms, calls0 ++ calls') in
            (result = FRAMEWORK_SUCCESS
             <-> ready_from before (md :: rest) /\ callbacks_succeed ph_init (md :: rest))
            /\ (result = FRAMEWORK_SUCCESS ->
                all_state MODULE_STATE_INITIALIZED ms
                /\ mod_name <$> ms = mod_name <$> (before ++ md :: rest)
                /\ calls = module_calls ph_init (md :: rest))).
  { intros calls0 Hcalls0 Hok.
    specialize (IH (before ++ [with_state md MODULE_STATE_INITIALIZED])).
    destruct (initialize_from (before ++ [with_state md MODULE_STATE_INITIALIZED]) rest)
      as [[result' ms] calls'].
    destruct IH as [Hiff Hdone].
    { apply Forall_app. split; [exact Hbefore | repeat constructor]. }
    { exact Hrest. }
    split.
    - rewrite Hiff, Hstep. unfold callbacks_succeed.
      rewrite (list.Forall_cons _ md rest). cbn [callback_of]. tauto.
    - intros Hres. destruct (Hdone Hres) as (Hall & Hnm & Hcalls).
      split; [exact Hall |]. split; [rewrite Hnm; exact Hnames |].
      rewrite module_calls_cons, Hcalls. cbn [callback_of]. rewrite Hcalls0.
      reflexivity. }
  destruct (mod_init md) as [result |] eqn:Hinit.
  - destruct (Z.eqb_spec result FRAMEWORK_SUCCESS) as [-> | Hfail]; cbn [negb].
    + rewrite Z.eqb_refl. cbn [negb]. apply Hgo; [reflexivity | right; reflexivity].
    + apply Z.eqb_neq in Hfail as Hfail'. rewrite Hfail'. cbn [negb].
      split; [| intros H; done]. split; [intros H; done |].
      intros [_ Hcb]. apply list.Forall_cons in Hcb as [[Hcb | Hcb] _];
        cbn [callback_of] in Hcb; congruence.
  - rewrite Z.eqb_refl. cbn [negb]. apply Hgo; [reflexivity | left; reflexivity].
Qed.

(** X22.  [application_initialize_modules], on modules that are all
    UNINITIALIZED, succeeds exactly when every dependency of every module
    names a module registered in front of it and no init callback reports
    a failure: the modules are initialised in the order of registration,
    and the order is not rearranged to fit the dependencies.  When it
    succeeds every module is INITIALIZED and the init callbacks have been
    called in the order of registration. *)
Theorem initialize_modules_in_order (app : APPLICATION) :
  all_state MODULE_STATE_UNINITIALIZED (modules app) ->
  let '(result, app', calls) := application_initialize_modules app in
  (result = FRAMEWORK_SUCCESS
   <-> dependencies_first (modules app) /\ callbacks_succeed ph_init (modules app))
  /\ (result = FRAMEWORK_SUCCESS ->
      all_state MODULE_STATE_INITIALIZED (modules app')
      /\ calls = module_calls ph_init (modules app)).
Proof.
  intros Hfresh. unfold application_initialize_modules.
  pose proof (initialize_from_spec (modules app) [] (Forall_nil _) Hfresh) as H.
  destruct (initialize_from [] (modules app)) as [[result ms] calls].
  destruct H as [Hiff Hdone]. split; [exact Hiff |].
  intros Hres. destruct (Hdone Hres) as (Hall & _ & Hcalls). split; assumption.
Qed.

Lemma initialize_modules_in_order_witness :
  (application_initialize_modules
     (registered [reg_module database; reg_module cache; reg_module api])).1.1
  = FRAMEWORK_SUCCESS
  /\ (application_initialize_modules
        (registered [reg_module cache; reg_module database])).1.1
     = FRAMEWORK_ERROR_DEPENDENCY.
Proof.
  split; [| reflexivity].
  pose proof (initialize_modules_in_order
                (registered [reg_module database; reg_module cache; reg_module api]))
    as H.
  destruct (application_initialize_modules _) as [[result app'] calls].
  destruct H as [Hiff _].
  - repeat constructor.
  - apply Hiff. split.
    + intros i md d Hi Hd.
      destruct i as [| [| [| i]]]; cbn in Hi; try discriminate;
        injection Hi as <-; cbn in Hd;
        repeat (apply elem_of_cons in Hd as [-> | Hd]);
        try (by apply elem_of_nil in Hd);
        eexists; (split; [reflexivity | lia]).
    + repeat constructor; right; reflexivity.
Defined.

End Module_initialisation.

Section Application_life_cycle.
Import Lifecycle.
Local Open Scope Z_scope.

Lemma service_calls_cons (p : phase) (svc : SERVICE_CONTROLLER)
    (ss : list SERVICE_CONTROLLER) :
  service_calls p (svc :: ss)
  = match svc_callback_of p svc with
    | Some _ => [ev_service p (svc_name svc)]
    | None => []
    end ++ service_calls p ss.
Proof.
  unfold service_calls. destruct (svc_callback_of p svc) as [r |] eqn:Hcb.
  - rewrite filter_cons_True by (rewrite Hcb; eauto). reflexivity.
  - rewrite filter_cons_False by (rewrite Hcb; intros [? ?]; discriminate).
    reflexivity.
Qed.

Lemma module_calls_app (p : phase) (ms1 ms2 : list MODULE) :
  module_calls p (ms1 ++ ms2) = module_calls p ms1 ++ module_calls p ms2.
Proof. unfold module_calls. rewrite list.filter_app, !fmap_app. reflexivity. Qed.

Lemma service_calls_app (p : phase) (ss1 ss2 : list SERVICE_CONTROLLER) :
  service_calls p (ss1 ++ ss2) = service_calls p ss1 ++ service_calls p ss2.
Proof. unfold service_calls. rewrite list.filter_app, !fmap_app. reflexivity. Qed.

(** A module is initialised only from the state UNINITIALIZED. *)
Lemma module_initialize_success (md md' : MODULE) (calls : list event) :
  module_initialize md = (FRAMEWORK_SUCCESS, md', calls) ->
  mod_state md = MODULE_STATE_UNINITIALIZED
  /\ md' = with_state md MODULE_STATE_INITIALIZED.
Proof.
  unfold module_initialize.
  destruct (decide (mod_state md = MODULE_STATE_UNINITIALIZED)) as [Hst | Hst].
  - rewrite bool_decide_eq_true_2 by exact Hst. cbn [negb].
    destruct (call _ _) as [result cs].
    destruct (result =? FRAMEWORK_SUCCESS) eqn:Hres; cbn [negb].
    + intros [= <- _]. done.
    + intros [= -> _ _]. discriminate Hres.
  - rewrite bool_decide_eq_false_2 by exact Hst. cbn [negb]. by intros [= ? _ _].
Qed.

Lemma initialize_from_fresh (from_i before ms : list MODULE) (calls : list event) :
  initialize_from before from_i = (FRAMEWORK_SUCCESS, ms, calls) ->
  all_state MODULE_STATE_UNINITIALIZED from_i.
Proof.
  revert before ms calls. induction from_i as [| md rest IH]; intros before ms calls;
    [constructor |].
  cbn [initialize_from]. destruct (negb (forallb _ _)); [by intros [= ? _ _] |].
  destruct (module_initialize md) as [[result md'] cs] eqn:Hinit.
  destruct (Z.eqb_spec result FRAMEWORK_SUCCESS) as [-> | Hne]; cbn [negb].
  - destruct (initialize_from (before ++ [md']) rest) as [[result' ms'] cs'] eqn:Hrest.
    intros [= -> _ _]. apply module_initialize_success in Hinit as [Hst _].
    constructor; [exact Hst | eapply IH, Hrest].
  - by intros [= ? _ _].
Qed.

Lemma service_initialize_success (svc svc' : SERVICE_CONTROLLER) (calls : list event) :
  service_controller_initialize svc = (FRAMEWORK_SUCCESS, svc', calls) ->
  svc' = with_svc_state svc SERVICE_STATE_INITIALIZED
  /\ calls = match svc_init svc with
             | Some _ => [ev_service ph_init (svc_name svc)]
             | None => []
             end.
Proof.
  unfold service_controller_initialize.
  destruct (negb (bool_decide _)); [by intros [= ? _ _] |].
  destruct (svc_init svc) as [result |]; cbn [call].
  - destruct (result =? FRAMEWORK_SUCCESS) eqn:Hres; cbn [negb].
    + intros [= <- <-]. done.
    + intros [= -> _ _]. discriminate Hres.
  - cbn. intros [= <- <-]. done.
Qed.

Lemma initialize_services_success (ss ss' : list SERVICE_CONTROLLER)
    (calls : list event) :
  initialize_services ss = (FRAMEWORK_SUCCESS, ss', calls) ->
  all_svc_state SERVICE_STATE_INITIALIZED ss'
  /\ calls = service_calls ph_init ss.
Proof.
  revert ss' calls. induction ss as [| svc rest IH]; intros ss' calls.
  { cbn. intros [= <- <-]. split; [constructor | reflexivity]. }
  cbn [initialize_services].
  destruct (service_controller_initialize svc) as [[result svc'] cs] eqn:Hinit.
  destruct (Z.eqb_spec result FRAMEWORK_SUCCESS) as [-> | Hne]; cbn [negb].
  - destruct (initialize_services rest) as [[result' rest'] cs'] eqn:Hrest.
    intros [= -> <- <-]. apply service_initialize_success in Hinit as [-> ->].
    destruct (IH _ _ eq_refl) as [Hall ->].
    split; [constructor; [reflexivity | exact Hall] |].
    rewrite service_calls_cons. reflexivity.
  - by intros [= ? _ _].
Qed.

Lemma register_init_list (app : APPLICATION) (r : registration) :
  init_list (register app r)
  = match r with
    | reg_init_function n => str_take 255 n :: init_list app
    | _ => init_list app
    end.
Proof.
  destruct r as [md | svc | n | n]; cbn [register]; try reflexivity.
  - unfold application_register_module. destruct (bool_decide _); reflexivity.
  - unfold application_register_service. destruct (bool_decide _); reflexivity.
Qed.

Lemma init_function_names_app (rs1 rs2 : list registration) :
  init_function_names (rs1 ++ rs2) = init_function_names rs1 ++ init_function_names rs2.
Proof.
  induction rs1 as [| r rs1 IH]; [reflexivity |].
  destruct r; cbn [app init_function_names]; rewrite IH; reflexivity.
Qed.

Lemma registered_init_list (rs : list registration) :
  init_list (registered rs) = reverse (init_function_names rs)
  /\ initialized (registered rs) = false.
Proof.
  unfold registered. induction rs as [| r rs [IH1 IH2]] using rev_ind.
  - done.
  - rewrite foldl_app. cbn [foldl]. rewrite register_init_list, init_function_names_app.
    split.
    + destruct r; cbn [init_function_names]; rewrite ?app_nil_r; try exact IH1.
      rewrite reverse_app. cbn. rewrite IH1. reflexivity.
    + destruct r as [md | svc | n | n]; cbn [register]; try exact IH2.
      * unfold application_register_module. destruct (bool_decide _); exact IH2.
      * unfold application_register_service. destruct (bool_decide _); exact IH2.
Qed.

(** X23.  [application_initialize] calls the init functions first, the
    one registered last before the others, whether it then succeeds or not;
    when it succeeds it has gone on to call the init callbacks of the
    modules and then those of the services, both in the order of
    registration, every module and every service is INITIALIZED, and the
    application is marked initialised. *)
Theorem application_initialize_order (rs : list registration) :
  let app := registered rs in
  let '(result, app', calls) := application_initialize app in
  (ev_init_function <$> reverse (init_function_names rs)) `prefix_of` calls
  /\ (result = FRAMEWORK_SUCCESS ->
      calls = (ev_init_function <$> reverse (init_function_names rs))
              ++ module_calls ph_init (modules app)
              ++ service_calls ph_init (services app)
      /\ all_state MODULE_STATE_INITIALIZED (modules app')
      /\ all_svc_state SERVICE_STATE_INITIALIZED (services app')
      /\ initialized app' = true).
Proof.
  cbv zeta. destruct (registered_init_list rs) as [Hlist Hflag].
  unfold application_initialize. rewrite Hflag, Hlist.
  destruct (initialize_from [] (modules (registered rs))) as [[result ms] calls] eqn:Hm.
  destruct (Z.eqb_spec result FRAMEWORK_SUCCESS) as [-> | Hne]; cbn [negb].
  2:{ split; [apply list.prefix_app_r; reflexivity | intros H; done]. }
  pose proof (initialize_from_fresh _ _ _ _ Hm) as Hfresh.
  pose proof (initialize_from_spec (modules (registered rs)) [] (Forall_nil _) Hfresh)
    as Hspec.
  rewrite Hm in Hspec. destruct Hspec as [_ Hdone].
  destruct (Hdone eq_refl) as (Hall & _ & ->).
  destruct (initialize_services (services (registered rs)))
    as [[result' ss] calls'] eqn:Hs.
  destruct (Z.eqb_spec result' FRAMEWORK_SUCCESS) as [-> | Hne]; cbn [negb].
  2:{ split; [apply list.prefix_app_r; reflexivity | intros H; done]. }
  destruct (initialize_services_success _ _ _ Hs) as [Hsall ->].
  split; [apply list.prefix_app_r; reflexivity |]. intros _. done.
Qed.

Lemma module_calls_with_state (p : phase) (st : MODULE_STATE) (ms : list MODULE) :
  module_calls p ((fun md => with_state md st) <$> ms) = module_calls p ms.
Proof.
  induction ms as [| md ms IH]; [reflexivity |]. cbn [fmap list_fmap].
  rewrite !module_calls_cons, <- IH. destruct p; reflexivity.
Qed.

Lemma service_calls_with_state (p : phase) (st : SERVICE_STATE)
    (ss : list SERVICE_CONTROLLER) :
  service_calls p ((fun svc => with_svc_state svc st) <$> ss) = service_calls p ss.
Proof.
  induction ss as [| svc ss IH]; [reflexivity |]. cbn [fmap list_fmap].
  rewrite !service_calls_cons, <- IH. destruct p; reflexivity.
Qed.

Lemma callbacks_succeed_with_state (p : phase) (st : MODULE_STATE) (ms : list MODULE) :
  callbacks_succeed p ms -> callbacks_succeed p ((fun md => with_state md st) <$> ms).
Proof.
  unfold callbacks_succeed. intros H. apply Forall_fmap.
  eapply list.Forall_impl; [exact H |]. intros md Hmd. destruct p; exact Hmd.
Qed.

Lemma svc_callbacks_succeed_with_state (p : phase) (st : SERVICE_STATE)
    (ss : list SERVICE_CONTROLLER) :
  svc_callbacks_succeed p ss ->
  svc_callbacks_succeed p ((fun svc => with_svc_state svc st) <$> ss).
Proof.
  unfold svc_callbacks_succeed. intros H. apply Forall_fmap.
  eapply list.Forall_impl; [exact H |]. intros svc Hsvc. destruct p; exact Hsvc.
Qed.

Lemma call_succeeds (cb : callback) (e : event) :
  cb = None \/ cb = Some FRAMEWORK_SUCCESS ->
  call cb e = (FRAMEWORK_SUCCESS, match cb with Some _ => [e] | None => [] end).
Proof. intros [-> | ->]; reflexivity. Qed.

Lemma start_modules_ok (ms : list MODULE) :
  Forall (fun md => mod_state md = MODULE_STATE_INITIALIZED
                    \/ mod_state md = MODULE_STATE_STOPPED) ms ->
  callbacks_succeed ph_start ms ->
  start_modules ms
  = (FRAMEWORK_SUCCESS, (fun md => with_state md MODULE_STATE_STARTED) <$> ms,
     module_calls ph_start ms).
Proof.
  induction ms as [| md ms IH]; intros Hst Hcb; [reflexivity |].
  apply list.Forall_cons in Hst as [Hmd Hst]. apply list.Forall_cons in Hcb as [Hc Hcb].
  cbn [start_modules]. unfold module_start.
  assert (Hguard : negb (bool_decide (mod_state md = MODULE_STATE_INITIALIZED))
                   && negb (bool_decide (mod_state md = MODULE_STATE_STOPPED)) = false).
  { destruct Hmd as [-> | ->]; reflexivity. }
  rewrite Hguard, (call_succeeds _ _ Hc). cbn [negb Z.eqb FRAMEWORK_SUCCESS].
  rewrite (IH Hst Hcb), module_calls_cons. reflexivity.
Qed.

Lemma stop_modules_ok (ms : list MODULE) :
  all_state MODULE_STATE_STARTED ms ->
  callbacks_succeed ph_stop ms ->
  stop_modules ms
  = ((fun md => with_state md MODULE_STATE_STOPPED) <$> ms,
     module_calls ph_stop (reverse ms)).
Proof.
  induction ms as [| md ms IH]; intros Hst Hcb; [reflexivity |].
  apply list.Forall_cons in Hst as [Hmd Hst]. apply list.Forall_cons in Hcb as [Hc Hcb].
  cbn [stop_modules]. rewrite (IH Hst Hcb). unfold module_stop.
  rewrite Hmd, bool_decide_eq_true_2 by reflexivity. cbn [negb].
  rewrite (call_succeeds _ _ Hc). cbn [negb Z.eqb FRAMEWORK_SUCCESS].
  rewrite reverse_cons, module_calls_app, module_calls_cons.
  cbn [fmap list_fmap]. rewrite app_nil_r. reflexivity.
Qed.

Lemma start_services_ok (ss : list SERVICE_CONTROLLER) :
  Forall (fun svc => svc_state svc = SERVICE_STATE_INITIALIZED
                     \/ svc_state svc = SERVICE_STATE_STOPPED) ss ->
  svc_callbacks_succeed ph_start ss ->
  start_services ss
  = (FRAMEWORK_SUCCESS, (fun svc => with_svc_state svc SERVICE_STATE_RUNNING) <$> ss,
     service_calls ph_start ss).
Proof.
  induction ss as [| svc ss IH]; intros Hst Hcb; [reflexivity |].
  apply list.Forall_cons in Hst as [Hsvc Hst]. apply list.Forall_cons in Hcb as [Hc Hcb].
  cbn [start_services]. unfold service_controller_start.
  assert (Hguard : negb (bool_decide (svc_state svc = SERVICE_STATE_INITIALIZED))
                   && negb (bool_decide (svc_state svc = SERVICE_STATE_STOPPED)) = false).
  { destruct Hsvc as [-> | ->]; reflexivity. }
  rewrite Hguard, (call_succeeds _ _ Hc). cbn [negb Z.eqb FRAMEWORK_SUCCESS].
  rewrite (IH Hst Hcb), service_calls_cons. reflexivity.
Qed.

Lemma stop_services_ok (ss : list SERVICE_CONTROLLER) :
  all_svc_state SERVICE_STATE_RUNNING ss ->
  svc_callbacks_succeed ph_stop ss ->
  stop_services ss
  = ((fun svc => with_svc_state svc SERVICE_STATE_STOPPED) <$> ss,
     service_calls ph_stop (reverse ss)).
Proof.
  induction ss as [| svc ss IH]; intros Hst Hcb; [reflexivity |].
  apply list.Forall_cons in Hst as [Hsvc Hst]. apply list.Forall_cons in Hcb as [Hc Hcb].
  cbn [stop_services]. rewrite (IH Hst Hcb). unfold service_controller_stop.
  rewrite Hsvc, bool_decide_eq_true_2 by reflexivity. cbn [negb].
  rewrite (call_succeeds _ _ Hc). cbn [negb Z.eqb FRAMEWORK_SUCCESS].
  rewrite reverse_cons, service_calls_app, service_calls_cons.
  cbn [fmap list_fmap]. rewrite app_nil_r. reflexivity.
Qed.

(** X24.  On an initialised application whose start and stop
    callbacks report no failure, [application_start] calls the start
    callbacks of the modules and then of the services in the order of
    registration, and [application_stop] calls the stop callbacks in
    exactly the opposite order, services first.  Afterwards everything is
    STOPPED and the application can be started again, with the same
    calls. *)
Theorem start_and_stop_order (app : APPLICATION) :
  initialized app = true -> running app = false ->
  all_state MODULE_STATE_INITIALIZED (modules app) ->
  all_svc_state SERVICE_STATE_INITIALIZED (services app) ->
  callbacks_succeed ph_start (modules app) ->
  callbacks_succeed ph_stop (modules app) ->
  svc_callbacks_succeed ph_start (services app) ->
  svc_callbacks_succeed ph_stop (services app) ->
  exists app1 app2 app3,
    application_start app
    = (FRAMEWORK_SUCCESS, app1,
       module_calls ph_start (modules app) ++ service_calls ph_start (services app))
    /\ application_stop app1
       = (FRAMEWORK_SUCCESS, app2,
          service_calls ph_stop (reverse (services app))
          ++ module_calls ph_stop (reverse (modules app)))
    /\ all_state MODULE_STATE_STOPPED (modules app2)
    /\ all_svc_state SERVICE_STATE_STOPPED (services app2)
    /\ application_start app2
       = (FRAMEWORK_SUCCESS, app3,
          module_calls ph_start (modules app) ++ service_calls ph_start (services app)).
Proof.
  intros Hinit Hrun Hms Hss Hmstart Hmstop Hsstart Hsstop.
  assert (Hms' : Forall (fun md => mod_state md = MODULE_STATE_INITIALIZED
                                   \/ mod_state md = MODULE_STATE_STOPPED) (modules app)).
  { eapply list.Forall_impl; [exact Hms |]. intros md Hmd. left. exact Hmd. }
  assert (Hss' : Forall (fun svc => svc_state svc = SERVICE_STATE_INITIALIZED
                                    \/ svc_state svc = SERVICE_STATE_STOPPED)
                        (services app)).
  { eapply list.Forall_impl; [exact Hss |]. intros svc Hsvc. left. exact Hsvc. }
  eexists _, _, _. split; [| split; [| split; [| split]]].
  - unfold application_start. rewrite Hinit, Hrun. cbn [negb].
    rewrite (start_modules_ok _ Hms' Hmstart). cbn [negb Z.eqb FRAMEWORK_SUCCESS].
    rewrite (start_services_ok _ Hss' Hsstart). cbn [negb Z.eqb FRAMEWORK_SUCCESS].
    reflexivity.
  - unfold application_stop.
    cbn [with_flags with_services with_modules running modules services initialized
         negb].
    rewrite stop_services_ok, stop_modules_ok.
    + rewrite <- !fmap_reverse, service_calls_with_state, module_calls_with_state.
      reflexivity.
    + apply Forall_fmap, Forall_true. reflexivity.
    + apply callbacks_succeed_with_state, Hmstop.
    + apply Forall_fmap, Forall_true. reflexivity.
    + apply svc_callbacks_succeed_with_state, Hsstop.
  - cbn [with_flags with_services with_modules modules].
    apply Forall_fmap, Forall_true. reflexivity.
  - cbn [with_flags with_services with_modules services].
    apply Forall_fmap, Forall_true. reflexivity.
  - unfold application_start.
    cbn [with_flags with_services with_modules running modules services initialized].
    rewrite ?Hinit. cbn [negb].
    rewrite start_modules_ok, start_services_ok.
    + cbn [negb Z.eqb FRAMEWORK_SUCCESS].
      rewrite !module_calls_with_state, !service_calls_with_state. reflexivity.
    + apply Forall_fmap, Forall_true. intros svc. right. reflexivity.
    + do 2 apply svc_callbacks_succeed_with_state. exact Hsstart.
    + apply Forall_fmap, Forall_true. intros md. right. reflexivity.
    + do 2 apply callbacks_succeed_with_state. exact Hmstart.
Qed.

Lemma start_and_stop_order_witness :
  let app := (application_initialize (registered example_registrations)).1.2 in
  (application_start app).2
  = [ev_module ph_start "database"; ev_module ph_start "cache";
     ev_module ph_start "api"; ev_service ph_start "gateway"]
  /\ (application_stop (application_start app).1.2).2
     = [ev_service ph_stop "gateway"; ev_module ph_stop "api";
        ev_module ph_stop "cache"; ev_module ph_stop "database"].
Proof.
  cbv zeta.
  destruct (start_and_stop_order
              (application_initialize (registered example_registrations)).1.2)
    as (app1 & app2 & app3 & Hstart & Hstop & _).
  - reflexivity.
  - reflexivity.
  - repeat constructor.
  - repeat constructor.
  - repeat constructor; right; reflexivity.
  - repeat constructor; right; reflexivity.
  - repeat constructor; right; reflexivity.
  - repeat constructor; right; reflexivity.
  - rewrite Hstart. cbn [fst snd]. rewrite Hstop. split; reflexivity.
Defined.

Lemma module_start_state (md : MODULE) :
  mod_state md <> MODULE_STATE_UNINITIALIZED ->
  mod_state (module_start md).1.2 <> MODULE_STATE_UNINITIALIZED.
Proof.
  intros Hst. unfold module_start. destruct (_ && _); [exact Hst |].
  destruct (call _ _) as [result cs]. destruct (negb _); discriminate.
Qed.

Lemma module_stop_state (md : MODULE) :
  mod_state md <> MODULE_STATE_UNINITIALIZED ->
  mod_state (module_stop md).1.2 <> MODULE_STATE_UNINITIALIZED.
Proof.
  intros Hst. unfold module_stop. destruct (negb (bool_decide _)); [exact Hst |].
  destruct (call _ _) as [result cs]. destruct (negb _); discriminate.
Qed.

Lemma module_initialize_state (md : MODULE) :
  mod_state (module_initialize md).1.2 <> MODULE_STATE_UNINITIALIZED
  \/ (module_initialize md).1.2 = md.
Proof.
  unfold module_initialize. destruct (negb (bool_decide _)); [right; reflexivity |].
  destruct (call _ _) as [result cs]. destruct (negb _); left; discriminate.
Qed.

Lemma start_modules_first (md : MODULE) (rest : list MODULE) :
  mod_state md <> MODULE_STATE_UNINITIALIZED ->
  exists md' rest', (start_modules (md :: rest)).1.2 = md' :: rest'
                    /\ mod_state md' <> MODULE_STATE_UNINITIALIZED.
Proof.
  intros Hst. cbn [start_modules]. pose proof (module_start_state md Hst) as H.
  destruct (module_start md) as [[result md'] cs]. cbn [fst snd] in H.
  destruct (negb _); [eauto |].
  destruct (start_modules rest) as [[result' rest'] cs']. eauto.
Qed.

Lemma stop_modules_first (md : MODULE) (rest : list MODULE) :
  mod_state md <> MODULE_STATE_UNINITIALIZED ->
  exists md' rest', (stop_modules (md :: rest)).1 = md' :: rest'
                    /\ mod_state md' <> MODULE_STATE_UNINITIALIZED.
Proof.
  intros Hst. cbn [stop_modules]. pose proof (module_stop_state md Hst) as H.
  destruct (stop_modules rest) as [rest' cs].
  destruct (module_stop md) as [[result md'] cs']. cbn [fst snd] in H. eauto.
Qed.

Lemma initialize_from_first (md : MODULE) (rest : list MODULE) :
  mod_state md <> MODULE_STATE_UNINITIALIZED ->
  (initialize_from [] (md :: rest)).1.1 <> FRAMEWORK_SUCCESS
  /\ (initialize_from [] (md :: rest)).1.2 = md :: rest.
Proof.
  intros Hst. cbn [initialize_from app]. destruct (negb (forallb _ _)); [done |].
  unfold module_initialize. rewrite bool_decide_eq_false_2 by exact Hst. done.
Qed.

Lemma application_stop_first (app : APPLICATION) :
  first_module_used app -> first_module_used (application_stop app).1.2.
Proof.
  intros (md & rest & Hms & Hst). unfold application_stop.
  destruct (negb (running app)); [exists md, rest; done |].
  destruct (stop_services (services app)) as [ss cs].
  destruct (stop_modules_first md rest Hst) as (md' & rest' & Heq & Hst').
  rewrite Hms. destruct (stop_modules (md :: rest)) as [ms cs']. cbn [fst] in Heq.
  subst ms. exists md', rest'. done.
Qed.

Lemma lifecycle_step_first (app : APPLICATION) (op : lifecycle_op) :
  first_module_used app -> first_module_used (lifecycle_step app op).
Proof.
  intros Hused. destruct op; cbn [lifecycle_step].
  - destruct Hused as (md & rest & Hms & Hst). unfold application_initialize.
    destruct (initialized app); [exists md, rest; done |]. rewrite Hms.
    destruct (initialize_from_first md rest Hst) as [Hres Heq].
    destruct (initialize_from [] (md :: rest)) as [[result ms] cs]. cbn [fst snd] in *.
    subst ms. apply Z.eqb_neq in Hres. rewrite Hres. exists md, rest. done.
  - destruct Hused as (md & rest & Hms & Hst). unfold application_start.
    destruct (negb (initialized app)); [exists md, rest; done |].
    destruct (running app); [exists md, rest; done |]. rewrite Hms.
    destruct (start_modules_first md rest Hst) as (md' & rest' & Heq & Hst').
    destruct (start_modules (md :: rest)) as [[result ms] cs]. cbn [fst snd] in Heq.
    subst ms. destruct (negb _); [exists md', rest'; done |].
    destruct (start_services (services app)) as [[result' ss] cs'].
    destruct (negb _); exists md', rest'; done.
  - apply application_stop_first, Hused.
  - unfold application_cleanup. destruct (running app).
    + pose proof (application_stop_first app Hused) as H.
      destruct (application_stop app) as [[result app'] cs]. cbn [fst snd] in H.
      destruct H as (md & rest & Hms & Hst). exists md, rest. done.
    + destruct Hused as (md & rest & Hms & Hst). exists md, rest. done.
Qed.

(** X25.  An application with a module is initialised once and never
    again: after [application_initialize] has succeeded, every later call
    of it fails, whatever calls of [application_start], [application_stop]
    and [application_cleanup] come in between.  [application_cleanup]
    clears the flag of the application but leaves the modules in their
    states, and [module_initialize] takes a module from UNINITIALIZED
    only. *)
Theorem initialized_only_once (app app1 : APPLICATION) (calls : list event)
    (ops : list lifecycle_op) :
  modules app <> [] ->
  application_initialize app = (FRAMEWORK_SUCCESS, app1, calls) ->
  (application_initialize (foldl lifecycle_step app1 ops)).1.1 <> FRAMEWORK_SUCCESS.
Proof.
  intros Hne Hinit.
  assert (Hused : first_module_used (foldl lifecycle_step app1 ops)).
  { induction ops as [| op ops IH] using rev_ind.
    - cbn [foldl]. revert Hinit. unfold application_initialize.
      destruct (initialized app); [by intros [= ? _ _] |].
      destruct (initialize_from [] (modules app)) as [[result ms] cs] eqn:Hm.
      destruct (Z.eqb_spec result FRAMEWORK_SUCCESS) as [-> | Hfail]; cbn [negb];
        [| by intros [= ? _ _]].
      pose proof (initialize_from_fresh _ _ _ _ Hm) as Hfresh.
      pose proof (initialize_from_spec (modules app) [] (Forall_nil _) Hfresh) as Hspec.
      rewrite Hm in Hspec. destruct Hspec as [_ Hdone].
      destruct (Hdone eq_refl) as (Hall & Hnames & _).
      destruct (initialize_services (services app)) as [[result' ss] cs'].
      destruct (Z.eqb_spec result' FRAMEWORK_SUCCESS) as [-> | Hfail']; cbn [negb];
        [| by intros [= ? _ _]].
      intros [= <- _]. cbn [with_flags with_services with_modules modules].
      destruct ms as [| md rest].
      + cbn in Hnames. destruct (modules app); [done | discriminate].
      + apply list.Forall_cons in Hall as [Hmd _]. exists md, rest.
        split; [reflexivity |]. rewrite Hmd. discriminate.
    - rewrite foldl_app. cbn [foldl]. apply lifecycle_step_first, IH. }
  destruct Hused as (md & rest & Hms & Hst). unfold application_initialize.
  destruct (initialized _); [discriminate |]. rewrite Hms.
  destruct (initialize_from_first md rest Hst) as [Hres _].
  destruct (initialize_from [] (md :: rest)) as [[result ms] cs]. cbn [fst] in Hres.
  apply Z.eqb_neq in Hres. rewrite Hres. cbn [negb fst]. apply Z.eqb_neq, Hres.
Qed.

Lemma initialized_only_once_witness :
  (application_initialize
     (foldl lifecycle_step
        (application_initialize (registered example_registrations)).1.2
        [do_start; do_stop; do_cleanup])).1.1
  <> FRAMEWORK_SUCCESS.
Proof.
  apply (initialized_only_once (registered example_registrations)
           (application_initialize (registered example_registrations)).1.2
           (application_initialize (registered example_registrations)).2
           [do_start; do_stop; do_cleanup]).
  - discriminate.
  - reflexivity.
Defined.

End Application_life_cycle.

Section Kafka_threads.
Import Kafka.
Local Open Scope Z_scope.

Lemma start_consumers_all (cs : list KAFKA_CONSUMER) (i : nat) (create_ok : nat -> bool) :
  (forall j, (i <= j < i + length cs)%nat -> create_ok j = true) ->
  start_consumers cs i create_ok
  = (FRAMEWORK_SUCCESS,
     replicate (length cs) {| consumer_running := true; has_thread := true |},
     thread_created <$> seq i (length cs)).
Proof.
  revert i. induction cs as [| c cs IH]; intros i Hok; [reflexivity |].
  cbn [start_consumers length]. rewrite Hok by (cbn [length]; lia).
  rewrite IH by (intros j Hj; apply Hok; cbn [length]; lia). reflexivity.
Qed.

Lemma stop_consumers_started (n i : nat) :
  stop_consumers (replicate n {| consumer_running := true; has_thread := true |}) i
  = (replicate n new_consumer, thread_joined <$> seq i n).
Proof.
  revert i. induction n as [| n IH]; intros i; [reflexivity |].
  cbn [replicate stop_consumers]. rewrite IH. reflexivity.
Qed.

Lemma stop_consumers_none (cs : list KAFKA_CONSUMER) (i : nat) :
  Forall (fun c => has_thread c = false) cs ->
  stop_consumers cs i
  = (replicate (length cs) new_consumer, joined_no_thread <$> seq i (length cs)).
Proof.
  revert i. induction cs as [| c cs IH]; intros i Hall; [reflexivity |].
  apply list.Forall_cons in Hall as [Hc Hall].
  cbn [stop_consumers length]. rewrite (IH _ Hall), Hc. reflexivity.
Qed.

(** X26.  When every consumer thread can be created,
    [kafka_client_start] creates one thread for each consumer, in order,
    and [kafka_client_stop] then joins each of them once, in the same
    order; afterwards the client is not running, no consumer has a thread,
    and a second [kafka_client_stop] is turned down with
    FRAMEWORK_ERROR_STATE without a call. *)
Theorem kafka_start_then_stop (client : KAFKA_CLIENT) (create_ok : nat -> bool) :
  client_running client = false ->
  (forall i, (i < length (consumers client))%nat -> create_ok i = true) ->
  exists started stopped,
    kafka_client_start client create_ok
    = (FRAMEWORK_SUCCESS, started,
       thread_created <$> seq 0 (length (consumers client)))
    /\ kafka_client_stop started
       = (FRAMEWORK_SUCCESS, stopped,
          thread_joined <$> seq 0 (length (consumers client)))
    /\ client_running stopped = false
    /\ no_threads stopped
    /\ kafka_client_stop stopped = (FRAMEWORK_ERROR_STATE, stopped, []).
Proof.
  intros Hrun Hok. eexists _, _. split; [| split; [| split; [| split]]].
  - unfold kafka_client_start. rewrite Hrun.
    rewrite start_consumers_all by (intros j Hj; apply Hok; lia). reflexivity.
  - unfold kafka_client_stop. cbn [client_running consumers negb].
    rewrite stop_consumers_started. reflexivity.
  - reflexivity.
  - unfold no_threads. cbn [consumers]. apply Forall_replicate. reflexivity.
  - reflexivity.
Qed.

Lemma kafka_start_then_stop_witness :
  (kafka_client_start (client_with 3) (fun _ => true)).2
  = [thread_created 0; thread_created 1; thread_created 2]
  /\ (kafka_client_stop (kafka_client_start (client_with 3) (fun _ => true)).1.2).2
     = [thread_joined 0; thread_joined 1; thread_joined 2].
Proof.
  destruct (kafka_start_then_stop (client_with 3) (fun _ => true))
    as (started & stopped & Hstart & Hstop & _).
  - reflexivity.
  - reflexivity.
  - rewrite Hstart. cbn [fst snd]. rewrite Hstop. split; reflexivity.
Defined.

Lemma start_consumers_fails (cs : list KAFKA_CONSUMER) (i k : nat)
    (create_ok : nat -> bool) :
  (k < length cs)%nat ->
  (forall j, (i <= j < i + k)%nat -> create_ok j = true) ->
  create_ok (i + k)%nat = false ->
  start_consumers cs i create_ok
  = (FRAMEWORK_ERROR_INVALID,
     replicate k {| consumer_running := true; has_thread := true |}
     ++ {| consumer_running := false; has_thread := false |} :: drop (S k) cs,
     thread_created <$> seq i k).
Proof.
  revert i k. induction cs as [| c cs IH]; intros i k Hk Hok Hfail;
    [cbn in Hk; lia |].
  cbn [start_consumers]. destruct k as [| k].
  - rewrite Nat.add_0_r in Hfail. rewrite Hfail. cbn. rewrite drop_0. reflexivity.
  - rewrite Hok by lia.
    rewrite (IH (S i) k) by
      (try (cbn [length] in Hk; lia);
       try (intros j Hj; apply Hok; lia);
       replace (S i + k)%nat with (i + S k)%nat by lia; exact Hfail).
    reflexivity.
Qed.

Lemma stop_consumers_app (cs1 cs2 : list KAFKA_CONSUMER) (i : nat) :
  stop_consumers (cs1 ++ cs2) i
  = ((stop_consumers cs1 i).1 ++ (stop_consumers cs2 (i + length cs1)).1,
     (stop_consumers cs1 i).2 ++ (stop_consumers cs2 (i + length cs1)).2).
Proof.
  revert i. induction cs1 as [| c cs1 IH]; intros i.
  - cbn [app length]. rewrite Nat.add_0_r.
    destruct (stop_consumers cs2 i); reflexivity.
  - cbn [app stop_consumers length]. rewrite IH.
    replace (S i + length cs1)%nat with (i + S (length cs1))%nat by lia.
    destruct (stop_consumers cs1 (S i)), (stop_consumers cs2 (i + S (length cs1)));
      reflexivity.
Qed.

(** X27.  When the thread of consumer [k] cannot be created,
    [kafka_client_start] returns FRAMEWORK_ERROR_INVALID and undoes
    nothing: the threads of the consumers in front of [k] keep running and
    the client stays marked as running.  A second [kafka_client_start] is
    therefore turned down, and [kafka_client_stop] (which
    [kafka_client_destroy] calls for a running client) joins the [k]
    threads and then calls [pthread_join] for every other consumer as
    well, though none of them has a thread. *)
Theorem kafka_failed_start (client : KAFKA_CLIENT) (create_ok : nat -> bool) (k : nat) :
  client_running client = false ->
  no_threads client ->
  (k < length (consumers client))%nat ->
  (forall i, (i < k)%nat -> create_ok i = true) ->
  create_ok k = false ->
  exists half,
    kafka_client_start client create_ok
    = (FRAMEWORK_ERROR_INVALID, half, thread_created <$> seq 0 k)
    /\ client_running half = true
    /\ (forall i, (i < k)%nat ->
          consumers half !! i
          = Some {| consumer_running := true; has_thread := true |})
    /\ (forall retry, kafka_client_start half retry = (FRAMEWORK_ERROR_STATE, half, []))
    /\ (kafka_client_stop half).2
       = (thread_joined <$> seq 0 k)
         ++ (joined_no_thread <$> seq k (length (consumers client) - k)).
Proof.
  intros Hrun Hnone Hk Hok Hfail. eexists. split; [| split; [| split; [| split]]].
  - unfold kafka_client_start. rewrite Hrun.
    rewrite (start_consumers_fails _ 0 k) by (try assumption; intros j Hj; apply Hok; lia).
    reflexivity.
  - reflexivity.
  - intros i Hi. cbn [consumers]. rewrite lookup_app_l by (rewrite length_replicate; lia).
    apply lookup_replicate_2. exact Hi.
  - intros retry. reflexivity.
  - unfold kafka_client_stop. cbn [client_running consumers negb].
    rewrite stop_consumers_app, stop_consumers_started, length_replicate.
    rewrite (stop_consumers_none
               ({| consumer_running := false; has_thread := false |}
                :: drop (S k) (consumers client))).
    + cbn [fst snd length]. rewrite length_drop.
      replace (S (length (consumers client) - S k)) with (length (consumers client) - k)%nat
        by lia.
      reflexivity.
    + constructor; [reflexivity |]. apply Forall_drop. exact Hnone.
Qed.

Lemma kafka_failed_start_witness :
  (kafka_client_start (client_with 3) (fun i => Nat.ltb i 2)).1.1
  = FRAMEWORK_ERROR_INVALID
  /\ (kafka_client_stop
        (kafka_client_start (client_with 3) (fun i => Nat.ltb i 2)).1.2).2
     = [thread_joined 0; thread_joined 1; joined_no_thread 2].
Proof.
  destruct (kafka_failed_start (client_with 3) (fun i => Nat.ltb i 2) 2)
    as (half & Hstart & _ & _ & _ & Hstop).
  - reflexivity.
  - repeat constructor.
  - cbn. lia.
  - intros i Hi. apply Nat.ltb_lt. exact Hi.
  - reflexivity.
  - rewrite Hstart. cbn [fst snd]. rewrite Hstop. split; reflexivity.
Defined.

End Kafka_threads.

Section Route_registration.
Import Http Route Server Reactor.

Lemma find_route_app (rs : list HTTP_ROUTE) (r : HTTP_ROUTE) (i : nat)
    (m : HTTP_METHOD) (p : string) :
  find_route (rs ++ [r]) i m p
  = match find_route rs i m p with
    | Some found => Some found
    | None => if http_route_matches r m p then Some (i + length rs, r) else None
    end.
Proof.
  revert i. induction rs as [| r0 rs IH]; intros i.
  - cbn. rewrite Nat.add_0_r. reflexivity.
  - cbn [app find_route length]. destruct (http_route_matches r0 m p); [reflexivity |].
    rewrite IH. replace (S i + length rs) with (i + S (length rs)) by lia. reflexivity.
Qed.

(** X28.  A route added later never takes a request away from a route
    added before: after [http_server_add_route] the dispatcher finds, for
    every request, the route it found before, and the new route only for
    the requests that found none. *)
Theorem added_route_comes_last (server : HTTP_SERVER) (m' : HTTP_METHOD)
    (p' : string) (h : http_route_handler_fn) (ud : user_data)
    (m : HTTP_METHOD) (p : string) :
  find_route (routes (http_server_add_route server m' p' h ud)) 0 m p
  = match find_route (routes server) 0 m p with
    | Some found => Some found
    | None =>
        if http_route_matches (http_route_create m' p' h ud) m p
        then Some (length (routes server), http_route_create m' p' h ud)
        else None
    end.
Proof. cbn [http_server_add_route routes]. apply find_route_app. Qed.

End Route_registration.

Section Partial_reads.
Import Http Codec Route Server Reactor Table.
Variable fs : Static.filesystem.
Variable heap : nat -> ascii.
Variable parse_http_request : string -> option HTTP_REQUEST.

Lemma str_take_nonempty (n : nat) (s : string) :
  s <> EmptyString -> 0 < n -> String.length (str_take n s) <> 0.
Proof. destruct s, n; cbn; intros; try done; lia. Qed.

Lemma find_connection_updated (server : HTTP_SERVER) (i : nat)
    (conn conn' : CONNECTION_STATE) :
  connection_states server !! i = Some conn ->
  (forall j c', j < i -> connection_states server !! j = Some c' ->
                socket c' <> socket conn) ->
  socket conn' = socket conn ->
  find_connection server (socket conn) = Some (i, conn)
  /\ find_connection (set_connection server i conn') (socket conn) = Some (i, conn').
Proof.
  intros Hi Hfirst Hsock. unfold find_connection. split.
  - apply (find_connection_from_first _ 0 i conn (socket conn) Hi eq_refl Hfirst).
  - cbn [set_connection with_connections connection_states].
    apply (find_connection_from_first _ 0 i conn' (socket conn)).
    + apply list_lookup_insert_eq. eapply lookup_lt_Some, Hi.
    + exact Hsock.
    + intros j c' Hj Hc'. rewrite list_lookup_insert_ne in Hc' by lia.
      apply (Hfirst j c' Hj Hc').
Qed.

Lemma set_connection_twice (server : HTTP_SERVER) (i : nat)
    (c1 c2 : CONNECTION_STATE) :
  set_connection (set_connection server i c1) i c2 = set_connection server i c2.
Proof.
  unfold set_connection. cbn [with_connections connection_states running
    server_socket epoll_fd routes max_connections static_url_path static_directory
    default_file static_enabled].
  rewrite list_insert_insert_eq. reflexivity.
Qed.

(** The first read: bytes without a blank line are stored, and that
    is all. *)
Lemma first_read_is_stored (server : HTTP_SERVER) (i : nat) (conn : CONNECTION_STATE)
    (a : string) (queued : list Z) (now : Z) :
  find_connection server (socket conn) = Some (i, conn) ->
  buffer conn = EmptyString -> is_http2 conn = false ->
  a <> EmptyString ->
  String.length a < MAX_REQUEST_SIZE - 1 ->
  str_contains (CRLF +:+ CRLF) (c_string a) = false ->
  str_take Http2.HTTP2_PREFACE_LEN a <> Http2.HTTP2_PREFACE ->
  handle_client_data fs heap parse_http_request server (socket conn)
    (recv_bytes a) queued now
  = (set_connection server i
       {| socket := socket conn; buffer := a; is_http2 := false;
          last_activity := now |}, []).
Proof.
  intros Hfind Hbuf Hh2 Ha Hlen Hblank Hpre.
  unfold handle_client_data. rewrite Hfind. cbv zeta. rewrite Hbuf, Hh2.
  assert (Hgot : str_take (MAX_REQUEST_SIZE - String.length EmptyString - 1) a = a).
  { apply str_take_all. cbn [String.length]. lia. }
  rewrite Hgot. change (EmptyString +:+ a) with a.
  cbn [socket buffer is_http2 last_activity].
  destruct (Nat.eqb_spec (String.length a) 0) as [Hz | _].
  { destruct a; [done | discriminate Hz]. }
  assert (Heqb : String.eqb (str_take Http2.HTTP2_PREFACE_LEN a) Http2.HTTP2_PREFACE
                 = false) by (apply String.eqb_neq, Hpre).
  rewrite Heqb, andb_false_r. cbn [negb].
  unfold process_http_request. cbn [buffer]. rewrite Hblank. cbn [negb].
  destruct (String.length a <? 4); [reflexivity |].
  destruct (Nat.leb_spec (MAX_REQUEST_SIZE - 1) (String.length a)) as [Hge | _];
    [exfalso; lia | reflexivity].
Qed.

(** [handle_client_data] once the record is found and bytes are read. *)
Lemma handle_client_data_recv (server : HTTP_SERVER) (fd : Z) (i : nat)
    (conn : CONNECTION_STATE) (bytes : string) (queued : list Z) (now : Z) :
  find_connection server fd = Some (i, conn) ->
  handle_client_data fs heap parse_http_request server fd (recv_bytes bytes) queued now
  = after_recv (process_http_request fs heap parse_http_request) server fd i conn
      (str_take (MAX_REQUEST_SIZE - String.length (buffer conn) - 1) bytes) queued now.
Proof.
  intros Hfind. unfold handle_client_data, after_recv. rewrite Hfind.
  generalize MAX_REQUEST_SIZE. intros n. cbv zeta. reflexivity.
Qed.

(** Bytes read on top of stored bytes leave the connection where it
    would be had they all been read at once. *)
Lemma after_recv_stored (process : HTTP_SERVER -> CONNECTION_STATE ->
                                   HTTP_SERVER * list action)
    (server : HTTP_SERVER) (fd : Z) (i : nat) (conn : CONNECTION_STATE)
    (a got : string) (queued : list Z) (now1 now2 : Z) :
  buffer conn = EmptyString -> is_http2 conn = false ->
  a <> EmptyString -> String.length got <> 0 ->
  after_recv process
    (set_connection server i
       {| socket := socket conn; buffer := a; is_http2 := false;
          last_activity := now1 |})
    fd i
    {| socket := socket conn; buffer := a; is_http2 := false; last_activity := now1 |}
    got queued now2
  = after_recv process server fd i conn (a +:+ got) queued now2.
Proof.
  intros Hbuf Hh2 Ha Hgot. unfold after_recv. rewrite Hbuf, Hh2.
  cbn [socket buffer is_http2 last_activity].
  change (EmptyString +:+ a +:+ got) with (a +:+ got).
  assert (Hwhole : String.length (a +:+ got) <> 0).
  { rewrite str_length_app. lia. }
  apply Nat.eqb_neq in Hgot, Hwhole. rewrite Hgot, Hwhole, !set_connection_twice.
  reflexivity.
Qed.

(** X29.  A request may arrive in two reads.  When the first read
    brings bytes without a blank line (and not the HTTP/2 preface),
    [handle_client_data] only stores them and does nothing else; the second
    read is then handled exactly as if both parts had arrived at once. *)
Theorem request_in_two_reads (server : HTTP_SERVER) (i : nat) (conn : CONNECTION_STATE)
    (a b : string) (queued1 queued2 : list Z) (now1 now2 : Z) :
  connection_states server !! i = Some conn ->
  (forall j c', j < i -> connection_states server !! j = Some c' ->
                socket c' <> socket conn) ->
  buffer conn = EmptyString -> is_http2 conn = false ->
  a <> EmptyString -> b <> EmptyString ->
  String.length a < MAX_REQUEST_SIZE - 1 ->
  str_contains (CRLF +:+ CRLF) (c_string a) = false ->
  str_take Http2.HTTP2_PREFACE_LEN a <> Http2.HTTP2_PREFACE ->
  let first :=
    handle_client_data fs heap parse_http_request server (socket conn)
      (recv_bytes a) queued1 now1 in
  first.2 = []
  /\ handle_client_data fs heap parse_http_request first.1 (socket conn)
       (recv_bytes b) queued2 now2
     = handle_client_data fs heap parse_http_request server (socket conn)
         (recv_bytes (a +:+ b)) queued2 now2.
Proof.
  intros Hi Hfirst Hbuf Hh2 Ha Hb Hlen Hblank Hpre. cbv zeta.
  destruct (find_connection_updated server i conn
              {| socket := socket conn; buffer := a; is_http2 := false;
                 last_activity := now1 |} Hi Hfirst eq_refl)
    as [Hfind Hfind1].
  rewrite (first_read_is_stored server i conn a queued1 now1) by assumption.
  cbn [fst snd]. split; [reflexivity |].
  rewrite (handle_client_data_recv _ _ _ _ b queued2 now2 Hfind1).
  rewrite (handle_client_data_recv _ _ _ _ (a +:+ b) queued2 now2 Hfind).
  rewrite Hbuf. cbn [buffer String.length].
  assert (Hsplit : str_take (MAX_REQUEST_SIZE - 0 - 1) (a +:+ b)
                   = a +:+ str_take (MAX_REQUEST_SIZE - String.length a - 1) b).
  { rewrite str_take_app_ge by lia. f_equal. f_equal. lia. }
  rewrite Hsplit. apply after_recv_stored; try assumption.
  apply str_take_nonempty; [exact Hb | lia].
Qed.

End Partial_reads.

Section Partial_reads_example.
Import Http Codec Route Server Reactor Table.

Lemma request_in_two_reads_witness :
  let conn := {| socket := 10; buffer := ""; is_http2 := false; last_activity := 0 |} in
  let first :=
    handle_client_data Static.no_files zero_heap Request.parse_http_request
      (busy_server 1) 10 (recv_bytes "GET / HT") [] 1 in
  first.2 = []
  /\ handle_client_data Static.no_files zero_heap Request.parse_http_request
       first.1 10 (recv_bytes ("TP/1.1" +:+ CRLF +:+ CRLF)) [] 2
     = handle_client_data Static.no_files zero_heap Request.parse_http_request
         (busy_server 1) 10
         (recv_bytes ("GET / HT" +:+ "TP/1.1" +:+ CRLF +:+ CRLF)) [] 2.
Proof.
  apply (request_in_two_reads Static.no_files zero_heap Request.parse_http_request
           (busy_server 1) 0
           {| socket := 10; buffer := ""; is_http2 := false; last_activity := 0 |}
           "GET / HT" ("TP/1.1" +:+ CRLF +:+ CRLF) [] [] 1 2).
  - reflexivity.
  - intros j c' Hj. lia.
  - reflexivity.
  - reflexivity.
  - discriminate.
  - discriminate.
  - unfold MAX_REQUEST_SIZE. cbn. lia.
  - reflexivity.
  - discriminate.
Defined.

End Partial_reads_example.

Section Failed_start.
Import Lifecycle.
Local Open Scope Z_scope.

Lemma module_start_refused (md : MODULE) :
  mod_state md = MODULE_STATE_STARTED \/ mod_state md = MODULE_STATE_ERROR ->
  module_start md = (FRAMEWORK_ERROR_STATE, md, []).
Proof. intros [Hst | Hst]; unfold module_start; rewrite Hst; reflexivity. Qed.

Lemma start_modules_head (md : MODULE) (rest : list MODULE) :
  mod_state md = MODULE_STATE_INITIALIZED ->
  exists md' rest', (start_modules (md :: rest)).1.2 = md' :: rest'
                    /\ (mod_state md' = MODULE_STATE_STARTED
                        \/ mod_state md' = MODULE_STATE_ERROR).
Proof.
  intros Hst. cbn [start_modules]. unfold module_start.
  assert (Hguard : negb (bool_decide (mod_state md = MODULE_STATE_INITIALIZED))
                   && negb (bool_decide (mod_state md = MODULE_STATE_STOPPED)) = false)
    by (rewrite Hst; reflexivity).
  rewrite Hguard. destruct (call _ _) as [result cs].
  destruct (Z.eqb_spec result FRAMEWORK_SUCCESS) as [-> | Hfail]; cbn [negb].
  - rewrite Z.eqb_refl. cbn [negb].
    destruct (start_modules rest) as [[result' rest'] cs'].
    eexists _, _. split; [reflexivity | left; reflexivity].
  - apply Z.eqb_neq in Hfail. rewrite Hfail. cbn [negb].
    eexists _, _. split; [reflexivity | right; reflexivity].
Qed.

Lemma application_start_stuck (app : APPLICATION) :
  first_module_stuck app ->
  (application_start app).1.1 = FRAMEWORK_ERROR_STATE
  /\ first_module_stuck (application_start app).1.2.
Proof.
  intros Hstuck. pose proof Hstuck as (Hrun & md & rest & Hms & Hst).
  unfold application_start. destruct (negb (initialized app)); [done |].
  rewrite Hrun, Hms. cbn [start_modules]. rewrite (module_start_refused md Hst).
  cbn [negb Z.eqb FRAMEWORK_ERROR_STATE fst snd]. split; [reflexivity |].
  split; [exact Hrun |]. exists md, rest. done.
Qed.

Lemma lifecycle_step_stuck (app : APPLICATION) (op : lifecycle_op) :
  first_module_stuck app -> first_module_stuck (lifecycle_step app op).
Proof.
  intros Hstuck. pose proof Hstuck as (Hrun & md & rest & Hms & Hst).
  destruct op; cbn [lifecycle_step].
  - unfold application_initialize. destruct (initialized app); [exact Hstuck |].
    rewrite Hms.
    destruct (initialize_from_first md rest) as [Hres Heq].
    { destruct Hst as [-> | ->]; discriminate. }
    destruct (initialize_from [] (md :: rest)) as [[result ms] cs]. cbn [fst snd] in *.
    subst ms. apply Z.eqb_neq in Hres. rewrite Hres. cbn [negb fst snd].
    split; [exact Hrun |]. exists md, rest. done.
  - apply application_start_stuck, Hstuck.
  - unfold application_stop. rewrite Hrun. exact Hstuck.
  - unfold application_cleanup. rewrite Hrun. cbn [fst snd with_flags running modules].
    split; [exact Hrun |]. exists md, rest. done.
Qed.

(** X30.  A failed [application_start] is final.  On an initialised
    application with modules, when [application_start] fails, on a
    module or on a service, nothing is undone: the application is left not
    running with its first module STARTED or in ERROR, [application_stop]
    is turned down without a call, and every later [application_start]
    fails with FRAMEWORK_ERROR_STATE, whatever calls of
    [application_initialize], [application_stop] and [application_cleanup]
    come in between. *)
Theorem failed_start_is_final (app app' : APPLICATION) (result : Z)
    (calls : list event) (ops : list lifecycle_op) :
  modules app <> [] ->
  all_state MODULE_STATE_INITIALIZED (modules app) ->
  initialized app = true -> running app = false ->
  application_start app = (result, app', calls) ->
  result <> FRAMEWORK_SUCCESS ->
  first_module_stuck app'
  /\ application_stop app' = (FRAMEWORK_ERROR_STATE, app', [])
  /\ (application_start (foldl lifecycle_step app' ops)).1.1 = FRAMEWORK_ERROR_STATE.
Proof.
  intros Hne Hall Hinit Hrun Hstart Hfail.
  assert (Hstuck : first_module_stuck app').
  { destruct (modules app) as [| md rest] eqn:Hms; [done |].
    apply list.Forall_cons in Hall as [Hmd _].
    destruct (start_modules_head md rest Hmd) as (md' & rest' & Heq & Hst').
    revert Hstart. unfold application_start. rewrite Hinit, Hrun, Hms. cbn [negb].
    destruct (start_modules (md :: rest)) as [[r ms] cs]. cbn [fst snd] in Heq. subst ms.
    destruct (negb (r =? FRAMEWORK_SUCCESS)).
    - intros [= _ <- _]. split; [exact Hrun |]. exists md', rest'. done.
    - destruct (start_services (services app)) as [[r' ss] cs'].
      destruct (Z.eqb_spec r' FRAMEWORK_SUCCESS) as [-> | Hr']; cbn [negb].
      + intros [= <- _ _]. done.
      + intros [= _ <- _]. split; [exact Hrun |]. exists md', rest'. done. }
  split; [exact Hstuck |]. split.
  - unfold application_stop. destruct Hstuck as [-> _]. reflexivity.
  - apply application_start_stuck.
    induction ops as [| op ops IH] using rev_ind; [exact Hstuck |].
    rewrite foldl_app. cbn [foldl]. apply lifecycle_step_stuck, IH.
Qed.

Lemma failed_start_is_final_witness :
  let app :=
    (application_initialize
       (registered [reg_module database; reg_module broken_cache])).1.2 in
  (application_start app).1.1 = -8
  /\ (application_start
        (foldl lifecycle_step (application_start app).1.2
           [do_stop; do_cleanup; do_initialize])).1.1
     = FRAMEWORK_ERROR_STATE.
Proof.
  cbv zeta. split; [reflexivity |].
  apply (failed_start_is_final
           (application_initialize
              (registered [reg_module database; reg_module broken_cache])).1.2
           (application_start
              (application_initialize
                 (registered [reg_module database; reg_module broken_cache])).1.2).1.2
           (-8)
           (application_start
              (application_initialize
                 (registered [reg_module database; reg_module broken_cache])).1.2).2
           [do_stop; do_cleanup; do_initialize]).
  - discriminate.
  - repeat constructor.
  - reflexivity.
  - reflexivity.
  - reflexivity.
  - discriminate.
Defined.

End Failed_start.
